(** * Tool-call dispatch and specialized-agent orchestration

    A shallow embedding of the orchestration core of the middleware:
    - [src/libs/tools.ts]: [formatPhoneNumber], and the call functions
      [callPhone], [callHermesPhone] and [callSidPhone];
    - [src/libs/versionedFunctionMap.ts]: the in-memory stores, the phone
      directory ([storeYelpResults], [findPhoneNumber]), the call-action
      policy ([storeCallAction], [getCallAction]), polling bookkeeping
      ([startAgentPolling], [stopAgentPolling]), the three dispatch
      wrappers around [createSpecializedVoiceAgent], the status functions
      ([injectStatusIntoConversation], [getConversationContext],
      [isSignificantUpdate], [getSpecializedAgentStatus],
      [getLatestAgentStatus], [getLatestAgentUpdates]),
      [getIndexedRestaurants], the index part of [searchYelpByName] and
      the keys of [getVersionedFunctionMap];
    - [src/libs/versionedTools.ts] and [src/libs/toolDefinitions.ts]: the
      names [getToolsForVersion] offers and the response types;
    - [src/services/cerebrasService.ts]: the tool-call loop of
      [processNonStreamingRequest], and [processMultiTurnToolUse];
    - [src/middleware/auth.ts]: [validateRequest].

    Text is modelled as [string], holding the UTF-8 encoding of the text
    (a character that is only half of a surrogate pair as its three
    bytes).  Where the source counts UTF-16 code units ([.length] of a
    text that may leave ASCII) the model counts them too ([jsLength]), and
    [toLowerCase] gives the characters of ASCII that JavaScript gives, also
    for the two characters outside ASCII whose lower case has one.  A
    JavaScript [Map] whose iteration order is observed
    is an insertion-ordered association list ([JsMap]); the other maps and
    the [Set] are stdpp's [gmap] and [gset].

    What lies outside the process is given to the functions that observe
    it: a reading of [Date.now()] is an argument, the provisioning service
    and the telephony bridge are the fields of [Env], the completion
    client, [JSON.parse] and the handler registry are the variables of the
    section [Dispatcher].  A [throw] is an [Outcome]; an [async] function
    that touches the stores after an [await] is a [Task].  Console output
    is left out. *)

From Stdlib Require Import String Ascii ZArith Lia Bool.
From Stdlib Require Import DecimalString.
From stdpp Require Import base option list strings gmap.

Local Open Scope Z_scope.

(* ===================================================================== *)
(** ** Strings as the source uses them *)
(* ===================================================================== *)

Module JsString.

Definition code (c : ascii) : nat := nat_of_ascii c.

(** [\d] of a regular expression without the unicode flag: [0-9]. *)
Definition isDigit (c : ascii) : bool :=
  (48 <=? code c)%nat && (code c <=? 57)%nat.

Definition isUpper (c : ascii) : bool :=
  (65 <=? code c)%nat && (code c <=? 90)%nat.

Definition isLower (c : ascii) : bool :=
  (97 <=? code c)%nat && (code c <=? 122)%nat.

(** The character class [[a-z0-9]]. *)
Definition isLowerAlnum (c : ascii) : bool := isLower c || isDigit c.

Definition lowerChar (c : ascii) : ascii :=
  if isUpper c then ascii_of_nat (code c + 32) else c.

(** The bytes of U+0307, the combining dot above. *)
Definition combiningDotAbove : string :=
  String (ascii_of_nat 204) (String (ascii_of_nat 135) EmptyString).

(** [s.toLowerCase()].  A capital letter of ASCII becomes its small
    letter.  U+0130, the capital I with a dot (bytes [C4 B0]), becomes [i]
    followed by U+0307, and U+212A, the Kelvin sign (bytes [E2 84 AA]),
    becomes [k]: these are the two characters outside ASCII whose lower
    case has a character of ASCII.  Every other character outside ASCII is
    left as it is, where JavaScript may put other characters outside ASCII
    in its place; the source only tests the result against texts of ASCII
    ([includes], [===], the class [[a-z0-9]]), which cannot tell the
    two. *)
Fixpoint toLowerCase (s : string) : string :=
  match s with
  | EmptyString => EmptyString
  | String c rest =>
      match rest with
      | EmptyString => String (lowerChar c) EmptyString
      | String c1 rest1 =>
          if (code c =? 196)%nat && (code c1 =? 176)%nat
          then String "i" (append combiningDotAbove (toLowerCase rest1))
          else
            match rest1 with
            | EmptyString => String (lowerChar c) (toLowerCase rest)
            | String c2 rest2 =>
                if (code c =? 226)%nat && (code c1 =? 132)%nat
                   && (code c2 =? 170)%nat
                then String "k" (toLowerCase rest2)
                else String (lowerChar c) (toLowerCase rest)
            end
      end
  end.

(** [s.length]: the number of UTF-16 code units of the text.  A character
    of one, two or three bytes is one unit, a character of four bytes is a
    surrogate pair; the bytes [10xxxxxx] continue a character. *)
Fixpoint jsLength (s : string) : nat :=
  match s with
  | EmptyString => 0%nat
  | String c rest =>
      ((if (code c <? 128)%nat then 1
        else if (code c <? 192)%nat then 0
        else if (code c <? 240)%nat then 1
        else 2) + jsLength rest)%nat
  end.

(** [s.replace(/[^C]/g, '')] for a character class [C]: keep the
    characters of the class, in order. *)
Fixpoint keep (p : ascii -> bool) (s : string) : string :=
  match s with
  | EmptyString => EmptyString
  | String c s' => if p c then String c (keep p s') else keep p s'
  end.

(** [s.startsWith(pre)]. *)
Definition startsWith (s pre : string) : bool := String.prefix pre s.

(** [s.includes(sub)]: [sub] occurs at some position of [s]. *)
Fixpoint includes (s sub : string) : bool :=
  startsWith s sub ||
  match s with
  | EmptyString => false
  | String _ s' => includes s' sub
  end.

(** Truthiness of a string: the empty string is falsy. *)
Definition truthy (s : string) : bool :=
  match s with EmptyString => false | _ => true end.

Fixpoint all_chars (p : ascii -> bool) (s : string) : bool :=
  match s with
  | EmptyString => true
  | String c s' => p c && all_chars p s'
  end.

(** [arr.join(sep)]. *)
Fixpoint join (sep : string) (l : list string) : string :=
  match l with
  | [] => ""
  | [x] => x
  | x :: l' => x +:+ sep +:+ join sep l'
  end.

(** Rendering of an integral number inside a template literal. *)
Definition ofZ (z : Z) : string := NilZero.string_of_int (Z.to_int z).

(** The double-quote character, for the quoted parts of messages. *)
Definition dq : string := String (ascii_of_nat 34) EmptyString.

End JsString.

Import JsString.

(* ===================================================================== *)
(** ** [src/libs/tools.ts] *)
(* ===================================================================== *)

(** [formatPhoneNumber(phone)]. *)
Definition formatPhoneNumber (phone : string) : string :=
  (* Remove any non-digit characters and + prefix if present *)
  let digitsOnly := keep isDigit phone in
  (* If it doesn't start with country code, add US code (1) *)
  let withCountryCode :=
    if startsWith digitsOnly "1" then digitsOnly else "1" +:+ digitsOnly in
  (* Add + prefix *)
  "+" +:+ withCountryCode.

(* ===================================================================== *)
(** ** Insertion-ordered maps *)
(* ===================================================================== *)

(** A JavaScript [Map] with string keys, as the list of its entries in
    insertion order.  [set] on a present key replaces the value in place,
    [set] on a new key appends, [delete] removes the key. *)
Module JsMap.

Definition t (V : Type) : Type := list (string * V).

Definition empty {V} : t V := [].

Fixpoint get {V} (m : t V) (k : string) : option V :=
  match m with
  | [] => None
  | (k', v) :: m' => if String.eqb k' k then Some v else get m' k
  end.

Definition has {V} (m : t V) (k : string) : bool :=
  match get m k with Some _ => true | None => false end.

Fixpoint set {V} (m : t V) (k : string) (v : V) : t V :=
  match m with
  | [] => [(k, v)]
  | (k', v') :: m' =>
      if String.eqb k' k then (k', v) :: m' else (k', v') :: set m' k v
  end.

Fixpoint delete {V} (m : t V) (k : string) : t V :=
  match m with
  | [] => []
  | (k', v') :: m' =>
      if String.eqb k' k then delete m' k else (k', v') :: delete m' k
  end.

Definition size {V} (m : t V) : nat := length m.

Definition entries {V} (m : t V) : list (string * V) := m.

Definition values {V} (m : t V) : list V := map snd m.

Definition keys {V} (m : t V) : list string := map fst m.

End JsMap.

(* ===================================================================== *)
(** ** [src/libs/versionedFunctionMap.ts]: the stores *)
(* ===================================================================== *)

(** Entry of [agentStore]. *)
Record AgentInfo := mkAgentInfo {
  ai_agentId : string;
  ai_type : string;
  ai_channel : string;
  ai_timestamp : Z
}.

(** Entry of a user's index inside [restaurantIndex]. *)
Record Restaurant := mkRestaurant {
  r_name : string;
  r_phone : string;
  r_id : string;
  r_lastSeen : Z
}.

(** Entry of [callActionStore]. *)
Record CallActionEntry := mkCallAction {
  ca_callAction : string;
  ca_timestamp : Z
}.

(** Entry of [activePollingSessions]; [ps_intervalId] is the optional
    [intervalId] timer handle. *)
Record PollingSession := mkSession {
  ps_agentId : string;
  ps_userId : string;
  ps_channel : string;
  ps_type : string;
  ps_pollCount : Z;
  ps_lastStatus : string;
  ps_consecutiveUnchangedCount : Z;
  ps_intervalId : option nat
}.

(** Entry of [pollingCallbacks]. *)
Record PollingCallback := mkCallback {
  pc_appId : string;
  pc_userId : string;
  pc_channel : string;
  pc_agentId : string;
  pc_type : string
}.

Inductive UpdateType := UPDATE | COMPLETED | FAILED.

Record ContextUpdate := mkUpdate {
  cu_timestamp : Z;
  cu_status : string;
  cu_type : UpdateType
}.

(** Entry of [conversationContext]. *)
Record ContextEntry := mkContext {
  cx_agentId : string;
  cx_type : string;
  cx_latestStatus : string;
  cx_updates : list ContextUpdate
}.

(** The module-level maps of [versionedFunctionMap.ts], together with the
    runtime's table of armed interval timers (what [clearInterval] acts
    on). *)
Record Stores := mkStores {
  agentStore : gmap string AgentInfo;
  restaurantIndex : gmap string (JsMap.t Restaurant);
  callActionStore : gmap string CallActionEntry;
  activeSpecializedAgents : gmap string bool;
  activePollingSessions : JsMap.t PollingSession;
  pollingCallbacks : gmap string PollingCallback;
  conversationContext : gmap string ContextEntry;
  armedTimers : gset nat
}.

Definition emptyStores : Stores :=
  mkStores ∅ ∅ ∅ ∅ JsMap.empty ∅ ∅ ∅.

Definition set_agentStore (f : gmap string AgentInfo -> gmap string AgentInfo)
    (s : Stores) : Stores :=
  mkStores (f (agentStore s)) (restaurantIndex s) (callActionStore s)
    (activeSpecializedAgents s) (activePollingSessions s) (pollingCallbacks s)
    (conversationContext s) (armedTimers s).

Definition set_restaurantIndex
    (f : gmap string (JsMap.t Restaurant) -> gmap string (JsMap.t Restaurant))
    (s : Stores) : Stores :=
  mkStores (agentStore s) (f (restaurantIndex s)) (callActionStore s)
    (activeSpecializedAgents s) (activePollingSessions s) (pollingCallbacks s)
    (conversationContext s) (armedTimers s).

Definition set_callActionStore
    (f : gmap string CallActionEntry -> gmap string CallActionEntry)
    (s : Stores) : Stores :=
  mkStores (agentStore s) (restaurantIndex s) (f (callActionStore s))
    (activeSpecializedAgents s) (activePollingSessions s) (pollingCallbacks s)
    (conversationContext s) (armedTimers s).

Definition set_activeSpecializedAgents
    (f : gmap string bool -> gmap string bool) (s : Stores) : Stores :=
  mkStores (agentStore s) (restaurantIndex s) (callActionStore s)
    (f (activeSpecializedAgents s)) (activePollingSessions s)
    (pollingCallbacks s) (conversationContext s) (armedTimers s).

Definition set_activePollingSessions
    (f : JsMap.t PollingSession -> JsMap.t PollingSession)
    (s : Stores) : Stores :=
  mkStores (agentStore s) (restaurantIndex s) (callActionStore s)
    (activeSpecializedAgents s) (f (activePollingSessions s))
    (pollingCallbacks s) (conversationContext s) (armedTimers s).

Definition set_pollingCallbacks
    (f : gmap string PollingCallback -> gmap string PollingCallback)
    (s : Stores) : Stores :=
  mkStores (agentStore s) (restaurantIndex s) (callActionStore s)
    (activeSpecializedAgents s) (activePollingSessions s)
    (f (pollingCallbacks s)) (conversationContext s) (armedTimers s).

Definition set_conversationContext
    (f : gmap string ContextEntry -> gmap string ContextEntry)
    (s : Stores) : Stores :=
  mkStores (agentStore s) (restaurantIndex s) (callActionStore s)
    (activeSpecializedAgents s) (activePollingSessions s)
    (pollingCallbacks s) (f (conversationContext s)) (armedTimers s).

Definition set_armedTimers (f : gset nat -> gset nat) (s : Stores) : Stores :=
  mkStores (agentStore s) (restaurantIndex s) (callActionStore s)
    (activeSpecializedAgents s) (activePollingSessions s)
    (pollingCallbacks s) (conversationContext s) (f (armedTimers s)).

(** [clearInterval(id)]. *)
Definition clearInterval (id : nat) (s : Stores) : Stores :=
  set_armedTimers (fun t => t ∖ {[ id ]}) s.

(* ===================================================================== *)
(** ** The phone directory *)
(* ===================================================================== *)

(** One element of the [results] array of [storeYelpResults]. *)
Record YelpResult := mkYelpResult {
  yr_name : string;
  yr_phone : string;
  yr_id : string
}.

(** Body of the [results.forEach] callback of [storeYelpResults], where
    [now] is the value [Date.now()] yields during this iteration. *)
Definition storeYelpResult (now : Z) (userIndex : JsMap.t Restaurant)
    (result : YelpResult) : JsMap.t Restaurant :=
  (* Use restaurant ID as key to avoid duplicates *)
  if truthy (yr_phone result) && negb (JsMap.has userIndex (yr_id result))
  then
    JsMap.set userIndex (yr_id result)
      (mkRestaurant (yr_name result) (yr_phone result) (yr_id result) now)
  else if truthy (yr_phone result) && JsMap.has userIndex (yr_id result)
  then
    (* Update lastSeen timestamp for existing entries *)
    match JsMap.get userIndex (yr_id result) with
    | Some existing =>
        JsMap.set userIndex (yr_id result)
          (mkRestaurant (r_name existing) (r_phone existing) (r_id existing)
             now)
    | None => userIndex
    end
  else userIndex.

(** The [forEach] loop; [clock i] is the reading of [Date.now()] while the
    element of index [i] is processed. *)
Fixpoint storeYelpLoop (clock : nat -> Z) (i : nat)
    (userIndex : JsMap.t Restaurant) (results : list YelpResult)
    : JsMap.t Restaurant :=
  match results with
  | [] => userIndex
  | result :: rest =>
      storeYelpLoop clock (S i) (storeYelpResult (clock i) userIndex result)
        rest
  end.

(** [storeYelpResults(userId, results)] on the [restaurantIndex] map. *)
Definition storeYelpResults (clock : nat -> Z) (userId : string)
    (results : list YelpResult)
    (index : gmap string (JsMap.t Restaurant))
    : gmap string (JsMap.t Restaurant) :=
  let index0 :=
    match index !! userId with
    | Some _ => index
    | None => <[ userId := JsMap.empty ]> index
    end in
  let userIndex := default JsMap.empty (index0 !! userId) in
  <[ userId := storeYelpLoop clock 0 userIndex results ]> index0.

(** The normalisation both names go through in [findPhoneNumber]:
    [s.toLowerCase().replace(/[^a-z0-9]/g, '')]. *)
Definition normalizeName (s : string) : string :=
  keep isLowerAlnum (toLowerCase s).

(** The [for (const restaurant of userIndex.values())] loop of
    [findPhoneNumber]. *)
Fixpoint findPhoneLoop (normalizedSearchName : string)
    (restaurants : list Restaurant) : option string :=
  match restaurants with
  | [] => None
  | restaurant :: rest =>
      let normalizedResultName := normalizeName (r_name restaurant) in
      if includes normalizedResultName normalizedSearchName
         || includes normalizedSearchName normalizedResultName
      then Some (r_phone restaurant)
      else findPhoneLoop normalizedSearchName rest
  end.

(** [findPhoneNumber(userId, restaurantName)]; [None] is [null]. *)
Definition findPhoneNumber (index : gmap string (JsMap.t Restaurant))
    (userId restaurantName : string) : option string :=
  match index !! userId with
  | None => None
  | Some userIndex =>
      if (JsMap.size userIndex =? 0)%nat then None
      else
        let normalizedSearchName := normalizeName restaurantName in
        (* Search through all indexed restaurants *)
        findPhoneLoop normalizedSearchName (JsMap.values userIndex)
  end.

(* ===================================================================== *)
(** ** The call-action policy *)
(* ===================================================================== *)

Definition defaultCallAction : string := "call_hermes".

(** [60 * 60 * 1000] milliseconds. *)
Definition oneHourMs : Z := 60 * 60 * 1000.

(** [storeCallAction(channel, callAction)], [now] being [Date.now()]. *)
Definition storeCallAction (now : Z) (channel callAction : string)
    (store : gmap string CallActionEntry) : gmap string CallActionEntry :=
  if negb (truthy channel) then store
  else <[ channel := mkCallAction callAction now ]> store.

(** [getCallAction(channel)], [now] being [Date.now()]: the action and the
    store afterwards. *)
Definition getCallAction (now : Z) (channel : string)
    (store : gmap string CallActionEntry)
    : string * gmap string CallActionEntry :=
  if negb (truthy channel) then (defaultCallAction, store)
  else
    match store !! channel with
    | Some stored =>
        (* Clean up old entries (older than 1 hour) *)
        let oneHourAgo := now - oneHourMs in
        if ca_timestamp stored <? oneHourAgo
        then (defaultCallAction, delete channel store)
        else (ca_callAction stored, store)
    | None => (defaultCallAction, store)
    end.


(* ===================================================================== *)
(** ** Agent bookkeeping and polling sessions *)
(* ===================================================================== *)

(** Truthiness of an optional string argument: [undefined] and the empty
    string are falsy. *)
Definition truthyOpt (o : option string) : bool :=
  match o with Some s => truthy s | None => false end.

(** [o || d] for an optional string. *)
Definition orElse (o : option string) (d : string) : string :=
  match o with
  | Some s => if truthy s then s else d
  | None => d
  end.

(** [storeAgentInfo(userId, agentId, type, channel)]. *)
Definition storeAgentInfo (now : Z) (userId agentId type channel : string)
    (st : Stores) : Stores :=
  set_agentStore (insert userId (mkAgentInfo agentId type channel now)) st.

(** [getLatestAgent(userId)]. *)
Definition getLatestAgent (userId : string) (st : Stores) : option AgentInfo :=
  agentStore st !! userId.

(** [`${channel}-${agentId}`]. *)
Definition sessionKeyOf (channel agentId : string) : string :=
  channel +:+ "-" +:+ agentId.

(** [existing.updates.slice(-5)]. *)
Definition lastFive {A} (l : list A) : list A := drop (length l - 5)%nat l.

(** [injectStatusIntoConversation], [now] being [Date.now()]. *)
Definition injectStatusIntoConversation (now : Z)
    (appId userId channel agentId type status : string)
    (updateType : UpdateType) (st : Stores) : Stores :=
  let contextKey := channel in
  let update := mkUpdate now status updateType in
  match conversationContext st !! contextKey with
  | Some existing =>
      let updates := cx_updates existing ++ [update] in
      (* Keep only last 5 updates to avoid memory bloat *)
      let updates' :=
        if (5 <? length updates)%nat then lastFive updates else updates in
      set_conversationContext
        (insert contextKey
           (mkContext (cx_agentId existing) (cx_type existing) status updates'))
        st
  | None =>
      set_conversationContext
        (insert contextKey (mkContext agentId type status [update])) st
  end.

(** [startAgentPolling(appId, userId, channel, agentId, type)]. *)
Definition startAgentPolling (appId userId channel agentId type : string)
    (st : Stores) : Stores :=
  let sessionKey := sessionKeyOf channel agentId in
  (* Clear any existing polling for this session *)
  let st1 :=
    match JsMap.get (activePollingSessions st) sessionKey with
    | Some existing =>
        match ps_intervalId existing with
        | Some id => clearInterval id st
        | None => st
        end
    | None => st
    end in
  (* Initialize polling session *)
  let st2 :=
    set_activePollingSessions
      (fun m =>
         JsMap.set m sessionKey
           (mkSession agentId userId channel type 0 "STARTING" 0 None)) st1 in
  (* Store agent info for manual status checks only *)
  set_pollingCallbacks
    (insert channel (mkCallback appId userId channel agentId type)) st2.

(** The [args] of [stopAgentPolling]. *)
Record StopArgs := mkStopArgs {
  sa_agent_id : option string;
  sa_reason : option string
}.

(** The [for ... of activePollingSessions.entries()] loop with its
    [break]: the first session of the channel. *)
Fixpoint findSessionByChannel (channel : string)
    (entries : list (string * PollingSession))
    : option (string * PollingSession) :=
  match entries with
  | [] => None
  | (key, session) :: rest =>
      if String.eqb (ps_channel session) channel then Some (key, session)
      else findSessionByChannel channel rest
  end.

(** First half of [stopAgentPolling]: the session key and agent id to
    stop, or the message returned when there is none. *)
Definition locateSession (channel : string) (args : StopArgs) (st : Stores)
    : string + (string * string) :=
  if negb (truthyOpt (sa_agent_id args)) then
    (* Find active session by channel *)
    match findSessionByChannel channel
            (JsMap.entries (activePollingSessions st)) with
    | Some (key, session) =>
        if negb (truthy (ps_agentId session))
        then inl "No active agent found to stop."
        else inr (key, ps_agentId session)
    | None => inl "No active agent found to stop."
    end
  else
    let agentId := default "" (sa_agent_id args) in
    inr (sessionKeyOf channel agentId, agentId).

(** [stopAgentPolling(appId, userId, channel, args)]: the returned string
    and the stores afterwards. *)
Definition stopAgentPolling (appId userId channel : string) (args : StopArgs)
    (st : Stores) : string * Stores :=
  match locateSession channel args st with
  | inl message => (message, st)
  | inr (sessionKey, agentId) =>
      match JsMap.get (activePollingSessions st) sessionKey with
      | None =>
          ("No active polling session found for agent " +:+ agentId +:+ ".",
           st)
      | Some session =>
          (* Stop the polling *)
          let st1 :=
            match ps_intervalId session with
            | Some id => clearInterval id st
            | None => st
            end in
          let st2 :=
            set_activePollingSessions (fun m => JsMap.delete m sessionKey)
              st1 in
          let reason := orElse (sa_reason args) "manually stopped" in
          (* Clean up polling callback *)
          let st3 := set_pollingCallbacks (delete channel) st2 in
          (* Clear the active specialized agent flag to allow new calls *)
          let st4 := set_activeSpecializedAgents (delete channel) st3 in
          ("✅ Stopped monitoring agent " +:+ agentId +:+ ". Reason: "
             +:+ reason,
           st4)
      end
  end.

(* ===================================================================== *)
(** ** Asynchronous code *)
(* ===================================================================== *)

(** What a [throw] carries: an [Error] object with its [name] and
    [message], or any other value. *)
Inductive Thrown :=
| ErrorObject (name message : string)
| ThrownValue.

(** How a call or a promise ends. *)
Inductive Outcome (A : Type) :=
| Returns (a : A)
| Throws (e : Thrown).
Arguments Returns {A} a.
Arguments Throws {A} e.

(** An [async] function as a resumption: it is settled, or suspended at an
    [await] and, when resumed on the stores as they are then, runs its next
    synchronous stretch.  Other code may run, and change the stores,
    between two stretches. *)
#[local] Unset Elimination Schemes.
Inductive Task (A : Type) :=
| Settled (o : Outcome A)
| Awaiting (k : Stores -> Stores * Task A).
#[local] Set Elimination Schemes.
Arguments Settled {A} o.
Arguments Awaiting {A} k.

(** [promise.catch(handler)] for a handler that returns normally. *)
Fixpoint onRejected {A} (t : Task A) (handler : Thrown -> Stores -> Stores)
    : Task unit :=
  match t with
  | Settled (Returns _) => Settled (Returns tt)
  | Settled (Throws e) =>
      Awaiting (fun st => (handler e st, Settled (Returns tt)))
  | Awaiting k =>
      Awaiting (fun st =>
        match k st with
        | (st', t') => (st', onRejected t' handler)
        end)
  end.

(** Running a task to its end with nothing else in between. *)
Fixpoint runTask {A} (t : Task A) (st : Stores) : Stores * Outcome A :=
  match t with
  | Settled o => (st, o)
  | Awaiting k =>
      match k st with
      | (st', t') => runTask t' st'
      end
  end.

(** Running a task while other code runs before each of its stretches:
    [others] gives, stretch by stretch, what that code does to the
    stores. *)
Fixpoint runTaskAmong {A} (others : nat -> Stores -> Stores) (i : nat)
    (t : Task A) (st : Stores) : Stores * Outcome A :=
  match t with
  | Settled o => (st, o)
  | Awaiting k =>
      match k (others i st) with
      | (st', t') => runTaskAmong others (S i) t' st'
      end
  end.


(* ===================================================================== *)
(** ** Provisioning an agent and placing the call *)
(* ===================================================================== *)

(** The fields of [config] ([src/libs/utils.ts]) that
    [createSpecializedVoiceAgent] reads. *)
Record Config := mkConfig {
  agora_convoAiBaseUrl : string;
  agora_appId : string;
  llm_specializedAgentUrl : string;
  llm_specializedAgentApiKey : string;
  tts_vendor : string;
  tts_elevenlabs_apiKey : string;
  tts_elevenlabs_modelId : string;
  tts_elevenlabs_voiceId : string;
  tts_microsoft_key : string;
  tts_microsoft_region : string;
  tts_microsoft_voiceName : string
}.

(** The reply of the provisioning service to the [join] request:
    [resp_text] is [await agentResponse.text()], [resp_json] the
    [agent_id] of [await agentResponse.json()]. *)
Record JoinResponse := mkJoinResponse {
  resp_ok : bool;
  resp_status : Z;
  resp_statusText : string;
  resp_text : Outcome string;
  resp_json : Outcome (option string)
}.

(** Everything outside the process that one run of
    [createSpecializedVoiceAgent] observes.  The request body (prompt,
    greeting, token, voice settings) only travels to the provisioning
    service, whose reply is [fetchJoin]. *)
Record Env := mkEnv {
  config : Config;
  nowCreate : Z;                       (* const timestamp = Date.now() *)
  randomSuffix : string;               (* Math.random().toString(36)... *)
  buildTokenWithUid : string -> Outcome string;
  fetchJoin : Outcome JoinResponse;    (* await fetch(.../join) *)
  nowStoreAgent : Z;                   (* Date.now() in storeAgentInfo *)
  nowGetCallAction : Z;                (* Date.now() in getCallAction *)
  callSidPhone : string -> string -> string -> Outcome string;
  callPhone : string -> string -> string -> string -> Outcome string;
  callHermesPhone : string -> string -> string -> Outcome string
}.

(** The [missingConfig] array. *)
Definition missingConfig (c : Config) : list string :=
  (if negb (truthy (agora_convoAiBaseUrl c))
   then ["AGORA_CONVO_AI_BASE_URL"] else []) ++
  (if negb (truthy (llm_specializedAgentUrl c)) then ["LLM_URL"] else []) ++
  (if negb (truthy (llm_specializedAgentApiKey c))
   then ["LLM_API_KEY"] else []) ++
  (if String.eqb (tts_vendor c) "elevenlabs" then
     (if negb (truthy (tts_elevenlabs_apiKey c))
      then ["ELEVENLABS_API_KEY"] else []) ++
     (if negb (truthy (tts_elevenlabs_modelId c))
      then ["ELEVENLABS_MODEL_ID"] else []) ++
     (if negb (truthy (tts_elevenlabs_voiceId c))
      then ["ELEVENLABS_VOICE_ID"] else [])
   else if String.eqb (tts_vendor c) "microsoft" then
     (if negb (truthy (tts_microsoft_key c))
      then ["MICROSOFT_TTS_KEY"] else []) ++
     (if negb (truthy (tts_microsoft_region c))
      then ["MICROSOFT_TTS_REGION"] else []) ++
     (if negb (truthy (tts_microsoft_voiceName c))
      then ["MICROSOFT_TTS_VOICE_NAME"] else [])
   else []).

(** [getTTSConfig()]: it throws on a vendor it does not know. *)
Definition getTTSConfig (c : Config) : Outcome string :=
  if String.eqb (tts_vendor c) "elevenlabs" then Returns "elevenlabs"
  else if String.eqb (tts_vendor c) "microsoft" then Returns "microsoft"
  else
    Throws (ErrorObject "Error"
      ("Unsupported TTS vendor: " +:+ tts_vendor c
         +:+ ". Supported vendors: elevenlabs, microsoft")).

(** The outer [catch (error)] of [createSpecializedVoiceAgent]. *)
Definition creationErrorMessage (specialization : string) (error : Thrown)
    : string :=
  match error with
  | ErrorObject name message =>
      if String.eqb name "AbortError" then
        "Error creating " +:+ specialization +:+
        " agent: Request timed out after 30 seconds. Please check your network connection and try again."
      else if includes message "fetch failed" then
        "Error creating " +:+ specialization +:+
        " agent: Network connection failed. Please check if the Agora Conversational AI service is accessible and try again."
      else "Error creating " +:+ specialization +:+ " agent: " +:+ message
  | ThrownValue =>
      "Error creating " +:+ specialization +:+ " agent: Unknown error"
  end.

Definition agentDetails (specialization specializedChannelName : string)
    (agent_id : option string) (phoneNumber : string) : string :=
  "Agent Details:
- Type: " +:+ specialization +:+ "
- Channel: " +:+ specializedChannelName +:+ "
- Agent ID: " +:+ orElse agent_id "Unknown ID" +:+ "
- Phone Number: " +:+ phoneNumber.

(** [errorResponse]: the call returned a text that reports a failure. *)
Definition callFailedResponse (specialization specializedChannelName : string)
    (agent_id : option string) (phoneNumber callResult : string) : string :=
  specialization +:+ " agent created successfully, but phone call failed.

" +:+ agentDetails specialization specializedChannelName agent_id phoneNumber
  +:+ "

Phone Call Error: " +:+ callResult +:+ "

The agent is ready but the phone call couldn't connect. This might be due to:
- Invalid phone number format
- Network/PSTN configuration issues
- Restaurant phone line unavailable

You can try calling " +:+ phoneNumber +:+ " manually to place your order.".

(** [phoneErrorResponse]: the call threw. *)
Definition callThrewResponse (specialization specializedChannelName : string)
    (agent_id : option string) (phoneNumber : string) (phoneError : Thrown)
    : string :=
  let errorMessage :=
    match phoneError with
    | ErrorObject _ message => message
    | ThrownValue => "Unknown phone error"
    end in
  specialization +:+ " agent created successfully, but phone call failed.

" +:+ agentDetails specialization specializedChannelName agent_id phoneNumber
  +:+ "

Phone Call Error: " +:+ errorMessage +:+ "

The agent is ready but you'll need to manually connect the phone call. You can try calling "
  +:+ phoneNumber +:+ " manually to connect to the agent.".

Definition successResponse (specialization phoneNumber : string) : string :=
  "✅ " +:+ specialization +:+ " agent created and calling " +:+ phoneNumber
  +:+ "!

🔄 **Automatic monitoring started** - I'll provide real-time updates as your "
  +:+ specialization +:+ " progresses.

Initial status will be available shortly...".

(** The [switch (callAction)] that places the call. *)
Definition placeCall (env : Env) (callAction userId specializedChannelName
    phoneNumber : string) : Outcome string :=
  let agoraAppId := agora_appId (config env) in
  if String.eqb callAction "call_sid" then
    callSidPhone env agoraAppId userId specializedChannelName
  else if String.eqb callAction "live" then
    callPhone env agoraAppId userId specializedChannelName phoneNumber
  else
    callHermesPhone env agoraAppId userId specializedChannelName.

(** [createSpecializedVoiceAgent(appId, userId, channel, specialization,
    systemMessage, phoneNumber, greetingMessage)].  The body up to the
    first [await] builds the task; the two stretches that touch the stores
    follow the reply of the provisioning service and the result of the
    call. *)
Definition createSpecializedVoiceAgent (env : Env)
    (appId userId channel specialization phoneNumber : string)
    : Task string :=
  let c := config env in
  (* Validate required configuration for specialized agents *)
  match missingConfig c with
  | _ :: _ =>
      Settled (Returns
        ("Error: Specialized voice agents require additional configuration. Missing environment variables: "
         +:+ join ", " (missingConfig c)
         +:+ ". Please set these variables and restart the server."))
  | [] =>
  match getTTSConfig c with
  | Throws error => Settled (Returns (creationErrorMessage specialization error))
  | Returns _ =>
  (* Generate unique channel name for the specialized agent *)
  let specializedChannelName :=
    "specialized-" +:+ specialization +:+ "-" +:+ ofZ (nowCreate env)
      +:+ "-" +:+ randomSuffix env in
  (* Generate token for the new channel *)
  match buildTokenWithUid env specializedChannelName with
  | Throws error => Settled (Returns (creationErrorMessage specialization error))
  | Returns _ =>
  (* Create the specialized agent *)
  Awaiting (fun st =>
    match fetchJoin env with
    | Throws error =>
        (st, Settled (Returns (creationErrorMessage specialization error)))
    | Returns agentResponse =>
        if negb (resp_ok agentResponse) then
          match resp_text agentResponse with
          | Throws error =>
              (st, Settled (Returns (creationErrorMessage specialization error)))
          | Returns errorText =>
              (st, Settled (Returns
                 ("Error creating " +:+ specialization +:+ " agent: "
                  +:+ ofZ (resp_status agentResponse) +:+ " "
                  +:+ resp_statusText agentResponse +:+ " - " +:+ errorText)))
          end
        else
          match resp_json agentResponse with
          | Throws error =>
              (st, Settled (Returns (creationErrorMessage specialization error)))
          | Returns agent_id =>
              (* Store the agent information for later retrieval *)
              let st1 :=
                match agent_id with
                | Some id =>
                    if truthy id
                    then storeAgentInfo (nowStoreAgent env) userId id
                           specialization specializedChannelName st
                    else st
                | None => st
                end in
              (* determine call type based on user preference *)
              let '(callAction, store') :=
                getCallAction (nowGetCallAction env) channel
                  (callActionStore st1) in
              let st2 := set_callActionStore (fun _ => store') st1 in
              (st2,
               Awaiting (fun st =>
                 match placeCall env callAction userId specializedChannelName
                         phoneNumber with
                 | Throws phoneError =>
                     (st, Settled (Returns
                        (callThrewResponse specialization
                           specializedChannelName agent_id phoneNumber
                           phoneError)))
                 | Returns callResult =>
                     (* Check if call was successful *)
                     if includes callResult "Failed"
                        || includes callResult "Error"
                        || includes callResult "Invalid"
                     then
                       (st, Settled (Returns
                          (callFailedResponse specialization
                             specializedChannelName agent_id phoneNumber
                             callResult)))
                     else
                       (* Start automatic polling *)
                       let st' :=
                         match agent_id with
                         | Some id =>
                             if truthy id
                             then startAgentPolling appId userId channel id
                                    specialization st
                             else st
                         | None => st
                         end in
                       (st', Settled (Returns
                          (successResponse specialization phoneNumber)))
                 end))
          end
    end)
  end end end.


(* ===================================================================== *)
(** ** The three dispatch wrappers *)
(* ===================================================================== *)

(** What a call of a dispatch wrapper leaves behind: the string it
    returns, the stores, and the background promise it started, if any. *)
Record Dispatch := mkDispatch {
  d_result : string;
  d_stores : Stores;
  d_background : option (Task unit)
}.

Definition alreadyActiveMessage : string :=
  "Error: A specialized agent is already active for this conversation. Please wait for the current call to complete before starting a new one.".

(** [activeSpecializedAgents.get(channel)] as a condition. *)
Definition guardHeld (channel : string) (st : Stores) : bool :=
  match activeSpecializedAgents st !! channel with
  | Some b => b
  | None => false
  end.

(** [activeSpecializedAgents.set(channel, true)]. *)
Definition acquireGuard (channel : string) (st : Stores) : Stores :=
  set_activeSpecializedAgents (insert channel true) st.

(** [activeSpecializedAgents.delete(channel)]. *)
Definition releaseGuard (channel : string) (st : Stores) : Stores :=
  set_activeSpecializedAgents (delete channel) st.

(** The names of the fields that are falsy, in the order they are
    tested. *)
Fixpoint missingFields (fields : list (bool * string)) : list string :=
  match fields with
  | [] => []
  | (present, name) :: rest =>
      if present then missingFields rest else name :: missingFields rest
  end.

Definition missingFieldsMessage (missing : list string) : string :=
  "Error: Missing required field(s): " +:+ join ", " missing
  +:+ ". Please confirm all details with the user before proceeding.".

(** The customer-name test shared by the order and the reservation
    wrappers. *)
Definition implausibleCustomerName (customer_name : string) : bool :=
  includes (toLowerCase customer_name) "customer"
  || includes (toLowerCase customer_name) "user"
  || (jsLength customer_name <? 2)%nat.

Definition invalidCustomerNameMessage (customer_name : string) : string :=
  "Error: Invalid customer name " +:+ dq +:+ customer_name +:+ dq +:+
  ". Please ask the user for their real full name before proceeding. Names like "
  +:+ dq +:+ "Customer" +:+ dq +:+ ", " +:+ dq +:+ "User" +:+ dq +:+ ", "
  +:+ dq +:+ "Indian Scissor" +:+ dq +:+ " are not acceptable.".

(** Ten or eleven digits; a text of digits has one byte for each code
    unit. *)
Definition digits10or11 (s : string) : bool :=
  all_chars isDigit s
  && (10 <=? String.length s)%nat && (String.length s <=? 11)%nat.

(** [s.match(/^\+?1?[0-9]{10,11}$/)] as a condition: an optional [+], an
    optional [1], then ten or eleven digits up to the end. *)
Definition matchesPhonePattern (s : string) : bool :=
  let afterPlus :=
    match s with
    | String c r => if Ascii.eqb c "+" then r else s
    | EmptyString => s
    end in
  digits10or11 afterPlus
  || match afterPlus with
     | String c r => Ascii.eqb c "1" && digits10or11 r
     | EmptyString => false
     end.

(** The background promise of a wrapper:
    [createSpecializedVoiceAgent(...).catch(error => { ...;
    activeSpecializedAgents.delete(channel) })]. *)
Definition backgroundCreation (env : Env)
    (appId userId channel specialization phoneNumber : string) : Task unit :=
  onRejected
    (createSpecializedVoiceAgent env appId userId channel specialization
       phoneNumber)
    (fun _error st =>
       (* Clear the flag if agent creation failed *)
       releaseGuard channel st).

(** Arguments of [call_and_ask_question_agent]; an absent field is the
    empty string (both are falsy). *)
Record InquiryArgs := mkInquiryArgs {
  iq_phone_number : string;
  iq_restaurant_name : string;
  iq_question : string
}.

(** [callAndAskQuestionAgent(appId, userId, channel, args)]. *)
Definition callAndAskQuestionAgent (env : Env) (appId userId channel : string)
    (args : InquiryArgs) (st : Stores) : Dispatch :=
  (* Argument validation *)
  if negb (truthy (iq_phone_number args))
     || negb (truthy (iq_restaurant_name args))
     || negb (truthy (iq_question args))
  then
    mkDispatch
      (missingFieldsMessage
         (missingFields
            [(truthy (iq_phone_number args), "phone_number");
             (truthy (iq_restaurant_name args), "restaurant_name");
             (truthy (iq_question args), "question")]))
      st None
  (* Check if there's already an active specialized agent call for this
     channel *)
  else if guardHeld channel st then mkDispatch alreadyActiveMessage st None
  else
    (* Set the active specialized agent flag before creating the agent *)
    let st1 := acquireGuard channel st in
    (* Start agent creation in background and return immediately *)
    mkDispatch
      ("✅ inquiry agent dispatched and calling " +:+ iq_restaurant_name args
       +:+ " (" +:+ iq_phone_number args +:+ ")!

The agent is now contacting the restaurant to ask: " +:+ dq
       +:+ iq_question args +:+ dq
       +:+ ". Use get_latest_agent_status to check progress.")
      st1
      (Some (backgroundCreation env appId userId channel "restaurant-inquiry"
               (iq_phone_number args))).

(** Arguments of [place_phone_order_agent]. *)
Record OrderArgs := mkOrderArgs {
  or_phone_number : string;
  or_restaurant_name : string;
  or_customer_name : string;
  or_food_items : string;
  or_delivery_type : string;
  or_delivery_address : string
}.

(** The phone number an order is placed with: the given one or, when it
    is ["auto"] or does not look like a phone number, the one
    [findPhoneNumber] has for the restaurant; [None] when there is none. *)
Definition resolveOrderPhone (index : gmap string (JsMap.t Restaurant))
    (userId : string) (args : OrderArgs) : option string :=
  if String.eqb (or_phone_number args) "auto"
     || negb (matchesPhonePattern (or_phone_number args))
  then
    match findPhoneNumber index userId (or_restaurant_name args) with
    | Some foundPhone => if truthy foundPhone then Some foundPhone else None
    | None => None
    end
  else Some (or_phone_number args).

(** [placePhoneOrderAgent(appId, userId, channel, args)]. *)
Definition placePhoneOrderAgent (env : Env) (appId userId channel : string)
    (args : OrderArgs) (st : Stores) : Dispatch :=
  (* Argument validation *)
  if negb (truthy (or_phone_number args))
     || negb (truthy (or_restaurant_name args))
     || negb (truthy (or_customer_name args))
     || negb (truthy (or_food_items args))
     || negb (truthy (or_delivery_type args))
     || negb (truthy (or_delivery_address args))
  then
    mkDispatch
      (missingFieldsMessage
         (missingFields
            [(truthy (or_phone_number args), "phone_number");
             (truthy (or_restaurant_name args), "restaurant_name");
             (truthy (or_customer_name args), "customer_name");
             (truthy (or_food_items args), "food_items");
             (truthy (or_delivery_type args), "delivery_type");
             (truthy (or_delivery_address args), "delivery_address")]))
      st None
  (* Critical data integrity checks *)
  else if implausibleCustomerName (or_customer_name args) then
    mkDispatch (invalidCustomerNameMessage (or_customer_name args)) st None
  else
    (* Phone number handling - auto-find if "auto" or invalid format *)
    match resolveOrderPhone (restaurantIndex st) userId args with
    | None =>
        mkDispatch
          ("Error: Could not find phone number for " +:+ dq
           +:+ or_restaurant_name args +:+ dq
           +:+ " in recent searches. Please search for the restaurant first to get the correct phone number.")
          st None
    | Some phoneNumber =>
        (* Check if there's already an active specialized agent call for
           this channel *)
        if guardHeld channel st then mkDispatch alreadyActiveMessage st None
        else
          let isDelivery :=
            String.eqb (toLowerCase (or_delivery_type args)) "delivery" in
          let orderType := if isDelivery then "delivery" else "takeout" in
          (* Set the active specialized agent flag before creating the
             agent *)
          let st1 := acquireGuard channel st in
          (* Start agent creation in background and return immediately *)
          mkDispatch
            ("✅ phone-ordering agent dispatched and calling "
             +:+ or_restaurant_name args +:+ " (" +:+ phoneNumber +:+ ")!

The agent is now contacting the restaurant to place your " +:+ orderType
             +:+ " order. Use get_latest_agent_status to check progress.")
            st1
            (Some (backgroundCreation env appId userId channel
                     "phone-ordering" phoneNumber))
    end.

(** Arguments of [make_reservation_agent]; [rs_party_size] is an integral
    number, [0] being the falsy one. *)
Record ReservationArgs := mkReservationArgs {
  rs_phone_number : string;
  rs_restaurant_name : string;
  rs_customer_name : string;
  rs_party_size : Z;
  rs_time_preferences : string
}.

(** [makeReservationAgent(appId, userId, channel, args)]. *)
Definition makeReservationAgent (env : Env) (appId userId channel : string)
    (args : ReservationArgs) (st : Stores) : Dispatch :=
  (* Argument validation *)
  if negb (truthy (rs_phone_number args))
     || negb (truthy (rs_restaurant_name args))
     || negb (truthy (rs_customer_name args))
     || (rs_party_size args =? 0)
     || negb (truthy (rs_time_preferences args))
  then
    mkDispatch
      (missingFieldsMessage
         (missingFields
            [(truthy (rs_phone_number args), "phone_number");
             (truthy (rs_restaurant_name args), "restaurant_name");
             (truthy (rs_customer_name args), "customer_name");
             (negb (rs_party_size args =? 0), "party_size");
             (truthy (rs_time_preferences args), "time_preferences")]))
      st None
  (* Critical data integrity checks *)
  else if implausibleCustomerName (rs_customer_name args) then
    mkDispatch (invalidCustomerNameMessage (rs_customer_name args)) st None
  (* Phone number format validation (basic check) *)
  else if negb (matchesPhonePattern (rs_phone_number args)) then
    mkDispatch
      ("Error: Invalid phone number format " +:+ dq +:+ rs_phone_number args
       +:+ dq
       +:+ ". Please use the exact phone number from YELP search results. Never make up phone numbers.")
      st None
  (* Check if there's already an active specialized agent call for this
     channel *)
  else if guardHeld channel st then mkDispatch alreadyActiveMessage st None
  else
    (* Set the active specialized agent flag before creating the agent *)
    let st1 := acquireGuard channel st in
    (* Start agent creation in background and return immediately *)
    mkDispatch
      ("✅ reservation agent dispatched and calling "
       +:+ rs_restaurant_name args +:+ " (" +:+ rs_phone_number args +:+ ")!

The agent is now contacting the restaurant to make your reservation for "
       +:+ ofZ (rs_party_size args)
       +:+ " people. Use get_latest_agent_status to check progress.")
      st1
      (Some (backgroundCreation env appId userId channel
               "reservation-booking" (rs_phone_number args))).


(* ===================================================================== *)
(** ** [src/services/cerebrasService.ts]: the tool-call loop *)
(* ===================================================================== *)

Inductive Role := system | user | assistant | tool.

Definition Role_eqb (a b : Role) : bool :=
  match a, b with
  | system, system | user, user | assistant, assistant | tool, tool => true
  | _, _ => false
  end.

(** The [content] of a message: absent ([null] or [undefined]), a string,
    or an array of content parts. *)
Inductive Content :=
| NoContent
| Text (s : string)
| Parts.

(** One element of [tool_calls]: its [id] and its [function]. *)
Record ToolCall := mkToolCall {
  tc_id : string;
  tc_name : string;
  tc_arguments : string
}.

Record ChatMessage := mkMessage {
  role : Role;
  content : Content;
  tool_call_id : option string;
  tool_calls : list ToolCall
}.

(** [choices[i].message] of a completion. *)
Record ResponseMessage := mkResponseMessage {
  rm_content : Content;
  rm_tool_calls : option (list ToolCall)
}.

(** A completion: [cc_choices] is [None] when [response.choices] is not an
    array, and a choice is [None] when it has no [message]. *)
Record ChatCompletion := mkCompletion {
  cc_id : string;
  cc_choices : option (list (option ResponseMessage))
}.

Inductive ResponseType := affirmation | data.

Definition lookupTable (table : list (string * ResponseType)) (name : string)
    : option ResponseType :=
  JsMap.get table name.

(** [toolResponseTypes] of [src/libs/toolDefinitions.ts]. *)
Definition toolResponseTypes : list (string * ResponseType) :=
  [ ("order_sandwich", affirmation);
    ("send_photo", affirmation);
    ("call_phone", affirmation);
    ("call_hermes_phone", affirmation);
    ("call_sid_phone", affirmation);
    ("search_restaurants_by_category", data);
    ("search_restaurants_by_city", data);
    ("get_top_rated_restaurants", data);
    ("get_restaurant_details", data) ].

(** [extendedToolResponseTypes] of [src/libs/versionedTools.ts]. *)
Definition extendedToolResponseTypes : list (string * ResponseType) :=
  toolResponseTypes ++
  [ ("search_pinecone_restaurants", data);
    ("search_pinecone_by_category", data);
    ("search_pinecone_by_mood", data);
    ("search_yelp_restaurants", data);
    ("get_yelp_restaurant_details", data);
    ("get_yelp_restaurant_reviews", data);
    ("search_yelp_advanced", data);
    ("search_yelp_by_phone", data);
    ("search_yelp_by_name", data);
    ("match_yelp_business", data);
    ("call_and_ask_question_agent", affirmation);
    ("place_phone_order_agent", affirmation);
    ("make_reservation_agent", affirmation);
    ("get_specialized_agent_status", data);
    ("get_latest_agent_status", data);
    ("get_latest_agent_updates", data);
    ("get_polling_status", data);
    ("stop_agent_polling", affirmation);
    ("get_indexed_restaurants", data) ].

(** [extendedToolResponseTypes[name] || toolResponseTypes[name]], as far
    as it is compared with ['affirmation'] and ['data']. *)
Definition responseTypeOf (name : string) : option ResponseType :=
  match lookupTable extendedToolResponseTypes name with
  | Some t => Some t
  | None => lookupTable toolResponseTypes name
  end.

(** [fullMessages.slice(-15)]. *)
Definition lastFifteen {A} (l : list A) : list A := drop (length l - 15)%nat l.

Definition isPhoneCallFunction (name : string) : bool :=
  String.eqb name "call_hermes_phone"
  || String.eqb name "call_phone"
  || String.eqb name "call_sid_phone".

(** The callback of [hasRecentCall]. *)
Definition mentionsRecentCall (msg : ChatMessage) : bool :=
  match role msg, content msg with
  | assistant, Text c =>
      truthy c &&
      (includes c "Phone call initiated"
       || includes c "call initiated"
       || includes c "Calling"
       || includes c "I'll call"
       || includes c "Making a call")
  | tool, Text c =>
      truthy c &&
      (includes c "Phone call initiated successfully"
       || includes c "call initiated"
       || includes c "Call ID:")
  | _, _ => false
  end.

(** The callback of [someoneJoined]. *)
Definition soundsLikeSomeoneJoined (msg : ChatMessage) : bool :=
  match role msg, content msg with
  | user, Text c =>
      truthy c &&
      (let content := toLowerCase c in
       includes content "hello"
       || includes content "hi "
       || includes content "hey"
       || includes content "good morning"
       || includes content "good afternoon"
       || includes content "good evening"
       || includes content "who is this"
       || includes content "who's calling")
  | _, _ => false
  end.

Definition toolMessage (text id : string) : ChatMessage :=
  mkMessage tool (Text text) (Some id) [].

Definition someoneJoinedNotice : string :=
  "A call is already active and someone has joined the conversation. Continue talking with them instead of making another call.".

Definition recentCallNotice : string :=
  "A call was already initiated recently. The call should be connecting or active.".

(** The filter of the final request: keep only system, user and tool
    messages. *)
Definition keptForFinalRequest (msg : ChatMessage) : bool :=
  Role_eqb (role msg) system || Role_eqb (role msg) user
  || Role_eqb (role msg) tool.

Section Dispatcher.

(** What the handlers act on, the parsed arguments they receive, and the
    request fields the loop passes on untouched: the sampling parameters
    ([max_completion_tokens], [temperature], [top_p]) and the remaining
    options of the first request ([tools], [parallel_tool_calls]). *)
Variables (World JsonValue Params Extras : Type).

(** [JSON.parse]. *)
Variable JSON_parse : string -> Outcome JsonValue.

(** A [FunctionHandler]. *)
Definition FunctionHandler : Type :=
  string -> string -> string -> JsonValue -> World -> Outcome string * World.

(** [getVersionedFunctionMap(version)]: [None] when the name is not [in]
    the map. *)
Variable versionedFunctions : string -> option FunctionHandler.

Record CompletionRequest := mkRequest {
  rq_model : string;
  rq_messages : list ChatMessage;
  rq_params : Params;
  rq_extras : option Extras
}.

(** [getCerebrasClient().chat.completions.create]. *)
Variable create : CompletionRequest -> World -> Outcome ChatCompletion * World.

Record RequestOptions := mkOptions {
  ro_model : string;
  ro_messages : list ChatMessage;
  ro_params : Params;
  ro_extras : Extras
}.

Record RequestContext := mkRequestContext {
  ctx_userId : string;
  ctx_channel : string;
  ctx_appId : string
}.

(** The variables of the loop, with one observation log that the source
    does not keep: [invoked], the handler invocations in the order they
    are made. *)
Record LoopState := mkLoop {
  fullMessages : list ChatMessage;
  hasDataTools : bool;
  executedFunctions : gset string;
  world : World;
  invoked : list (string * JsonValue)
}.

(** How one iteration ends: normally, or by a [throw] that leaves the
    loop. *)
Inductive LoopResult :=
| Continue (s : LoopState)
| Abort (s : LoopState) (e : Thrown).

(** The body of [for (const toolCall of choice.tool_calls)]. *)
Definition processToolCall (context : RequestContext) (toolCall : ToolCall)
    (s : LoopState) : LoopResult :=
  let name := tc_name toolCall in
  (* Skip if this function has already been executed in this request *)
  if bool_decide (name ∈ executedFunctions s) then Continue s
  else
    match versionedFunctions name with
    | None => Continue s
    | Some handler =>
        let recentMessages := lastFifteen (fullMessages s) in
        let hasRecentCall := existsb mentionsRecentCall recentMessages in
        let someoneJoined := existsb soundsLikeSomeoneJoined recentMessages in
        if isPhoneCallFunction name && (hasRecentCall || someoneJoined) then
          Continue
            (mkLoop
               (fullMessages s ++
                  [toolMessage
                     (if someoneJoined then someoneJoinedNotice
                      else recentCallNotice)
                     (tc_id toolCall)])
               true (* Force re-prompting *)
               (executedFunctions s) (world s) (invoked s))
        else
          (* Mark function as executed *)
          let executed := executedFunctions s ∪ {[ name ]} in
          (* Parse arguments and execute function *)
          match JSON_parse (tc_arguments toolCall) with
          | Throws e =>
              Abort
                (mkLoop (fullMessages s) (hasDataTools s) executed (world s)
                   (invoked s)) e
          | Returns functionArgs =>
              let calls := invoked s ++ [(name, functionArgs)] in
              match handler (ctx_appId context) (ctx_userId context)
                      (ctx_channel context) functionArgs (world s) with
              | (Throws e, w) =>
                  Abort
                    (mkLoop (fullMessages s) (hasDataTools s) executed w calls)
                    e
              | (Returns result, w) =>
                  match responseTypeOf name with
                  | Some affirmation =>
                      Continue
                        (mkLoop
                           (fullMessages s ++
                              [toolMessage result (tc_id toolCall)])
                           true executed w calls)
                  | Some data =>
                      Continue
                        (mkLoop
                           (fullMessages s ++
                              [toolMessage result (tc_id toolCall)])
                           true executed w calls)
                  | None =>
                      Continue
                        (mkLoop (fullMessages s) (hasDataTools s) executed w
                           calls)
                  end
              end
          end
    end.

(** The whole [for ... of] loop. *)
Fixpoint processToolCalls (context : RequestContext)
    (toolCalls : list ToolCall) (s : LoopState) : LoopResult :=
  match toolCalls with
  | [] => Continue s
  | toolCall :: rest =>
      match processToolCall context toolCall s with
      | Continue s' => processToolCalls context rest s'
      | Abort s' e => Abort s' e
      end
  end.

(** What a run of [processNonStreamingRequest] leaves behind: how it
    ends, the world, and what was observed on the way, the completion
    requests issued and the handler invocations, both in order. *)
Record Run := mkRun {
  run_outcome : Outcome ChatCompletion;
  run_world : World;
  run_requests : list CompletionRequest;
  run_invoked : list (string * JsonValue);
  run_messages : list ChatMessage
}.

(** The [catch (error)] of [processNonStreamingRequest]. *)
Definition cerebrasFailure : Thrown :=
  ErrorObject "Error" "Failed to process chat completion with Cerebras".

(** [choices[0]?.message] after the [Array.isArray] guard. *)
Definition firstChoiceMessage (response : ChatCompletion)
    : option ResponseMessage :=
  match default [] (cc_choices response) with
  | Some message :: _ => Some message
  | _ => None
  end.

(** [processNonStreamingRequest(requestOptions, fullMessages, context,
    version)]. *)
Definition processNonStreamingRequest (requestOptions : RequestOptions)
    (messages : list ChatMessage) (context : RequestContext) (w : World)
    : Run :=
  let firstRequest :=
    mkRequest (ro_model requestOptions) (ro_messages requestOptions)
      (ro_params requestOptions) (Some (ro_extras requestOptions)) in
  (* Make request to Cerebras *)
  match create firstRequest w with
  | (Throws _, w1) =>
      mkRun (Throws cerebrasFailure) w1 [firstRequest] [] messages
  | (Returns response, w1) =>
      let original := mkRun (Returns response) w1 [firstRequest] [] messages in
      match firstChoiceMessage response with
      | None => original
      | Some choice =>
          match rm_tool_calls choice with
          | None | Some [] => original
          | Some toolCalls =>
              (* Add the assistant's response with tool calls to messages *)
              let assistantMessage :=
                mkMessage assistant (rm_content choice) None toolCalls in
              let start :=
                mkLoop (messages ++ [assistantMessage]) false ∅ w1 [] in
              (* Process each tool call *)
              match processToolCalls context toolCalls start with
              | Abort s _ =>
                  mkRun (Throws cerebrasFailure) (world s) [firstRequest]
                    (invoked s) (fullMessages s)
              | Continue s =>
                  (* Only proceed with re-prompting if we actually have
                     tools to process *)
                  if hasDataTools s then
                    (* Keep only: system message, user messages, and tool
                       messages *)
                    let finalMessages :=
                      if negb (String.eqb (ro_model requestOptions)
                                 "qwen-3-32b")
                      then List.filter keptForFinalRequest (fullMessages s)
                      else fullMessages s in
                    (* Get final response from model with tool results *)
                    let finalRequest :=
                      mkRequest (ro_model requestOptions) finalMessages
                        (ro_params requestOptions) None in
                    match create finalRequest (world s) with
                    | (Throws _, w2) =>
                        mkRun (Throws cerebrasFailure) w2
                          [firstRequest; finalRequest] (invoked s)
                          finalMessages
                    | (Returns finalResponse, w2) =>
                        mkRun (Returns finalResponse) w2
                          [firstRequest; finalRequest] (invoked s)
                          finalMessages
                    end
                  else
                    mkRun (Returns response) (world s) [firstRequest]
                      (invoked s) (fullMessages s)
              end
          end
      end
  end.

End Dispatcher.

Arguments mkRequest {Params Extras}.
Arguments rq_model {Params Extras}.
Arguments rq_messages {Params Extras}.
Arguments rq_params {Params Extras}.
Arguments rq_extras {Params Extras}.
Arguments mkOptions {Params Extras}.
Arguments ro_model {Params Extras}.
Arguments ro_messages {Params Extras}.
Arguments ro_params {Params Extras}.
Arguments ro_extras {Params Extras}.
Arguments mkLoop {World JsonValue}.
Arguments fullMessages {World JsonValue}.
Arguments hasDataTools {World JsonValue}.
Arguments executedFunctions {World JsonValue}.
Arguments world {World JsonValue}.
Arguments invoked {World JsonValue}.
Arguments Continue {World JsonValue}.
Arguments Abort {World JsonValue}.
Arguments processToolCall {World JsonValue}.
Arguments processToolCalls {World JsonValue}.
Arguments mkRun {World JsonValue Params Extras}.
Arguments run_outcome {World JsonValue Params Extras}.
Arguments run_world {World JsonValue Params Extras}.
Arguments run_requests {World JsonValue Params Extras}.
Arguments run_invoked {World JsonValue Params Extras}.
Arguments run_messages {World JsonValue Params Extras}.
Arguments processNonStreamingRequest {World JsonValue Params Extras}.


(* ===================================================================== *)
(** ** Status tracking *)
(* ===================================================================== *)

(** [s.substring(n)]: [s] without its first [n] characters. *)
Fixpoint dropChars (n : nat) (s : string) : string :=
  match n, s with
  | O, _ => s
  | S n', String _ s' => dropChars n' s'
  | S _, EmptyString => EmptyString
  end.

(** [s.replace(pattern, replacement)] for a string pattern and a
    replacement without [$]: the first occurrence is replaced. *)
Fixpoint replaceFirst (s pattern replacement : string) : string :=
  if startsWith s pattern
  then replacement +:+ dropChars (String.length pattern) s
  else
    match s with
    | EmptyString => EmptyString
    | String c s' => String c (replaceFirst s' pattern replacement)
    end.

(** [Math.abs(a - b)] on lengths. *)
Definition absDiff (a b : nat) : nat := ((a - b) + (b - a))%nat.

(** The [significantPhrases] of [isSignificantUpdate]. *)
Definition significantPhrases : list string :=
  [ "restaurant:"; "agent:"; "order confirmed"; "reservation confirmed";
    "total is"; "$"; "pickup time"; "delivery time"; "ready in"; "minutes";
    "hours"; "closed"; "unavailable"; "error"; "problem"; "thank you";
    "thanks"; "goodbye"; "good bye"; "have a great day";
    "have a wonderful day"; "appreciate it"; "perfect"; "sounds good";
    "all set" ].

(** [isSignificantUpdate(newStatus, oldStatus)]; the completion
    indicators it computes are only logged. *)
Definition isSignificantUpdate (newStatus oldStatus : string) : bool :=
  if String.eqb oldStatus "STARTING" then true
  else
    let newLower := toLowerCase newStatus in
    let oldLower := toLowerCase oldStatus in
    (* If new status contains phrases that old status didn't, it's
       significant *)
    existsb
      (fun phrase => includes newLower phrase && negb (includes oldLower phrase))
      significantPhrases
    || (100 <? absDiff (jsLength newStatus) (jsLength oldStatus))%nat.

(** [context.updates[context.updates.length - 1]]. *)
Definition lastUpdate (updates : list ContextUpdate) : option ContextUpdate :=
  last updates.

(** [getConversationContext(channel)]; [None] is [null]. *)
Definition getConversationContext (channel : string) (st : Stores)
    : option string :=
  match conversationContext st !! channel with
  | None => None
  | Some context =>
      match lastUpdate (cx_updates context) with
      | None => None
      | Some latestUpdate =>
          (* Format the context for the LLM *)
          match cu_type latestUpdate with
          | COMPLETED =>
              Some ("🎯 **AGENT TASK COMPLETED**

Your " +:+ cx_type context +:+ " agent (" +:+ cx_agentId context +:+ ") successfully completed the task.

Final Status:
" +:+ cx_latestStatus context +:+ "

✅ Monitoring has been automatically stopped.

**IMPORTANT:** Only provide price and time information that is explicitly confirmed in the conversation above. Do NOT guess or estimate prices.")
          | FAILED =>
              Some ("❌ **AGENT TASK FAILED**

Your " +:+ cx_type context +:+ " agent (" +:+ cx_agentId context +:+ ") encountered an issue and could not complete the task.

Status:
" +:+ cx_latestStatus context +:+ "

🛑 Monitoring has been automatically stopped.

**SUGGESTION:** You may want to try calling the restaurant directly.")
          | UPDATE =>
              Some ("📱 **AGENT UPDATE**

Your " +:+ cx_type context +:+ " agent (" +:+ cx_agentId context +:+ ") is in progress.

Latest Status:
" +:+ cx_latestStatus context +:+ "

**IMPORTANT:** Only report confirmed details. Do NOT make up or estimate prices or times.")
          end
      end
  end.

(** The body of the history reply: [status], [contents] (role and content
    of each message) and [start_ts]. *)
Record HistoryData := mkHistoryData {
  hd_status : option string;
  hd_contents : option (list (string * string));
  hd_start_ts : option Z
}.

(** The reply to the history request. *)
Record HistoryResponse := mkHistoryResponse {
  hist_ok : bool;
  hist_status : Z;
  hist_statusText : string;
  hist_text : Outcome string;
  hist_json : Outcome HistoryData
}.

(** What [getSpecializedAgentStatus] observes outside the stores: the
    Agora configuration, the reply to a [GET] of a URL, and the rendering
    of a start time ([new Date(ts * 1000).toLocaleTimeString()]). *)
Record StatusEnv := mkStatusEnv {
  se_baseUrl : string;
  se_appId : string;
  fetchHistory : string -> Outcome HistoryResponse;
  toLocaleTimeString : Z -> string
}.

(** [historyBaseUrl] as it is once the path has been checked. *)
Definition historyBaseUrl (baseUrl : string) : string :=
  (* Construct history API URL - ensure we don't duplicate the path *)
  if negb (includes baseUrl "/api/conversational-ai-agent/")
  then replaceFirst baseUrl "/v2/projects"
         "/api/conversational-ai-agent/v2/projects"
  else baseUrl.

(** The URL the history is fetched from. *)
Definition historyUrl (env : StatusEnv) (agentId : string) : string :=
  historyBaseUrl (se_baseUrl env) +:+ "/" +:+ se_appId env +:+ "/agents/"
  +:+ agentId +:+ "/history".

(** One line of the conversation: [`${role}: ${message.content}`]. *)
Definition conversationLine (message : string * string) : string :=
  (if String.eqb message.1 "assistant" then "Agent" else "Restaurant")
  +:+ ": " +:+ message.2.

(** The [catch (error)] of [getSpecializedAgentStatus]. *)
Definition statusErrorMessage (agentId : string) (error : Thrown) : string :=
  match error with
  | ErrorObject name message =>
      if String.eqb name "AbortError" then
        "Error: Request timed out while checking agent " +:+ agentId
        +:+ " status. Please try again."
      else "Error checking agent " +:+ agentId +:+ " status: " +:+ message
  | ThrownValue =>
      "Error checking agent " +:+ agentId +:+ " status: Unknown error"
  end.

(** [getSpecializedAgentStatus(appId, userId, channel, args)], [agent_id]
    being [args.agent_id]. *)
Definition getSpecializedAgentStatus (env : StatusEnv)
    (appId userId channel : string) (agent_id : option string) (st : Stores)
    : string :=
  (* If no agent_id provided, get the latest agent for this user *)
  let resolved : option string :=
    if truthyOpt agent_id then agent_id
    else
      match getLatestAgent userId st with
      | Some latestAgent => Some (ai_agentId latestAgent)
      | None => None
      end in
  match resolved with
  | None =>
      "No active agent found. Please create a specialized agent first (order, reservation, or inquiry)."
  | Some agentId =>
      if negb (truthy (se_baseUrl env)) then
        "Error: Agora Conversational AI service not configured. Please set AGORA_CONVO_AI_BASE_URL environment variable."
      else
        match fetchHistory env (historyUrl env agentId) with
        | Throws error => statusErrorMessage agentId error
        | Returns response =>
            if negb (hist_ok response) then
              if hist_status response =? 404 then
                "Agent " +:+ agentId
                +:+ " not found. The agent may have completed its task or the ID might be incorrect."
              else
                match hist_text response with
                | Throws error => statusErrorMessage agentId error
                | Returns _ =>
                    "Error retrieving agent status: "
                    +:+ ofZ (hist_status response) +:+ " "
                    +:+ hist_statusText response
                end
            else
              match hist_json response with
              | Throws error => statusErrorMessage agentId error
              | Returns historyData =>
                  (* Format the conversation history for the LLM *)
                  match hd_contents historyData with
                  | None | Some [] =>
                      "Agent " +:+ agentId +:+ " status: "
                      +:+ orElse (hd_status historyData) "UNKNOWN" +:+ "

No conversation history available yet. The agent may still be connecting to the call or waiting for someone to answer."
                  | Some contents =>
                      (* Extract meaningful conversation updates *)
                      let conversation :=
                        join "
" (map conversationLine contents) in
                      let summary :=
                        "The conversation is "
                        +:+ (if match hd_status historyData with
                                | Some status => String.eqb status "RUNNING"
                                | None => false
                                end
                             then "active" else "completed")
                        +:+ " with " +:+ ofZ (Z.of_nat (length contents))
                        +:+ " messages exchanged." in
                      "Agent " +:+ agentId +:+ " Status Update:

" +:+ summary +:+ "

Recent Conversation:
" +:+ conversation +:+ "

Status: " +:+ orElse (hd_status historyData) "RUNNING" +:+ "
Started: "
                      +:+ match hd_start_ts historyData with
                          | Some ts =>
                              if ts =? 0 then "Unknown"
                              else toLocaleTimeString env (ts * 1000)
                          | None => "Unknown"
                          end
                  end
              end
        end
  end.

(** [getLatestAgentStatus(appId, userId, channel)]. *)
Definition getLatestAgentStatus (env : StatusEnv)
    (appId userId channel : string) (st : Stores) : string :=
  (* First check if we have conversation context (from polling updates) *)
  match getConversationContext channel st with
  | Some contextInfo =>
      if truthy contextInfo then contextInfo
      else getSpecializedAgentStatus env appId userId channel None st
  | None =>
      (* Fall back to direct API call if no context available *)
      getSpecializedAgentStatus env appId userId channel None st
  end.

(** The sessions [getLatestAgentUpdates] counts: those of the channel. *)
Definition sessionsOfChannel (channel : string)
    (sessions : JsMap.t PollingSession) : list (string * PollingSession) :=
  List.filter (fun entry => String.eqb (ps_channel entry.2) channel)
    (JsMap.entries sessions).

(** [getLatestAgentUpdates(appId, userId, channel)]. *)
Definition getLatestAgentUpdates (appId userId channel : string) (st : Stores)
    : string :=
  (* Check if there are active sessions for this channel *)
  let activeSessions := sessionsOfChannel channel (activePollingSessions st) in
  if (length activeSessions =? 0)%nat then
    "No active agent monitoring sessions found."
  else
    "🔄 Monitoring " +:+ ofZ (Z.of_nat (length activeSessions))
    +:+ " active agent(s). Updates are automatically processed in the background.".

(* ===================================================================== *)
(** ** The restaurant index as a handler shows it *)
(* ===================================================================== *)

(** Where [restaurant] goes in a list sorted by [(a, b) => b.lastSeen -
    a.lastSeen]: before the first element that was not seen later than
    it. *)
Fixpoint insertByRecency (restaurant : Restaurant) (sorted : list Restaurant)
    : list Restaurant :=
  match sorted with
  | [] => [restaurant]
  | other :: rest =>
      if r_lastSeen other <=? r_lastSeen restaurant
      then restaurant :: sorted
      else other :: insertByRecency restaurant rest
  end.

(** [.sort((a, b) => b.lastSeen - a.lastSeen)]: most recently seen first,
    entries seen at the same time in the order they had (the sort is
    stable). *)
Definition sortByRecency (restaurants : list Restaurant) : list Restaurant :=
  foldr insertByRecency [] restaurants.

Definition indexedRestaurantLine (restaurant : Restaurant) : string :=
  "• " +:+ r_name restaurant +:+ " (ID: " +:+ r_id restaurant
  +:+ ") - Phone: " +:+ r_phone restaurant.

Definition noRestaurantsIndexed : string :=
  "No restaurants currently indexed. Perform a search to build the restaurant index.".

(** [getIndexedRestaurants(userId)]. *)
Definition getIndexedRestaurants (userId : string) (st : Stores) : string :=
  match restaurantIndex st !! userId with
  | None => noRestaurantsIndexed
  | Some userIndex =>
      if (JsMap.size userIndex =? 0)%nat then noRestaurantsIndexed
      else
        let restaurants :=
          join "
" (map indexedRestaurantLine
                     (* Sort by most recently seen, limit to 20 most
                        recent *)
                     (take 20 (sortByRecency (JsMap.values userIndex)))) in
        "Currently indexed restaurants ("
        +:+ ofZ (Z.of_nat (JsMap.size userIndex))
        +:+ " total, showing 20 most recent):

" +:+ restaurants +:+ "

💡 These restaurants can be used for orders without additional searches."
  end.

(** The handler registered as [get_indexed_restaurants]:
    [getIndexedRestaurants as FunctionHandler], which the dispatcher calls
    as [handler(appId, userId, channel, functionArgs)]; the one parameter
    of [getIndexedRestaurants] receives the first argument. *)
Definition get_indexed_restaurants (appId userId channel : string)
    (st : Stores) : string :=
  getIndexedRestaurants appId st.

(* ===================================================================== *)
(** ** The tools of a version and its function map *)
(* ===================================================================== *)









(* ===================================================================== *)
(** ** [src/libs/tools.ts]: placing a call *)
(* ===================================================================== *)

(** White space of ASCII: tab, line feed, vertical tab, form feed,
    carriage return and space. *)
Definition isWhitespace (c : ascii) : bool :=
  ((9 <=? code c)%nat && (code c <=? 13)%nat) || (code c =? 32)%nat.

(** [!s || s.trim() === ''] for a configuration value in ASCII. *)
Definition isBlank (s : string) : bool := all_chars isWhitespace s.

(** The fields of [config.agora] that [callPhone] reads. *)
Record PstnConfig := mkPstnConfig {
  pstnApiUrl : string;
  pstnAuthHeader : string;
  pstnFromNumber : string;
  pstnUid : string;
  pstnRegion : string;
  sipGateway : string
}.

(** The request [callPhone] posts: the URL, the [Authorization] header and
    the fields of [data] that vary ([action], [prompt] and [timeout] are
    constants). *)
Record PstnRequest := mkPstnRequest {
  pr_url : string;
  pr_authorization : string;
  pr_appid : string;
  pr_token : string;
  pr_uid : string;
  pr_channel : string;
  pr_to : string;
  pr_from : string;
  pr_region : string;
  pr_sip : string
}.

(** How [axios.post] ends: with a response, whose [data] has [success],
    [callid] (as a template literal renders it) and [reason]; with an
    error that carries a response ([status] and [JSON.stringify(data)]);
    or with any other error. *)
Inductive PstnReply :=
| PstnAnswered (success : bool) (callid : string) (reason : option string)
| PstnRefused (status : Z) (body : string)
| PstnFailed (error : Thrown).

(** What the three call functions observe outside the process.
    [generateTokenForPSTN] catches its own errors and returns a string. *)
Record PhoneEnv := mkPhoneEnv {
  pstn : PstnConfig;
  generateTokenForPSTN : string -> string -> string -> string;
  axiosPost : PstnRequest -> PstnReply;
  HERMES_PHONE_NUMBER : string;
  SID_PHONE_NUMBER : string
}.

Definition missingAgoraContext (names : string) : Thrown :=
  ErrorObject "Error"
    ("Cannot make phone call: Missing required Agora context (" +:+ names
     +:+ "). This feature requires an active Agora session.").

(** The [data] of the request and where it goes. *)
Definition pstnRequestOf (env : PhoneEnv) (appId userId channel to : string)
    : PstnRequest :=
  let formattedToPhone := formatPhoneNumber to in
  let formattedFromPhone := formatPhoneNumber (pstnFromNumber (pstn env)) in
  (* Use PSTN UID from environment, fallback to userId if available, or
     use 'pstn-caller' as default *)
  let uid :=
    if truthy (pstnUid (pstn env)) then pstnUid (pstn env)
    else if truthy userId then userId else "pstn-caller" in
  (* Generate token for the call *)
  let token := generateTokenForPSTN env appId channel uid in
  mkPstnRequest (pstnApiUrl (pstn env))
    ("Basic " +:+ pstnAuthHeader (pstn env)) appId token uid channel
    formattedToPhone formattedFromPhone
    (if truthy (pstnRegion (pstn env)) then pstnRegion (pstn env)
     else "AREA_CODE_NA")
    (sipGateway (pstn env)).

Module Tools.

(** [callPhone(appId, userId, channel, to)]. *)
Definition callPhone (env : PhoneEnv) (appId userId channel to : string)
    : Outcome string :=
  if isBlank (pstnApiUrl (pstn env)) then
    Throws (ErrorObject "Error" "PSTN API URL not configured")
  else if isBlank (pstnAuthHeader (pstn env)) then
    Throws (ErrorObject "Error" "PSTN authorization header not configured")
  else if isBlank (pstnFromNumber (pstn env)) then
    Throws (ErrorObject "Error" "PSTN from number not configured")
  (* Check if we have required Agora context *)
  else if negb (truthy appId) || negb (truthy channel) then
    Throws (missingAgoraContext "appId or channel")
  else
    let data := pstnRequestOf env appId userId channel to in
    match axiosPost env data with
    | PstnAnswered success callid reason =>
        if success then
          Returns
            ("Phone call initiated successfully to " +:+ pr_to data
             +:+ " from " +:+ pr_from data +:+ ". Call ID: " +:+ callid)
        else
          Returns
            ("Failed to initiate phone call to " +:+ pr_to data
             +:+ ". Reason: " +:+ orElse reason "Unknown error")
    | PstnRefused status body =>
        Throws
          (ErrorObject "Error"
             ("PSTN API error: " +:+ ofZ status +:+ " - " +:+ body))
    | PstnFailed error => Throws error
    end.

(** [callHermesPhone(appId, userId, channel)]. *)
Definition callHermesPhone (env : PhoneEnv) (appId userId channel : string)
    : Outcome string :=
  (* Get Hermes phone number from environment variable *)
  let hermesPhoneNumber := HERMES_PHONE_NUMBER env in
  if negb (truthy hermesPhoneNumber) then
    Throws
      (ErrorObject "Error"
         "Hermes phone number not configured in environment variables")
  else if negb (truthy appId) || negb (truthy channel) then
    Throws (missingAgoraContext "appId, userId, or channel")
  else
    (* Use the existing callPhone function with configured number *)
    callPhone env appId userId channel hermesPhoneNumber.

(** [callSidPhone(appId, userId, channel)]. *)
Definition callSidPhone (env : PhoneEnv) (appId userId channel : string)
    : Outcome string :=
  let sidPhoneNumber := SID_PHONE_NUMBER env in
  if negb (truthy sidPhoneNumber) then
    Throws
      (ErrorObject "Error"
         "Sid phone number not configured in environment variables")
  else if negb (truthy appId) || negb (truthy channel) then
    Throws (missingAgoraContext "appId, userId, or channel")
  else
    callPhone env appId userId channel sidPhoneNumber.

End Tools.

(** The environment of [createSpecializedVoiceAgent] in which the three
    call functions are the ones of [src/libs/tools.ts]. *)
Definition withTelephony (env : Env) (phone : PhoneEnv) : Env :=
  mkEnv (config env) (nowCreate env) (randomSuffix env)
    (buildTokenWithUid env) (fetchJoin env) (nowStoreAgent env)
    (nowGetCallAction env) (Tools.callSidPhone phone) (Tools.callPhone phone)
    (Tools.callHermesPhone phone).

(* ===================================================================== *)
(** ** [src/middleware/auth.ts] *)
(* ===================================================================== *)

(** The two keys and the provider of [config.llm] that [validateRequest]
    reads. *)
Record AuthConfig := mkAuthConfig {
  llm_provider : string;
  llm_cerebrasApiKey : string;
  llm_openaiApiKey : string
}.

(** How [validateRequest] answers: it calls [next()], or it responds with
    a status and the error body. *)
Inductive AuthResult :=
| Next
| Respond (status : Z) (error provider : string).

(** [validateRequest(req, res, next)], [authorization] being
    [req.headers.authorization]. *)
Definition validateRequest (c : AuthConfig) (authorization : option string)
    : AuthResult :=
  let authHeader := orElse authorization "" in
  let token := replaceFirst authHeader "Bearer " "" in
  (* Get the expected API key based on the configured LLM provider *)
  let expectedApiKey :=
    if String.eqb (llm_provider c) "CEREBRAS" then llm_cerebrasApiKey c
    else llm_openaiApiKey c in
  if negb (truthy token) || negb (String.eqb token expectedApiKey) then
    Respond 403 "Invalid or missing token" (llm_provider c)
  else Next.

(* ===================================================================== *)
(** ** Search by name: the answer from the index *)
(* ===================================================================== *)

(** The [args] of [searchYelpByName] that its first part reads. *)
Record NameSearchArgs := mkNameSearchArgs {
  ns_name : string;
  ns_location : string
}.

(** The [for (const restaurant of userIndex.values())] loop of
    [searchYelpByName]: the first entry whose normalised name contains, or
    is contained in, the normalised search name. *)
Fixpoint findIndexedLoop (normalizedSearchName : string)
    (restaurants : list Restaurant) : option Restaurant :=
  match restaurants with
  | [] => None
  | restaurant :: rest =>
      let normalizedResultName := normalizeName (r_name restaurant) in
      if includes normalizedResultName normalizedSearchName
         || includes normalizedSearchName normalizedResultName
      then Some restaurant
      else findIndexedLoop normalizedSearchName rest
  end.

(** The text returned for an entry found in the index. *)
Definition cachedBusinessText (args : NameSearchArgs) (restaurant : Restaurant)
    : string :=
  "Found 1 businesses matching " +:+ dq +:+ ns_name args +:+ dq
  +:+ " (from cache):

" +:+ r_name restaurant +:+ " (ID: " +:+ r_id restaurant +:+ ")
Rating: N/A⭐ (cached result)
Categories: Restaurant
Price Range: $$
Area: " +:+ ns_location args +:+ "
Phone: " +:+ r_phone restaurant +:+ "
Services: pickup, delivery
Status: Open

💡 Use get_yelp_restaurant_details with an ID for more info.".

(** [searchYelpByName(appId, userId, channel, args)].  Its first part
    answers from the index; [online] is the rest of the body, which asks
    the YELP API and stores what it finds.  [restaurantIndex.get(userId)!]
    is [undefined] only on a path that [findPhoneNumber] excludes; reading
    its [values] there would throw a [TypeError]. *)
Definition searchYelpByName
    (online : string -> NameSearchArgs -> Stores -> Outcome string * Stores)
    (appId userId channel : string) (args : NameSearchArgs) (st : Stores)
    : Outcome string * Stores :=
  (* First check if restaurant already exists in our index *)
  match findPhoneNumber (restaurantIndex st) userId (ns_name args) with
  | Some existingPhone =>
      if truthy existingPhone then
        match restaurantIndex st !! userId with
        | Some userIndex =>
            (* Find the full restaurant data from index *)
            match findIndexedLoop (normalizeName (ns_name args))
                    (JsMap.values userIndex) with
            | Some restaurant =>
                (Returns (cachedBusinessText args restaurant), st)
            | None => online userId args st
            end
        | None =>
            (Throws
               (ErrorObject "TypeError"
                  "Cannot read properties of undefined (reading 'values')"),
             st)
        end
      else online userId args st
  | None => online userId args st
  end.

(* ===================================================================== *)
(** ** [src/services/cerebrasService.ts]: multi-turn tool use *)
(* ===================================================================== *)

Section MultiTurn.

Variables (World JsonValue Params Extras : Type).

(** [JSON.parse] and [JSON.stringify] (of a handler's output). *)
Variable JSON_parse : string -> Outcome JsonValue.
Variable JSON_stringify : string -> string.

(** [functionMap] of [src/libs/tools.ts]: [None] when the name is not [in]
    it. *)
Variable availableFunctions : string -> option (FunctionHandler World JsonValue).

Variable create : CompletionRequest Params Extras -> World ->
                  Outcome ChatCompletion * World.

(** The sampling parameters of every request of the loop:
    [max_completion_tokens: 2048], [temperature: 0.2], [top_p: 1]. *)
Variable multiTurnParams : Params.

(** The [options] as the function uses them: [mt_model] is the model once
    the default is applied, [mt_tools] is [tools || cerebrasTools]. *)
Record MultiTurnOptions := mkMultiTurnOptions {
  mt_model : string;
  mt_userId : string;
  mt_channel : string;
  mt_appId : string;
  mt_tools : Extras
}.

Definition unsupportedModel : Thrown :=
  ErrorObject "Error"
    "Multi-turn tool use is only supported with qwen-3-32b model".

Definition unknownTool (fname : string) : Thrown :=
  ErrorObject "Error" ("Unknown tool requested: " +:+ fname).

(** The [while (true)] loop, run for at most [fuel] rounds: [None] when
    the rounds are used up.  [requests] and [calls] are the observation
    logs of [Run]. *)
Fixpoint multiTurnLoop (fuel : nat) (options : MultiTurnOptions)
    (fullMessages : list ChatMessage) (w : World)
    (requests : list (CompletionRequest Params Extras))
    (calls : list (string * JsonValue))
    : option (Run World JsonValue Params Extras) :=
  match fuel with
  | O => None
  | S fuel' =>
      let request :=
        mkRequest (mt_model options) fullMessages multiTurnParams
          (Some (mt_tools options)) in
      let requests' := requests ++ [request] in
      match create request w with
      | (Throws e, w1) => Some (mkRun (Throws e) w1 requests' calls fullMessages)
      | (Returns response, w1) =>
          let done :=
            Some (mkRun (Returns response) w1 requests' calls fullMessages) in
          match firstChoiceMessage response with
          | None => done
          | Some msg =>
              (* If the assistant didn't ask for a tool, we're done *)
              match rm_tool_calls msg with
              | None | Some [] => done
              | Some (call :: others) =>
                  (* Save the assistant turn exactly as returned *)
                  let assistantMessage :=
                    mkMessage assistant (rm_content msg) None
                      (call :: others) in
                  let fullMessages1 := fullMessages ++ [assistantMessage] in
                  (* Run the requested tool *)
                  let fname := tc_name call in
                  match availableFunctions fname with
                  | Some handler =>
                      match JSON_parse (tc_arguments call) with
                      | Throws e =>
                          Some (mkRun (Throws e) w1 requests' calls
                                  fullMessages1)
                      | Returns functionArgs =>
                          let calls' := calls ++ [(fname, functionArgs)] in
                          match handler (mt_appId options) (mt_userId options)
                                  (mt_channel options) functionArgs w1 with
                          | (Throws e, w2) =>
                              Some (mkRun (Throws e) w2 requests' calls'
                                      fullMessages1)
                          | (Returns output, w2) =>
                              (* Feed the tool result back *)
                              multiTurnLoop fuel' options
                                (fullMessages1
                                 ++ [toolMessage (JSON_stringify output)
                                       (tc_id call)])
                                w2 requests' calls'
                          end
                      end
                  | None =>
                      Some (mkRun (Throws (unknownTool fname)) w1 requests'
                              calls fullMessages1)
                  end
              end
          end
      end
  end.

(** [processMultiTurnToolUse(messages, options)], [systemMessage] being
    [createSystemMessage()]. *)
Definition processMultiTurnToolUse (fuel : nat) (systemMessage : ChatMessage)
    (messages : list ChatMessage) (options : MultiTurnOptions) (w : World)
    : option (Run World JsonValue Params Extras) :=
  (* Validate model supports multi-turn tool use *)
  if negb (String.eqb (mt_model options) "qwen-3-32b") then
    Some (mkRun (Throws unsupportedModel) w [] [] messages)
  else
    (* Add system message with RAG data *)
    multiTurnLoop fuel options (systemMessage :: messages) w [] [].

End MultiTurn.

Arguments mkMultiTurnOptions {Extras}.
Arguments mt_model {Extras}.
Arguments mt_userId {Extras}.
Arguments mt_channel {Extras}.
Arguments mt_appId {Extras}.
Arguments mt_tools {Extras}.
Arguments multiTurnLoop {World JsonValue Params Extras}.
Arguments processMultiTurnToolUse {World JsonValue Params Extras}.

(* ===================================================================== *)
(** * Vocabulary of the properties *)
(* ===================================================================== *)

(** ** Names and directories *)

(** [sub] occurs in [s]. *)
Definition occursIn (sub s : string) : Prop :=
  exists pre post, s = pre +:+ sub +:+ post.

(** Every entry of a user's index holds a non-empty phone: what
    [storeYelpResults] maintains, as it only inserts results whose phone is
    truthy. *)
Definition phonesRecorded (userIndex : JsMap.t Restaurant) : bool :=
  forallb (fun r => truthy (r_phone r)) (JsMap.values userIndex).

(** A letter or a digit of ASCII. *)
Definition isAlnum (c : ascii) : bool := isUpper c || isLower c || isDigit c.

(** The two normalised names, one containing the other. *)
Definition nameMatches (query storedName : string) : Prop :=
  occursIn (normalizeName query) (normalizeName storedName)
  \/ occursIn (normalizeName storedName) (normalizeName query).

(** A [Map] holds one entry per key: what [set] and [delete] maintain. *)
Fixpoint uniqueKeys {V} (m : JsMap.t V) : bool :=
  match m with
  | [] => true
  | (k, _) :: m' => negb (JsMap.has m' k) && uniqueKeys m'
  end.

(** ** Polling sessions *)

(** The call finds no polling session: no agent id is given and no session
    is of the channel, or an agent id is given and no session is stored
    under its key. *)
Definition noActiveSession (channel : string) (args : StopArgs) (st : Stores)
    : Prop :=
  (truthyOpt (sa_agent_id args) = false
   /\ forall key session,
        In (key, session) (JsMap.entries (activePollingSessions st)) ->
        ps_channel session <> channel)
  \/ (exists agentId,
        sa_agent_id args = Some agentId /\ truthy agentId = true
        /\ JsMap.get (activePollingSessions st) (sessionKeyOf channel agentId)
           = None).

(** The session a call of [stopAgentPolling] is about: the one stored
    under the key of the given agent id or, when no id is given, the first
    session of the channel in insertion order. *)
Definition locatedSession (channel : string) (args : StopArgs) (st : Stores)
    (key : string) (session : PollingSession) (agentId : string) : Prop :=
  (sa_agent_id args = Some agentId /\ truthy agentId = true
   /\ key = sessionKeyOf channel agentId
   /\ JsMap.get (activePollingSessions st) key = Some session)
  \/ (truthyOpt (sa_agent_id args) = false
      /\ (exists before after,
            JsMap.entries (activePollingSessions st)
            = before ++ (key, session) :: after
            /\ forall k s, In (k, s) before -> ps_channel s <> channel)
      /\ ps_channel session = channel
      /\ agentId = ps_agentId session /\ truthy agentId = true).

(** A channel with a registered polling session, a held guard and a pushed
    status update, all made by the source's own functions. *)
Definition monitoredChannel : Stores :=
  injectStatusIntoConversation 5 "app" "u1" "c1" "agent-1" "phone-ordering"
    "Restaurant: hello" UPDATE
    (startAgentPolling "app" "u1" "c1" "agent-1" "phone-ordering"
       (acquireGuard "c1" emptyStores)).

(** ** Background tasks and dispatches *)

(** The promise of the task is never rejected. *)
Inductive neverRejects {A} : Task A -> Prop :=
| neverRejects_settled (a : A) : neverRejects (Settled (Returns a))
| neverRejects_awaiting k :
    (forall st, neverRejects (k st).2) -> neverRejects (Awaiting k).

(** No stretch of the task changes the part [part] of the stores. *)
Inductive keeps {A B} (part : Stores -> B) : Task A -> Prop :=
| keeps_settled o : keeps part (Settled o)
| keeps_awaiting k :
    (forall st, part (k st).1 = part st) ->
    (forall st, keeps part (k st).2) ->
    keeps part (Awaiting k).

Definition completeConfig : Config :=
  mkConfig "https://convo.example/api" "app" "https://llm.example/v1" "key"
    "elevenlabs" "key" "model" "voice" "" "" "".

(** An environment in which everything works: the provisioning service
    answers with [agent-1] and the call is placed. *)
Definition workingEnv : Env :=
  mkEnv completeConfig 1000 "abc123" (fun _ => Returns "token")
    (Returns (mkJoinResponse true 200 "OK" (Returns "{}")
                (Returns (Some "agent-1"))))
    1001 1002
    (fun _ _ _ => Returns "Phone call initiated successfully")
    (fun _ _ _ _ => Returns "Phone call initiated successfully")
    (fun _ _ _ => Returns "Phone call initiated successfully").

(** Missing configuration: [AGORA_CONVO_AI_BASE_URL] is not set. *)
Definition missingConfigEnv : Env :=
  mkEnv
    (mkConfig "" "app" "https://llm.example/v1" "key" "elevenlabs" "key"
       "model" "voice" "" "" "")
    1000 "abc123" (fun _ => Returns "token")
    (fetchJoin workingEnv) 1001 1002
    (callSidPhone workingEnv) (callPhone workingEnv)
    (callHermesPhone workingEnv).

(** Provisioning failure: the service answers [500]. *)
Definition provisioningFailsEnv : Env :=
  mkEnv completeConfig 1000 "abc123" (fun _ => Returns "token")
    (Returns (mkJoinResponse false 500 "Internal Server Error"
                (Returns "no capacity") (Throws ThrownValue)))
    1001 1002
    (callSidPhone workingEnv) (callPhone workingEnv)
    (callHermesPhone workingEnv).

(** Call-placement failure: the agent is provisioned, the call is not. *)
Definition callFailsEnv : Env :=
  mkEnv completeConfig 1000 "abc123" (fun _ => Returns "token")
    (fetchJoin workingEnv) 1001 1002
    (fun _ _ _ => Returns "Failed to initiate call")
    (fun _ _ _ _ => Returns "Failed to initiate call")
    (fun _ _ _ => Returns "Failed to initiate call").

Definition sampleOrder : OrderArgs :=
  mkOrderArgs "+15551234567" "Tony's Pizza" "Ada Lovelace" "1 margherita"
    "pickup" "none".

(** The stores once the background promise of a dispatch has run to its
    end ([st] itself when nothing was started). *)
Definition settle (d : Dispatch) : Stores :=
  match d_background d with
  | Some task => (runTask task (d_stores d)).1
  | None => d_stores d
  end.

(** What a failed dispatch of [sampleOrder] on channel ["c1"] leaves, from
    empty stores: the order was acknowledged and started in the
    background, provisioning or the call failed with the message [failure],
    and afterwards the guard of ["c1"] is still held, [stop] has nothing to
    stop and leaves it held, and the next order is refused as "already
    active". *)
Definition guardLeftHeld (env : Env) (failure : string) : Prop :=
  let d := placePhoneOrderAgent env "app" "u1" "c1" sampleOrder emptyStores in
  let st := settle d in
  startsWith (d_result d) "✅ phone-ordering agent dispatched" = true
  /\ d_background d
     = Some (backgroundCreation env "app" "u1" "c1" "phone-ordering"
               "+15551234567")
  /\ (runTask
        (createSpecializedVoiceAgent env "app" "u1" "c1" "phone-ordering"
           "+15551234567") (d_stores d)).2
     = Returns failure
  /\ guardHeld "c1" st = true
  /\ stopAgentPolling "app" "u1" "c1" (mkStopArgs None None) st
     = ("No active agent found to stop.", st)
  /\ d_result (placePhoneOrderAgent env "app" "u1" "c1" sampleOrder st)
     = alreadyActiveMessage.

(** The arguments get through everything a wrapper checks before it looks
    at the guard. *)
Definition inquiryArgsPass (args : InquiryArgs) : bool :=
  truthy (iq_phone_number args) && truthy (iq_restaurant_name args)
  && truthy (iq_question args).

Definition orderArgsPass (index : gmap string (JsMap.t Restaurant))
    (userId : string) (args : OrderArgs) : bool :=
  truthy (or_phone_number args) && truthy (or_restaurant_name args)
  && truthy (or_customer_name args) && truthy (or_food_items args)
  && truthy (or_delivery_type args) && truthy (or_delivery_address args)
  && negb (implausibleCustomerName (or_customer_name args))
  && match resolveOrderPhone index userId args with
     | Some _ => true
     | None => false
     end.

Definition reservationArgsPass (args : ReservationArgs) : bool :=
  truthy (rs_phone_number args) && truthy (rs_restaurant_name args)
  && truthy (rs_customer_name args) && negb (rs_party_size args =? 0)
  && truthy (rs_time_preferences args)
  && negb (implausibleCustomerName (rs_customer_name args))
  && matchesPhonePattern (rs_phone_number args).

(** The call was refused: an error string, the stores as they were, and
    nothing started in the background. *)
Definition refused (d : Dispatch) (st : Stores) : Prop :=
  d_stores d = st /\ d_background d = None
  /\ startsWith (d_result d) "Error: " = true.

(** The call was accepted: an acknowledgement, the guard taken, and the
    agent creation started in the background. *)
Definition accepted (d : Dispatch) (channel : string) : Prop :=
  guardHeld channel (d_stores d) = true
  /\ (exists task, d_background d = Some task)
  /\ startsWith (d_result d) "✅" = true.

(** ** The tool-call loop *)

(** The state an iteration ends in, however it ends. *)
Definition stateOf {World JsonValue} (r : LoopResult World JsonValue)
    : LoopState World JsonValue :=
  match r with
  | Continue s => s
  | Abort s _ => s
  end.

(** No name was invoked twice, and every invoked name is marked as
    executed. *)
Definition invokedOnce {World JsonValue} (s : LoopState World JsonValue)
    : Prop :=
  NoDup (map fst (invoked s))
  /\ forall name, In name (map fst (invoked s)) -> name ∈ executedFunctions s.

(** A name is settled when no later request for it can do anything: it is
    marked as executed, or it is not in the function map. *)
Definition settledName {World JsonValue}
    (versionedFunctions : string -> option (FunctionHandler World JsonValue))
    (s : LoopState World JsonValue) (name : string) : Prop :=
  name ∈ executedFunctions s \/ versionedFunctions name = None.

(** A small function map: a call-placing tool and a data tool, on a world
    without state, with the argument text as the parsed arguments. *)
Definition demoFunctions (name : string) : option (FunctionHandler unit string) :=
  if String.eqb name "call_phone" then
    Some (fun _ _ _ _ w => (Returns "Phone call initiated successfully", w))
  else if String.eqb name "get_restaurant_details" then
    Some (fun _ _ _ args w => (Returns ("Details of " +:+ args), w))
  else None.

(** A parser that rejects the text ["{"] and passes any other text on. *)
Definition demoParse (text : string) : Outcome string :=
  if String.eqb text "{"
  then Throws (ErrorObject "SyntaxError" "Unexpected end of JSON input")
  else Returns text.

(** What the model of [demoCreate] answers to a request with tools. *)
Definition demoToolResponse (toolCalls : list ToolCall) : ChatCompletion :=
  mkCompletion "first"
    (Some [Some (mkResponseMessage NoContent (Some toolCalls))]).

(** A model that asks for [toolCalls] when it is given tools and answers
    in plain text when it is not. *)
Definition demoCreate (toolCalls : list ToolCall)
    (request : CompletionRequest unit unit) (w : unit)
    : Outcome ChatCompletion * unit :=
  match rq_extras request with
  | Some _ => (Returns (demoToolResponse toolCalls), w)
  | None =>
      (Returns
         (mkCompletion "final"
            (Some [Some (mkResponseMessage (Text "Tony's Pizza is open.")
                           None)])), w)
  end.

Definition detailsCall : ToolCall :=
  mkToolCall "t1" "get_restaurant_details" "Tony's Pizza".

Definition demoContext : RequestContext := mkRequestContext "u1" "c1" "app".

Definition demoHistory : list ChatMessage :=
  [ mkMessage system (Text "You are a helpful assistant.") None [];
    mkMessage user (Text "Is Tony's Pizza open?") None [] ].

Definition demoOptions (model : string) : RequestOptions unit unit :=
  mkOptions model demoHistory tt tt.

(** A turn in which the model asks twice for [call_phone] although the
    history already says that a call is on its way. *)
Definition repeatedCall : list ToolCall :=
  [mkToolCall "t1" "call_phone" "{}"; mkToolCall "t2" "call_phone" "{}"].

Definition callHistory : list ChatMessage :=
  [ mkMessage user (Text "Please ring Tony's Pizza for me.") None [];
    mkMessage assistant (Text "Calling Tony's Pizza now.") None [];
    mkMessage assistant NoContent None repeatedCall ].

(** ** Further vocabulary: directory, routing and sessions *)

(** The ids a call of [storeYelpResults] adds to an index whose keys are
    [known]: the id of each result that has a phone and whose id is neither
    known nor added by an earlier result of the same call. *)
Fixpoint newIds (known : list string) (results : list YelpResult)
    : list string :=
  match results with
  | [] => []
  | result :: rest =>
      if truthy (yr_phone result)
         && negb (bool_decide (yr_id result ∈ known))
      then yr_id result :: newIds (known ++ [yr_id result]) rest
      else newIds known rest
  end.

(** ** Further vocabulary: status reports *)

(** One call of [injectStatusIntoConversation] for a channel: the reading
    of [Date.now()] and the arguments that vary. *)
Record StatusReport := mkReport {
  sr_now : Z;
  sr_agentId : string;
  sr_type : string;
  sr_status : string;
  sr_updateType : UpdateType
}.

(** The update a report is recorded as. *)
Definition updateOf (report : StatusReport) : ContextUpdate :=
  mkUpdate (sr_now report) (sr_status report) (sr_updateType report).

(** The reports injected one after the other. *)
Definition injectAll (appId userId channel : string)
    (reports : list StatusReport) (st : Stores) : Stores :=
  fold_left
    (fun st report =>
       injectStatusIntoConversation (sr_now report) appId userId channel
         (sr_agentId report) (sr_type report) (sr_status report)
         (sr_updateType report) st)
    reports st.

(** The first line of the text [getConversationContext] makes of an update
    of the given type. *)
Definition contextHeader (type : UpdateType) : string :=
  match type with
  | COMPLETED => "🎯 **AGENT TASK COMPLETED**"
  | FAILED => "❌ **AGENT TASK FAILED**"
  | UPDATE => "📱 **AGENT UPDATE**"
  end.

(** ** Further vocabulary: provisioning *)

(** The specializations the three dispatch wrappers create agents for. *)
Definition wrapperSpecializations : list string :=
  ["restaurant-inquiry"; "phone-ordering"; "reservation-booking"].

(** [specializedChannelName]: the channel the agent is created on. *)
Definition specializedChannelNameOf (env : Env) (specialization : string)
    : string :=
  "specialized-" +:+ specialization +:+ "-" +:+ ofZ (nowCreate env)
  +:+ "-" +:+ randomSuffix env.

(** The text of a placed call says that the call failed: the test
    [createSpecializedVoiceAgent] makes on the result of the call. *)
Definition reportsFailure (callResult : string) : bool :=
  includes callResult "Failed" || includes callResult "Error"
  || includes callResult "Invalid".

(** ** Further vocabulary: what the process does to the stores *)

(** A stretch of a task: one of the synchronous pieces it runs between two
    [await]s, whatever the stores were before. *)
Inductive stretchOf {A} : Task A -> (Stores -> Stores * Task A) -> Prop :=
| stretch_here k : stretchOf (Awaiting k) k
| stretch_later k st k' : stretchOf (k st).2 k' -> stretchOf (Awaiting k) k'.

(** Every stretch of the task changes the stores within [R]. *)
Inductive stretchesWithin {A} (R : Stores -> Stores -> Prop) : Task A -> Prop :=
| within_settled o : stretchesWithin R (Settled o)
| within_awaiting k :
    (forall st, R st (k st).1) ->
    (forall st, stretchesWithin R (k st).2) ->
    stretchesWithin R (Awaiting k).

(** What a stretch of [createSpecializedVoiceAgent] does to the stores:
    nothing, or it records the provisioned agent and reads the call action
    (which drops an expired entry), or it starts the polling. *)
Inductive backgroundEffect : Stores -> Stores -> Prop :=
| effect_none st : backgroundEffect st st
| effect_provisioned now now' userId agentId type name channel st :
    truthy agentId = true ->
    backgroundEffect st
      (set_callActionStore
         (fun _ => (getCallAction now' channel (callActionStore st)).2)
         (storeAgentInfo now userId agentId type name st))
| effect_routed now' channel st :
    backgroundEffect st
      (set_callActionStore
         (fun _ => (getCallAction now' channel (callActionStore st)).2) st)
| effect_started appId userId channel agentId type st :
    truthy agentId = true ->
    backgroundEffect st
      (startAgentPolling appId userId channel agentId type st).

(** One thing the process does to the stores: a call of an entry point
    that writes — [storeCallAction], exported to the route, the searches
    that end in [storeYelpResults], the three dispatch wrappers and
    [stopAgentPolling] of the function map — or one stretch of the
    background promise of a dispatch.  The other handlers of the map only
    read the stores. *)
Inductive operation : Stores -> Stores -> Prop :=
| op_storeCallAction now channel callAction st :
    operation st
      (set_callActionStore (storeCallAction now channel callAction) st)
| op_storeYelpResults clock userId results st :
    operation st
      (set_restaurantIndex (storeYelpResults clock userId results) st)
| op_inquiry env appId userId channel args st :
    operation st
      (d_stores (callAndAskQuestionAgent env appId userId channel args st))
| op_order env appId userId channel args st :
    operation st
      (d_stores (placePhoneOrderAgent env appId userId channel args st))
| op_reservation env appId userId channel args st :
    operation st
      (d_stores (makeReservationAgent env appId userId channel args st))
| op_stop appId userId channel args st :
    operation st (stopAgentPolling appId userId channel args st).2
| op_background env appId userId channel specialization phoneNumber k st :
    stretchOf
      (backgroundCreation env appId userId channel specialization phoneNumber)
      k ->
    operation st (k st).1.

(** The stores the process can be in: empty at the start, then changed by
    one operation after the other. *)
Inductive reachable : Stores -> Prop :=
| reachable_start : reachable emptyStores
| reachable_step st st' : reachable st -> operation st st' -> reachable st'.

(** A session as [startAgentPolling] makes it: stored under the key of its
    channel and agent, for an agent with an id, and never polled. *)
Definition freshSession (key : string) (session : PollingSession) : Prop :=
  key = sessionKeyOf (ps_channel session) (ps_agentId session)
  /\ truthy (ps_agentId session) = true
  /\ ps_pollCount session = 0
  /\ ps_lastStatus session = "STARTING"
  /\ ps_consecutiveUnchangedCount session = 0
  /\ ps_intervalId session = None.

(** The [call_action] preferences and phone directories are as their
    writers leave them. *)
Definition recordsWellFormed (st : Stores) : Prop :=
  callActionStore st !! "" = None
  /\ forall userId userIndex,
       restaurantIndex st !! userId = Some userIndex ->
       phonesRecorded userIndex = true /\ uniqueKeys userIndex = true.

(** The polling sessions are as [startAgentPolling] leaves them, and no
    timer is armed. *)
Definition sessionsWellFormed (st : Stores) : Prop :=
  uniqueKeys (activePollingSessions st) = true
  /\ (forall key session,
        In (key, session) (JsMap.entries (activePollingSessions st)) ->
        freshSession key session)
  /\ armedTimers st = ∅.

(** The stores after an accepted order and the whole of its background
    promise, in an environment where everything works. *)
Definition afterOrder : Stores :=
  settle (placePhoneOrderAgent workingEnv "app" "u1" "c1" sampleOrder
            emptyStores).

(** ** Further vocabulary: tools *)


(** ** Further vocabulary: telephony *)

(** A configured bridge that accepts every call, with a Hermes number. *)
Definition demoPhone : PhoneEnv :=
  mkPhoneEnv
    (mkPstnConfig "https://pstn.example/call" "secret" "+1 (555) 000-1111"
       "" "" "")
    (fun _ _ _ => "token")
    (fun _ => PstnAnswered true "call-1" None) "+15552223333" "".

(** The telephony [phone] with another bridge behind [axios.post]. *)
Definition withAxiosPost (phone : PhoneEnv)
    (post : PstnRequest -> PstnReply) : PhoneEnv :=
  mkPhoneEnv (pstn phone) (generateTokenForPSTN phone) post
    (HERMES_PHONE_NUMBER phone) (SID_PHONE_NUMBER phone).

(** The bridge of [phone], but refusing every call that is not to one of
    the two configured numbers. *)
Definition configuredNumbersOnly (phone : PhoneEnv) (request : PstnRequest)
    : PstnReply :=
  if String.eqb (pr_to request) (formatPhoneNumber (SID_PHONE_NUMBER phone))
     || String.eqb (pr_to request)
          (formatPhoneNumber (HERMES_PHONE_NUMBER phone))
  then axiosPost phone request
  else PstnRefused 403 "number not allowed".

(** ** Further vocabulary: authorisation *)

(** The key a request has to present. *)
Definition expectedApiKey (c : AuthConfig) : string :=
  if String.eqb (llm_provider c) "CEREBRAS" then llm_cerebrasApiKey c
  else llm_openaiApiKey c.

(** ** Further vocabulary: multi-turn tool use *)

(** The model asks for tools in [n] rounds and then answers: from the
    messages [msgs] and the world [w], each of the [n] rounds is a
    response whose first tool call names a function of the map, with
    arguments that parse and a handler that returns, and the request after
    them is answered by [final], which asks for no tool.  [msgs'] are the
    messages and [w'] the world at the end. *)
Inductive answersAfter {World JsonValue Params Extras}
    (JSON_parse : string -> Outcome JsonValue)
    (JSON_stringify : string -> string)
    (availableFunctions : string -> option (FunctionHandler World JsonValue))
    (create : CompletionRequest Params Extras -> World ->
              Outcome ChatCompletion * World)
    (params : Params) (options : MultiTurnOptions Extras)
    : nat -> list ChatMessage -> World -> ChatCompletion ->
      list ChatMessage -> World -> Prop :=
| answers_now msgs w final w' :
    create (mkRequest (mt_model options) msgs params (Some (mt_tools options)))
      w = (Returns final, w') ->
    match firstChoiceMessage final with
    | Some msg =>
        rm_tool_calls msg = None \/ rm_tool_calls msg = Some []
    | None => True
    end ->
    answersAfter JSON_parse JSON_stringify availableFunctions create params
      options 0 msgs w final msgs w'
| answers_later n msgs w response w1 msg call others handler functionArgs
    output w2 final msgs' w' :
    create (mkRequest (mt_model options) msgs params (Some (mt_tools options)))
      w = (Returns response, w1) ->
    firstChoiceMessage response = Some msg ->
    rm_tool_calls msg = Some (call :: others) ->
    availableFunctions (tc_name call) = Some handler ->
    JSON_parse (tc_arguments call) = Returns functionArgs ->
    handler (mt_appId options) (mt_userId options) (mt_channel options)
      functionArgs w1 = (Returns output, w2) ->
    answersAfter JSON_parse JSON_stringify availableFunctions create params
      options n
      (msgs
       ++ [mkMessage assistant (rm_content msg) None (call :: others);
           toolMessage (JSON_stringify output) (tc_id call)])
      w2 final msgs' w' ->
    answersAfter JSON_parse JSON_stringify availableFunctions create params
      options (S n) msgs w final msgs' w'.

(** A model that asks for the details of Tony's Pizza, twice in one
    response, until the conversation ends with two tool messages. *)
Definition insistentCreate (request : CompletionRequest unit unit) (w : unit)
    : Outcome ChatCompletion * unit :=
  if (2 <=? length (List.filter (fun msg => Role_eqb (role msg) tool)
                      (rq_messages request)))%nat
  then
    (Returns
       (mkCompletion "final"
          (Some [Some (mkResponseMessage (Text "Tony's Pizza is open.")
                         None)])), w)
  else
    (Returns
       (demoToolResponse
          [detailsCall; mkToolCall "t2" "get_restaurant_details" "Sushi Go"]),
     w).

Definition qwenOptions : MultiTurnOptions unit :=
  mkMultiTurnOptions "qwen-3-32b" "u1" "c1" "app" tt.

(** ** Further vocabulary: the index listing *)

(** Most recently seen first. *)
Fixpoint byRecency (restaurants : list Restaurant) : Prop :=
  match restaurants with
  | [] => True
  | restaurant :: rest =>
      Forall (fun other => r_lastSeen other <= r_lastSeen restaurant) rest
      /\ byRecency rest
  end.

(** The restaurants [getIndexedRestaurants] lists for an index. *)
Definition listedRestaurants (userIndex : JsMap.t Restaurant)
    : list Restaurant :=
  take 20 (sortByRecency (JsMap.values userIndex)).

(* ===================================================================== *)
(** * Properties *)
(* ===================================================================== *)

(** ** Strings *)

Lemma append_cons (c : ascii) (a b : string) :
  String c a +:+ b = String c (a +:+ b).
Proof. reflexivity. Qed.

Lemma append_nil_l (b : string) : "" +:+ b = b.
Proof. reflexivity. Qed.


Lemma append_assoc (a b c : string) : (a +:+ b) +:+ c = a +:+ (b +:+ c).
Proof.
  induction a as [|x a IH]; [reflexivity|].
  rewrite !append_cons. f_equal. exact IH.
Qed.

Lemma startsWith_iff (s pre : string) :
  startsWith s pre = true <-> exists post, s = pre +:+ post.
Proof.
  unfold startsWith. revert s.
  induction pre as [|c pre IH]; intros s.
  - split; [intros _; now exists s|].
    intros _. destruct s; reflexivity.
  - destruct s as [|d s]; cbn [String.prefix].
    + split; [discriminate|]. intros [post H]. discriminate.
    + destruct (ascii_dec c d) as [->|Hne].
      * rewrite IH. split; intros [post H]; exists post.
        -- rewrite append_cons. now rewrite H.
        -- rewrite append_cons in H. now injection H.
      * split; [discriminate|].
        intros [post H]. rewrite append_cons in H. injection H as H1 H2.
        congruence.
Qed.

Lemma startsWith_empty (s : string) : startsWith s "" = true.
Proof. apply startsWith_iff. now exists s. Qed.

Lemma includes_iff (s sub : string) :
  includes s sub = true <-> occursIn sub s.
Proof.
  unfold occursIn. induction s as [|c s IH].
  - cbn [includes]. rewrite orb_false_r, startsWith_iff. split.
    + intros [post H]. now exists "", post.
    + intros (pre & post & H). exists post.
      destruct pre; [exact H|discriminate].
  - cbn [includes]. rewrite orb_true_iff, startsWith_iff, IH. split.
    + intros [[post H]|(pre & post & H)].
      * now exists "", post.
      * exists (String c pre), post. rewrite append_cons. now rewrite H.
    + intros (pre & post & H). destruct pre as [|d pre].
      * left. now exists post.
      * right. rewrite append_cons in H. injection H as _ H.
        now exists pre, post.
Qed.

Lemma includes_empty (s : string) : includes s "" = true.
Proof. apply includes_iff. exists "", s. reflexivity. Qed.

Lemma keep_all (p : ascii -> bool) (s : string) :
  all_chars p (keep p s) = true.
Proof.
  induction s as [|c s IH]; simpl; [reflexivity|].
  destruct (p c) eqn:E; simpl; [now rewrite E|exact IH].
Qed.

Lemma keep_id (p : ascii -> bool) (s : string) :
  all_chars p s = true -> keep p s = s.
Proof.
  induction s as [|c s IH]; simpl; [reflexivity|].
  intros [Hc Hs]%andb_true_iff. rewrite Hc. now rewrite IH.
Qed.

Lemma keep_app (p : ascii -> bool) (a b : string) :
  keep p (a +:+ b) = keep p a +:+ keep p b.
Proof.
  induction a as [|c a IH]; [reflexivity|].
  rewrite append_cons. simpl. destruct (p c); [rewrite append_cons|];
    now rewrite IH.
Qed.

(** ** [formatPhoneNumber] *)

(** C10.  For every input, [formatPhoneNumber] returns ["+1"] followed by
    digits only: either the input's digits already began with ['1'] and
    the result is ['+'] and those digits, or they did not and a ['1'] was
    put in front of them.  So the result always begins with ["+1"], and a
    number whose digits begin with ["44"] comes out under the US country
    code. *)
Theorem formatPhoneNumber_always_us_code (phone : string) :
  (exists rest,
     formatPhoneNumber phone = "+1" +:+ rest
     /\ all_chars isDigit rest = true
     /\ (keep isDigit phone = "1" +:+ rest
         \/ (startsWith (keep isDigit phone) "1" = false
             /\ keep isDigit phone = rest)))
  /\ startsWith (formatPhoneNumber phone) "+1" = true
  /\ (forall rest, keep isDigit phone = "44" +:+ rest ->
        formatPhoneNumber phone = "+144" +:+ rest)
  /\ formatPhoneNumber "+44 20 7946 0958" = "+1442079460958".
Proof.
  assert (Hex : exists rest,
     formatPhoneNumber phone = "+1" +:+ rest
     /\ all_chars isDigit rest = true
     /\ (keep isDigit phone = "1" +:+ rest
         \/ (startsWith (keep isDigit phone) "1" = false
             /\ keep isDigit phone = rest))).
  { unfold formatPhoneNumber.
    pose proof (keep_all isDigit phone) as Hd.
    destruct (startsWith (keep isDigit phone) "1") eqn:E.
    - apply startsWith_iff in E as [post E]. exists post.
      rewrite E in Hd |- *. rewrite append_cons, append_nil_l in Hd.
      simpl in Hd. split; [reflexivity|]. split; [exact Hd|now left].
    - exists (keep isDigit phone). split; [reflexivity|]. auto. }
  split; [exact Hex|]. split; [|split].
  - destruct Hex as (rest & -> & _). apply startsWith_iff. now exists rest.
  - intros rest H. unfold formatPhoneNumber. rewrite H. reflexivity.
  - reflexivity.
Qed.

(** ** Insertion-ordered maps *)

Section JsMapFacts.

Context {V : Type}.
Implicit Types (m : JsMap.t V) (k : string) (v : V).

Lemma get_set_eq m k v : JsMap.get (JsMap.set m k v) k = Some v.
Proof.
  induction m as [|[k' v'] m IH]; simpl.
  - now rewrite String.eqb_refl.
  - destruct (String.eqb k' k) eqn:E; simpl; rewrite E; auto.
Qed.

Lemma get_set_ne m k k' v :
  k <> k' -> JsMap.get (JsMap.set m k v) k' = JsMap.get m k'.
Proof.
  intros Hne. induction m as [|[k0 v0] m IH]; simpl.
  - destruct (String.eqb_spec k k'); [contradiction|reflexivity].
  - destruct (String.eqb_spec k0 k) as [->|Hk]; simpl.
    + destruct (String.eqb_spec k k'); [contradiction|reflexivity].
    + now rewrite IH.
Qed.

Lemma keys_set_present m k v :
  JsMap.has m k = true -> JsMap.keys (JsMap.set m k v) = JsMap.keys m.
Proof.
  unfold JsMap.has, JsMap.keys.
  induction m as [|[k0 v0] m IH]; simpl; [discriminate|].
  destruct (String.eqb k0 k) eqn:E; simpl; [reflexivity|].
  intros H. now rewrite IH.
Qed.

Lemma size_keys m : JsMap.size m = length (JsMap.keys m).
Proof. unfold JsMap.size, JsMap.keys. now rewrite length_map. Qed.

Lemma size_set_present m k v :
  JsMap.has m k = true -> JsMap.size (JsMap.set m k v) = JsMap.size m.
Proof. intros H. now rewrite !size_keys, keys_set_present. Qed.

Lemma set_absent m k v :
  JsMap.has m k = false -> JsMap.set m k v = m ++ [(k, v)].
Proof.
  unfold JsMap.has.
  induction m as [|[k0 v0] m IH]; simpl; [reflexivity|].
  destruct (String.eqb k0 k) eqn:E; [discriminate|].
  intros H. now rewrite IH.
Qed.

Lemma has_get m k x : JsMap.get m k = Some x -> JsMap.has m k = true.
Proof. unfold JsMap.has. now intros ->. Qed.

Lemma get_delete_eq m k : JsMap.get (JsMap.delete m k) k = None.
Proof.
  induction m as [|[k0 v0] m IH]; simpl; [reflexivity|].
  destruct (String.eqb k0 k) eqn:E; simpl; [exact IH|now rewrite E].
Qed.

Lemma get_delete_ne m k k' :
  k <> k' -> JsMap.get (JsMap.delete m k) k' = JsMap.get m k'.
Proof.
  intros Hne. induction m as [|[k0 v0] m IH]; simpl; [reflexivity|].
  destruct (String.eqb_spec k0 k) as [->|Hk]; simpl.
  - rewrite IH. destruct (String.eqb_spec k k'); [contradiction|reflexivity].
  - now rewrite IH.
Qed.

Lemma get_in m k x : JsMap.get m k = Some x -> In (k, x) m.
Proof.
  induction m as [|[k0 v0] m IH]; simpl; [discriminate|].
  destruct (String.eqb_spec k0 k) as [->|Hk].
  - intros [= ->]. now left.
  - intros H. right. auto.
Qed.

End JsMapFacts.

(** ** The phone directory: recording *)

Lemma phonesRecorded_get userIndex id r :
  phonesRecorded userIndex = true ->
  JsMap.get userIndex id = Some r -> truthy (r_phone r) = true.
Proof.
  unfold phonesRecorded, JsMap.values. rewrite forallb_forall.
  intros Hall Hget. apply Hall. apply get_in in Hget.
  apply (in_map snd) in Hget. exact Hget.
Qed.

Lemma phonesRecorded_set userIndex id r :
  phonesRecorded userIndex = true -> truthy (r_phone r) = true ->
  phonesRecorded (JsMap.set userIndex id r) = true.
Proof.
  unfold phonesRecorded, JsMap.values.
  induction userIndex as [|[k0 v0] m IH]; simpl.
  - intros _ ->. reflexivity.
  - intros [H0 Hm]%andb_true_iff Hr.
    destruct (String.eqb k0 id); simpl.
    + now rewrite Hr, Hm.
    + now rewrite H0, IH.
Qed.

(** Recording one result keeps every recorded entry but for its
    [lastSeen]. *)
Lemma storeYelpResult_keeps now userIndex result id r :
  JsMap.get userIndex id = Some r ->
  exists lastSeen,
    JsMap.get (storeYelpResult now userIndex result) id
    = Some (mkRestaurant (r_name r) (r_phone r) (r_id r) lastSeen).
Proof.
  intros Hget. unfold storeYelpResult.
  destruct (truthy (yr_phone result)); simpl.
  2: { exists (r_lastSeen r). rewrite Hget. now destruct r. }
  destruct (JsMap.has userIndex (yr_id result)) eqn:Hhas; simpl.
  - destruct (JsMap.get userIndex (yr_id result)) as [existing|] eqn:He.
    2: { exists (r_lastSeen r). rewrite Hget. now destruct r. }
    destruct (String.eqb_spec (yr_id result) id) as [Heq|Hne].
    + subst id. rewrite get_set_eq. exists now.
      rewrite Hget in He. now injection He as <-.
    + rewrite get_set_ne by exact Hne. exists (r_lastSeen r).
      rewrite Hget. now destruct r.
  - destruct (String.eqb_spec (yr_id result) id) as [Heq|Hne].
    + subst id. apply has_get in Hget. congruence.
    + rewrite get_set_ne by exact Hne. exists (r_lastSeen r).
      rewrite Hget. now destruct r.
Qed.

Lemma storeYelpLoop_keeps clock results : forall i userIndex id r,
  JsMap.get userIndex id = Some r ->
  exists lastSeen,
    JsMap.get (storeYelpLoop clock i userIndex results) id
    = Some (mkRestaurant (r_name r) (r_phone r) (r_id r) lastSeen).
Proof.
  induction results as [|result rest IH]; intros i userIndex id r Hget; simpl.
  - exists (r_lastSeen r). rewrite Hget. now destruct r.
  - destruct (storeYelpResult_keeps (clock i) userIndex result id r Hget)
      as [t Ht].
    destruct (IH (S i) _ id _ Ht) as [t' Ht']. now exists t'.
Qed.

Lemma storeYelpResult_phonesRecorded now userIndex result :
  phonesRecorded userIndex = true ->
  phonesRecorded (storeYelpResult now userIndex result) = true.
Proof.
  intros Hinv. unfold storeYelpResult.
  destruct (truthy (yr_phone result)) eqn:Hp; simpl; [|exact Hinv].
  destruct (JsMap.has userIndex (yr_id result)) eqn:Hhas; simpl.
  - destruct (JsMap.get userIndex (yr_id result)) as [existing|] eqn:He;
      [|exact Hinv].
    apply phonesRecorded_set; [exact Hinv|]. simpl.
    eapply phonesRecorded_get; eauto.
  - apply phonesRecorded_set; [exact Hinv|exact Hp].
Qed.

Lemma storeYelpLoop_phonesRecorded clock results : forall i userIndex,
  phonesRecorded userIndex = true ->
  phonesRecorded (storeYelpLoop clock i userIndex results) = true.
Proof.
  induction results as [|result rest IH]; intros i userIndex Hinv; simpl;
    [exact Hinv|].
  apply IH. now apply storeYelpResult_phonesRecorded.
Qed.

Lemma storeYelpResults_lookup clock userId results index userIndex :
  index !! userId = Some userIndex ->
  storeYelpResults clock userId results index !! userId
  = Some (storeYelpLoop clock 0 userIndex results).
Proof.
  intros Hidx. unfold storeYelpResults. rewrite Hidx.
  rewrite lookup_insert_eq. rewrite Hidx. reflexivity.
Qed.

Lemma storeYelpResults_other_user clock userId results index other :
  other <> userId ->
  storeYelpResults clock userId results index !! other = index !! other.
Proof.
  intros Hne. unfold storeYelpResults.
  rewrite lookup_insert_ne by congruence.
  destruct (index !! userId); [reflexivity|].
  now rewrite lookup_insert_ne by congruence.
Qed.

(** C6.  Recording is idempotent per business id and never overwrites a
    phone.  For a user whose index already holds an entry [r] under [id]:
    whatever results a later [storeYelpResults] call records, the entry
    under [id] keeps its name, phone and id; and when the call records a
    result with that id and the same phone, the index keeps its size and
    its keys, every other entry is untouched, and the entry itself only
    has its [lastSeen] set to the time of the call. *)
Theorem phone_directory_idempotent
    (clock : nat -> Z) (userId : string) (results : list YelpResult)
    (index : gmap string (JsMap.t Restaurant))
    (userIndex : JsMap.t Restaurant) (id : string) (r : Restaurant)
    (Hindex : index !! userId = Some userIndex)
    (Hrecorded : phonesRecorded userIndex = true)
    (Hentry : JsMap.get userIndex id = Some r) :
  (exists userIndex' lastSeen,
      storeYelpResults clock userId results index !! userId = Some userIndex'
      /\ phonesRecorded userIndex' = true
      /\ JsMap.get userIndex' id
         = Some (mkRestaurant (r_name r) (r_phone r) (r_id r) lastSeen))
  /\ (forall name,
        results = [mkYelpResult name (r_phone r) id] ->
        exists userIndex',
          storeYelpResults clock userId results index !! userId
          = Some userIndex'
          /\ JsMap.size userIndex' = JsMap.size userIndex
          /\ JsMap.keys userIndex' = JsMap.keys userIndex
          /\ JsMap.get userIndex' id
             = Some (mkRestaurant (r_name r) (r_phone r) (r_id r) (clock 0%nat))
          /\ forall other, other <> id ->
               JsMap.get userIndex' other = JsMap.get userIndex other).
Proof.
  split.
  - destruct (storeYelpLoop_keeps clock results 0 userIndex id r Hentry)
      as [t Ht].
    exists (storeYelpLoop clock 0 userIndex results), t.
    split; [now apply storeYelpResults_lookup|]. split; [|exact Ht].
    now apply storeYelpLoop_phonesRecorded.
  - intros name ->.
    exists (storeYelpLoop clock 0 userIndex [mkYelpResult name (r_phone r) id]).
    split; [now apply storeYelpResults_lookup|].
    pose proof (phonesRecorded_get _ _ _ Hrecorded Hentry) as Hp.
    pose proof (has_get _ _ _ Hentry) as Hhas.
    simpl. unfold storeYelpResult. simpl. rewrite Hp, Hhas, Hentry. simpl.
    split; [now apply size_set_present|].
    split; [now apply keys_set_present|].
    split; [apply get_set_eq|].
    intros other Hne. apply get_set_ne. congruence.
Qed.

(** The theorem at the scenario of the specification: ["Joe's"] recorded
    twice under id ["a"]. *)
Lemma phone_directory_idempotent_witness :
  let first :=
    storeYelpResults (fun _ => 100) "u1"
      [mkYelpResult "Joe's" "+15551234567" "a"] ∅ in
  exists userIndex',
    storeYelpResults (fun _ => 200) "u1"
      [mkYelpResult "Joe's" "+15551234567" "a"] first !! "u1"
    = Some userIndex'
    /\ JsMap.size userIndex' = 1%nat
    /\ JsMap.get userIndex' "a"
       = Some (mkRestaurant "Joe's" "+15551234567" "a" 200).
Proof.
  intros first.
  destruct (phone_directory_idempotent (fun _ => 200) "u1"
              [mkYelpResult "Joe's" "+15551234567" "a"] first
              [("a", mkRestaurant "Joe's" "+15551234567" "a" 100)] "a"
              (mkRestaurant "Joe's" "+15551234567" "a" 100)
              eq_refl eq_refl eq_refl) as [_ H].
  destruct (H "Joe's" eq_refl) as (ui & H1 & H2 & _ & H4 & _).
  exists ui. split; [exact H1|]. split; [exact H2|exact H4].
Defined.

(** ** The phone directory: resolution *)

Lemma lowerChar_class (c : ascii) : isLowerAlnum (lowerChar c) = isAlnum c.
Proof.
  destruct c as [[] [] [] [] [] [] [] []]; vm_compute; reflexivity.
Qed.

(** On a character of ASCII [toLowerCase] works character by character. *)
Lemma toLowerCase_ascii_cons (c : ascii) (rest : string) :
  (code c <? 128)%nat = true ->
  toLowerCase (String c rest) = String (lowerChar c) (toLowerCase rest).
Proof.
  intros Hc. apply Nat.ltb_lt in Hc.
  destruct rest as [|c1 rest1]; [reflexivity|].
  cbn [toLowerCase].
  destruct (Nat.eqb_spec (code c) 196) as [E|_]; [lia|].
  cbn [andb].
  destruct rest1 as [|c2 rest2]; [reflexivity|].
  destruct (Nat.eqb_spec (code c) 226) as [E|_]; [lia|].
  reflexivity.
Qed.

(** On text of ASCII, lowercasing and then stripping what is not in
    [[a-z0-9]], as the source does, is stripping what is not a letter or a
    digit and then lowercasing. *)
Lemma normalizeName_ascii (s : string) :
  all_chars (fun c => (code c <? 128)%nat) s = true ->
  normalizeName s = toLowerCase (keep isAlnum s).
Proof.
  unfold normalizeName.
  induction s as [|c s IH]; [reflexivity|].
  cbn [all_chars]. intros [Hc Hs]%andb_true_iff.
  rewrite (toLowerCase_ascii_cons c s Hc).
  cbn [keep]. rewrite lowerChar_class, (IH Hs).
  destruct (isAlnum c); [|reflexivity].
  now rewrite (toLowerCase_ascii_cons c _ Hc).
Qed.

(** Outside ASCII: the capital I with a dot and the Kelvin sign give the
    letters [i] and [k], every other character is stripped. *)
Example normalizeName_outside_ascii :
  normalizeName "İstanbul Kebab" = "istanbulkebab"
  /\ normalizeName "Kebab Café" = "kebabcaf"
  /\ normalizeName "李" = "".
Proof. repeat split. Qed.

Lemma nameMatches_iff (query storedName : string) :
  includes (normalizeName storedName) (normalizeName query)
  || includes (normalizeName query) (normalizeName storedName) = true
  <-> nameMatches query storedName.
Proof.
  unfold nameMatches. now rewrite orb_true_iff, !includes_iff.
Qed.

Lemma findPhoneLoop_first_match (query : string) (restaurants : list Restaurant)
    (phone : string) :
  findPhoneLoop (normalizeName query) restaurants = Some phone <->
  exists before r after,
    restaurants = before ++ r :: after
    /\ (forall r', In r' before -> ~ nameMatches query (r_name r'))
    /\ nameMatches query (r_name r)
    /\ r_phone r = phone.
Proof.
  induction restaurants as [|x rest IH]; simpl.
  - split; [discriminate|]. intros (before & r & after & H & _).
    destruct before; discriminate.
  - destruct (includes (normalizeName (r_name x)) (normalizeName query)
              || includes (normalizeName query) (normalizeName (r_name x)))
      eqn:E.
    + apply nameMatches_iff in E. split.
      * intros [= <-]. exists [], x, rest. simpl. tauto.
      * intros (before & r & after & H & Hbefore & Hr & Hphone).
        destruct before as [|y before]; simpl in H; injection H as H1 H2.
        -- subst r. now rewrite Hphone.
        -- subst y. exfalso. apply (Hbefore x); [now left|exact E].
    + assert (Hx : ~ nameMatches query (r_name x)).
      { rewrite <- nameMatches_iff. now rewrite E. }
      rewrite IH. split.
      * intros (before & r & after & -> & Hbefore & Hr & Hphone).
        exists (x :: before), r, after. simpl.
        split; [reflexivity|]. split; [|tauto].
        intros r' [<-|Hin]; auto.
      * intros (before & r & after & H & Hbefore & Hr & Hphone).
        destruct before as [|y before]; simpl in H; injection H as H1 H2.
        -- subst r. contradiction.
        -- subst y rest. exists before, r, after. split; [reflexivity|].
           split; [|tauto]. intros r' Hin. apply Hbefore. now right.
Qed.

(** C7.  [findPhoneNumber] normalises the query and every stored name by
    lowercasing and stripping what is not a letter or a digit, accepts a
    stored name when one normalised string contains the other, and returns
    the phone of the first entry, in insertion order, that is accepted.  So
    an entry named ["Tony's Pizza"] answers the queries ["Tony's"] and
    ["tonys pizza"] with its phone, when no entry before it is accepted. *)
Theorem findPhoneNumber_first_match
    (index : gmap string (JsMap.t Restaurant)) (userId : string) :
  (forall query,
     normalizeName query = keep isLowerAlnum (toLowerCase query)
     /\ (all_chars (fun c => (code c <? 128)%nat) query = true ->
         normalizeName query = toLowerCase (keep isAlnum query)))
  /\ (forall query phone,
        findPhoneNumber index userId query = Some phone <->
        exists userIndex before r after,
          index !! userId = Some userIndex
          /\ JsMap.values userIndex = before ++ r :: after
          /\ (forall r', In r' before -> ~ nameMatches query (r_name r'))
          /\ nameMatches query (r_name r)
          /\ r_phone r = phone)
  /\ (forall query userIndex before r after,
        query = "Tony's" \/ query = "tonys pizza" ->
        index !! userId = Some userIndex ->
        JsMap.values userIndex = before ++ r :: after ->
        (forall r', In r' before -> ~ nameMatches query (r_name r')) ->
        r_name r = "Tony's Pizza" ->
        findPhoneNumber index userId query = Some (r_phone r)).
Proof.
  assert (Hchar : forall query phone,
        findPhoneNumber index userId query = Some phone <->
        exists userIndex before r after,
          index !! userId = Some userIndex
          /\ JsMap.values userIndex = before ++ r :: after
          /\ (forall r', In r' before -> ~ nameMatches query (r_name r'))
          /\ nameMatches query (r_name r)
          /\ r_phone r = phone).
  { intros query phone. unfold findPhoneNumber.
    destruct (index !! userId) as [userIndex|] eqn:Hidx.
    - destruct (Nat.eqb_spec (JsMap.size userIndex) 0) as [Hz|Hnz].
      + split; [discriminate|].
        intros (ui & before & r & after & [= <-] & Hv & _).
        apply (f_equal (@length _)) in Hv.
        unfold JsMap.values in Hv. unfold JsMap.size in Hz.
        rewrite length_map, length_app in Hv. simpl in Hv. lia.
      + rewrite findPhoneLoop_first_match. split.
        * intros (before & r & after & H). now exists userIndex, before, r, after.
        * intros (ui & before & r & after & [= <-] & H).
          now exists before, r, after.
    - split; [discriminate|].
      intros (ui & before & r & after & H & _). discriminate. }
  split; [intros query; split; [reflexivity|apply normalizeName_ascii]|].
  split; [exact Hchar|].
  intros query userIndex before r after Hq Hidx Hv Hbefore Hname.
  apply Hchar. exists userIndex, before, r, after.
  repeat split; try assumption.
  rewrite Hname. apply nameMatches_iff.
  destruct Hq as [-> | ->]; vm_compute; reflexivity.
Qed.

(** The theorem at a directory built by [storeYelpResults]. *)
Lemma findPhoneNumber_first_match_witness :
  let index :=
    storeYelpResults (fun _ => 100) "u1"
      [mkYelpResult "Tony's Pizza" "+15551234567" "tp"] ∅ in
  findPhoneNumber index "u1" "Tony's" = Some "+15551234567"
  /\ findPhoneNumber index "u1" "tonys pizza" = Some "+15551234567".
Proof.
  intros index.
  pose proof (findPhoneNumber_first_match index "u1") as (_ & _ & H).
  split.
  - apply (H "Tony's"
             [("tp", mkRestaurant "Tony's Pizza" "+15551234567" "tp" 100)] []
             (mkRestaurant "Tony's Pizza" "+15551234567" "tp" 100) []);
      [now left|reflexivity|reflexivity|intros r' []|reflexivity].
  - apply (H "tonys pizza"
             [("tp", mkRestaurant "Tony's Pizza" "+15551234567" "tp" 100)] []
             (mkRestaurant "Tony's Pizza" "+15551234567" "tp" 100) []);
      [now right|reflexivity|reflexivity|intros r' []|reflexivity].
Defined.

(** ** The call-action policy *)

Lemma truthy_false (s : string) : truthy s = false <-> s = "".
Proof. destruct s; simpl; split; congruence. Qed.

(** No preference is ever stored under the empty channel:
    [storeCallAction] refuses it, and nothing else writes the store. *)
Lemma storeCallAction_no_empty_channel now channel callAction store :
  store !! "" = None ->
  storeCallAction now channel callAction store !! "" = None.
Proof.
  intros H. unfold storeCallAction.
  destruct channel as [|c channel]; simpl; [exact H|].
  now rewrite lookup_insert_ne.
Qed.

Lemma getCallAction_no_empty_channel now channel store :
  store !! "" = None -> (getCallAction now channel store).2 !! "" = None.
Proof.
  intros H. unfold getCallAction.
  destruct (negb (truthy channel)); [exact H|].
  destruct (store !! channel) as [stored|]; [|exact H].
  destruct (ca_timestamp stored <? now - oneHourMs); [|exact H].
  simpl. destruct (decide (channel = "")) as [->|Hne].
  - apply lookup_delete_eq.
  - now rewrite lookup_delete_ne.
Qed.

(** C8.  For every channel, on a store that holds nothing under the empty
    channel: [getCallAction] returns ['call_hermes'] and leaves the store
    alone when no preference is stored; it returns ['call_hermes'] and
    deletes the entry when the stored preference is more than one hour
    old; and it returns the stored action, leaving the store alone,
    otherwise. *)
Theorem getCallAction_default_and_expiry
    (now : Z) (channel : string) (store : gmap string CallActionEntry)
    (Hkeys : store !! "" = None) :
  defaultCallAction = "call_hermes"
  /\ (store !! channel = None ->
      getCallAction now channel store = (defaultCallAction, store))
  /\ (forall stored,
        store !! channel = Some stored ->
        now - ca_timestamp stored > 60 * 60 * 1000 ->
        getCallAction now channel store
        = (defaultCallAction, delete channel store)
        /\ (getCallAction now channel store).2 !! channel = None)
  /\ (forall stored,
        store !! channel = Some stored ->
        now - ca_timestamp stored <= 60 * 60 * 1000 ->
        getCallAction now channel store = (ca_callAction stored, store)).
Proof.
  split; [reflexivity|].
  unfold getCallAction.
  destruct (truthy channel) eqn:Hc; simpl.
  - split; [now intros ->|]. split.
    + intros stored -> Hold.
      assert ((ca_timestamp stored <? now - oneHourMs) = true) as ->.
      { apply Z.ltb_lt. unfold oneHourMs. lia. }
      split; [reflexivity|]. simpl. apply lookup_delete_eq.
    + intros stored -> Hfresh.
      assert ((ca_timestamp stored <? now - oneHourMs) = false) as ->.
      { apply Z.ltb_ge. unfold oneHourMs. lia. }
      reflexivity.
  - apply truthy_false in Hc. subst channel.
    split; [reflexivity|].
    split; intros stored Hs; rewrite Hkeys in Hs; discriminate.
Qed.

(** The theorem at a preference stored at time [0] and read one
    millisecond after the hour. *)
Lemma getCallAction_default_and_expiry_witness :
  let store := storeCallAction 0 "c1" "live" ∅ in
  getCallAction 3600001 "c1" store = (defaultCallAction, delete "c1" store)
  /\ getCallAction 3600000 "c1" store = ("live", store)
  /\ getCallAction 3600000 "c2" store = (defaultCallAction, store).
Proof.
  intros store.
  assert (Hkeys : store !! "" = None) by reflexivity.
  split; [|split].
  - pose proof (getCallAction_default_and_expiry 3600001 "c1" store Hkeys)
      as (_ & _ & H & _).
    apply (H (mkCallAction "live" 0)); [reflexivity|simpl; lia].
  - pose proof (getCallAction_default_and_expiry 3600000 "c1" store Hkeys)
      as (_ & _ & _ & H).
    apply (H (mkCallAction "live" 0)); [reflexivity|simpl; lia].
  - pose proof (getCallAction_default_and_expiry 3600000 "c2" store Hkeys)
      as (_ & H & _).
    apply H. reflexivity.
Defined.

(** ** Stopping a polling session *)

Lemma findSessionByChannel_none channel entries :
  findSessionByChannel channel entries = None <->
  (forall key session, In (key, session) entries ->
     ps_channel session <> channel).
Proof.
  induction entries as [|[k s] rest IH]; simpl.
  - split; [intros _ ? ? []|reflexivity].
  - destruct (String.eqb_spec (ps_channel s) channel) as [Heq|Hne].
    + split; [discriminate|]. intros H. exfalso.
      apply (H k s); [now left|exact Heq].
    + rewrite IH. split.
      * intros H key session [[= <- <-]|Hin]; eauto.
      * intros H key session Hin. apply (H key session). now right.
Qed.

Lemma uniqueKeys_set {V} (m : JsMap.t V) k v :
  uniqueKeys m = true -> uniqueKeys (JsMap.set m k v) = true.
Proof.
  induction m as [|[k0 v0] m IH]; simpl; [reflexivity|].
  intros [Hk Hm]%andb_true_iff.
  destruct (String.eqb_spec k0 k) as [->|Hne]; simpl.
  - now rewrite Hk, Hm.
  - rewrite IH by exact Hm. rewrite andb_true_r.
    unfold JsMap.has in *. now rewrite get_set_ne by congruence.
Qed.

Lemma has_delete {V} (m : JsMap.t V) k k' :
  JsMap.has m k' = false -> JsMap.has (JsMap.delete m k) k' = false.
Proof.
  unfold JsMap.has. intros H.
  destruct (String.eqb_spec k k') as [->|Hne].
  - now rewrite get_delete_eq.
  - now rewrite get_delete_ne.
Qed.

Lemma uniqueKeys_delete {V} (m : JsMap.t V) k :
  uniqueKeys m = true -> uniqueKeys (JsMap.delete m k) = true.
Proof.
  induction m as [|[k0 v0] m IH]; simpl; [reflexivity|].
  intros [Hk Hm]%andb_true_iff.
  destruct (String.eqb k0 k); simpl; [auto|].
  rewrite IH by exact Hm. rewrite andb_true_r.
  apply negb_true_iff. apply has_delete. now apply negb_true_iff.
Qed.

Lemma findSessionByChannel_some channel entries key session :
  uniqueKeys entries = true ->
  findSessionByChannel channel entries = Some (key, session) ->
  ps_channel session = channel
  /\ JsMap.get entries key = Some session
  /\ exists before after,
       entries = before ++ (key, session) :: after
       /\ forall k s, In (k, s) before -> ps_channel s <> channel.
Proof.
  induction entries as [|[k s] rest IH]; simpl; [discriminate|].
  intros [Hk Hu]%andb_true_iff.
  destruct (String.eqb_spec (ps_channel s) channel) as [Heq|Hne].
  - intros [= -> ->]. split; [exact Heq|]. rewrite String.eqb_refl.
    split; [reflexivity|]. exists [], rest. split; [reflexivity|].
    intros ? ? [].
  - intros H. destruct (IH Hu H) as (Hc & Hget & before & after & -> & Hb).
    split; [exact Hc|]. split.
    + destruct (String.eqb_spec k key) as [->|Hk']; [|exact Hget].
      apply has_get in Hget. rewrite Hget in Hk. discriminate.
    + exists ((k, s) :: before), after. split; [reflexivity|].
      intros k0 s0 [[= <- <-]|Hin]; eauto.
Qed.

Lemma findSessionByChannel_first channel before key session after :
  (forall k s, In (k, s) before -> ps_channel s <> channel) ->
  ps_channel session = channel ->
  findSessionByChannel channel (before ++ (key, session) :: after)
  = Some (key, session).
Proof.
  intros Hbefore Hc. induction before as [|[k s] before IH]; simpl.
  - destruct (String.eqb_spec (ps_channel session) channel);
      [reflexivity|contradiction].
  - destruct (String.eqb_spec (ps_channel s) channel) as [Heq|Hne].
    + exfalso. apply (Hbefore k s); [now left|exact Heq].
    + apply IH. intros k0 s0 Hin. apply (Hbefore k0 s0). now right.
Qed.

(** C9.  When [stopAgentPolling] finds no polling session it returns one of
    its two "no active" messages and leaves every store as it was; so the
    conversation context stays, and a dispatch guard that is held stays
    held. *)
Theorem stopAgentPolling_without_session
    (appId userId channel : string) (args : StopArgs) (st : Stores)
    (Hnone : noActiveSession channel args st) :
  let result := stopAgentPolling appId userId channel args st in
  (result.1 = "No active agent found to stop."
   \/ exists agentId,
        sa_agent_id args = Some agentId
        /\ result.1
           = "No active polling session found for agent " +:+ agentId +:+ ".")
  /\ result.2 = st
  /\ conversationContext result.2 !! channel = conversationContext st !! channel
  /\ activeSpecializedAgents result.2 !! channel
     = activeSpecializedAgents st !! channel
  /\ (guardHeld channel st = true -> guardHeld channel result.2 = true).
Proof.
  assert (H : let result := stopAgentPolling appId userId channel args st in
    (result.1 = "No active agent found to stop."
     \/ exists agentId,
          sa_agent_id args = Some agentId
          /\ result.1
             = "No active polling session found for agent " +:+ agentId
               +:+ ".")
    /\ result.2 = st).
  { unfold stopAgentPolling, locateSession.
    destruct Hnone as [[Hid Hsessions]|(agentId & Hid & Htruthy & Hget)].
    - rewrite Hid. simpl.
      apply findSessionByChannel_none in Hsessions. rewrite Hsessions.
      simpl. auto.
    - rewrite Hid. simpl. rewrite Htruthy. simpl. rewrite Hget. simpl.
      split; [right; now exists agentId|reflexivity]. }
  simpl in *. destruct H as [Hmsg Hst]. rewrite Hst. auto.
Qed.

(** The theorem after a dispatch whose provisioning never registered a
    session: the guard is held, [stop] finds nothing, the guard stays. *)
Lemma stopAgentPolling_without_session_witness :
  let st := acquireGuard "c1" emptyStores in
  let result := stopAgentPolling "app" "u1" "c1" (mkStopArgs None None) st in
  result.2 = st /\ guardHeld "c1" result.2 = true.
Proof.
  intros st result.
  assert (Hnone : noActiveSession "c1" (mkStopArgs None None) st).
  { left. split; [reflexivity|]. intros key session []. }
  pose proof (stopAgentPolling_without_session "app" "u1" "c1"
                (mkStopArgs None None) st Hnone) as (_ & H1 & _ & _ & H2).
  split; [exact H1|]. apply H2. reflexivity.
Defined.

Lemma stopAgentPolling_located appId userId channel args st key session agentId :
  uniqueKeys (activePollingSessions st) = true ->
  locatedSession channel args st key session agentId ->
  stopAgentPolling appId userId channel args st
  = ("✅ Stopped monitoring agent " +:+ agentId +:+ ". Reason: "
       +:+ orElse (sa_reason args) "manually stopped",
     set_activeSpecializedAgents (delete channel)
       (set_pollingCallbacks (delete channel)
          (set_activePollingSessions (fun m => JsMap.delete m key)
             match ps_intervalId session with
             | Some id => clearInterval id st
             | None => st
             end))).
Proof.
  intros Hu Hloc. unfold stopAgentPolling, locateSession.
  destruct Hloc as [(Hid & Ht & -> & Hget)
                   |(Hid & (before & after & Hentries & Hbefore) & Hc & -> & Ht)].
  - rewrite Hid. simpl. rewrite Ht. simpl. rewrite Hget. reflexivity.
  - rewrite Hid. simpl.
    pose proof (findSessionByChannel_first channel before key session after
                  Hbefore Hc) as Hfind.
    rewrite <- Hentries in Hfind. rewrite Hfind, Ht. simpl.
    apply findSessionByChannel_some in Hfind as (_ & Hget & _); [|exact Hu].
    unfold JsMap.entries in Hget. rewrite Hget. reflexivity.
Qed.


(** ** Background tasks *)

(** Induction on a task: through every resumption. *)
Lemma Task_induction {A} (P : Task A -> Prop) :
  (forall o, P (Settled o)) ->
  (forall k, (forall st, P (k st).2) -> P (Awaiting k)) ->
  forall t, P t.
Proof.
  intros Hsettled Hawaiting. fix IH 1. intros [o|k].
  - apply Hsettled.
  - apply Hawaiting. intros st. destruct (k st) as [st' t'] eqn:E.
    apply IH.
Qed.

Lemma onRejected_never_runs {A B} (part : Stores -> B) (t : Task A) handler :
  neverRejects t -> keeps part t -> keeps part (onRejected t handler).
Proof.
  induction t as [o|k IH] using Task_induction; intros Hn Hk; simpl.
  - inversion Hn; subst. constructor.
  - inversion Hn as [|k' Hn']; subst.
    inversion Hk as [|k' Hpart Hrest]; subst.
    constructor; intros st; specialize (IH st); specialize (Hn' st);
      specialize (Hpart st); specialize (Hrest st);
      destruct (k st) as [st' t']; simpl in *; auto.
Qed.

Lemma keeps_runTaskAmong {A B} (part : Stores -> B) (t : Task A)
    (others : nat -> Stores -> Stores) :
  keeps part t ->
  (forall i st, part (others i st) = part st) ->
  forall i st, part (runTaskAmong others i t st).1 = part st.
Proof.
  intros Hk Hothers.
  induction t as [o|k IH] using Task_induction; intros i st; simpl.
  - reflexivity.
  - inversion Hk as [|k' Hpart Hrest]; subst.
    specialize (Hpart (others i st)). specialize (Hrest (others i st)).
    specialize (IH (others i st)).
    destruct (k (others i st)) as [st' t']. simpl in *.
    rewrite IH by exact Hrest. now rewrite Hpart, Hothers.
Qed.

Lemma runTaskAmong_alone {A} (t : Task A) : forall i st,
  runTaskAmong (fun _ st => st) i t st = runTask t st.
Proof.
  induction t as [o|k IH] using Task_induction; intros i st; simpl.
  - reflexivity.
  - specialize (IH st). destruct (k st) as [st' t']. apply IH.
Qed.

Lemma neverRejects_runTaskAmong {A} (t : Task A) others : 
  neverRejects t ->
  forall i st, exists a, (runTaskAmong others i t st).2 = Returns a.
Proof.
  induction t as [o|k IH] using Task_induction; intros Hn i st; simpl.
  - inversion Hn; subst. now exists a.
  - inversion Hn as [|k' Hn']; subst.
    specialize (IH (others i st)). specialize (Hn' (others i st)).
    destruct (k (others i st)) as [st' t']. simpl in *. now apply IH.
Qed.

(** ** Provisioning never rejects and never touches the guard *)

Lemma getCallAction_guard now channel st :
  activeSpecializedAgents
    (set_callActionStore
       (fun _ => (getCallAction now channel (callActionStore st)).2) st)
  = activeSpecializedAgents st.
Proof. reflexivity. Qed.

Lemma startAgentPolling_guard appId userId channel agentId type st :
  activeSpecializedAgents (startAgentPolling appId userId channel agentId type st)
  = activeSpecializedAgents st.
Proof.
  unfold startAgentPolling.
  destruct (JsMap.get _ _) as [existing|]; [|reflexivity].
  destruct (ps_intervalId existing); reflexivity.
Qed.

(** Every failure inside [createSpecializedVoiceAgent] is turned into a
    returned string by its own [try]/[catch]: its promise always
    fulfils. *)
Lemma createSpecializedVoiceAgent_neverRejects
    env appId userId channel specialization phoneNumber :
  neverRejects
    (createSpecializedVoiceAgent env appId userId channel specialization
       phoneNumber).
Proof.
  unfold createSpecializedVoiceAgent.
  destruct (missingConfig _); [|constructor].
  destruct (getTTSConfig _); [|constructor].
  destruct (buildTokenWithUid _ _); [|constructor].
  constructor. intros st.
  destruct (fetchJoin env) as [agentResponse|]; [|constructor].
  destruct (negb (resp_ok agentResponse)).
  { destruct (resp_text agentResponse); constructor. }
  destruct (resp_json agentResponse) as [agent_id|]; [|constructor].
  destruct (getCallAction _ _ _) as [callAction store'].
  constructor. intros st'.
  destruct (placeCall _ _ _ _ _) as [callResult|]; [|constructor].
  destruct (_ || _); constructor.
Qed.

Lemma createSpecializedVoiceAgent_keeps_guard
    env appId userId channel specialization phoneNumber :
  keeps activeSpecializedAgents
    (createSpecializedVoiceAgent env appId userId channel specialization
       phoneNumber).
Proof.
  unfold createSpecializedVoiceAgent.
  destruct (missingConfig _); [|constructor].
  destruct (getTTSConfig _); [|constructor].
  destruct (buildTokenWithUid _ _); [|constructor].
  constructor; intros st;
    (destruct (fetchJoin env) as [agentResponse|];
       [|first [reflexivity|constructor]]);
    (destruct (negb (resp_ok agentResponse));
       [destruct (resp_text agentResponse); first [reflexivity|constructor]|]);
    (destruct (resp_json agentResponse) as [agent_id|];
       [|first [reflexivity|constructor]]);
    destruct (getCallAction _ _ _) as [callAction store'] eqn:Hpolicy.
  - destruct agent_id as [id|]; [destruct (truthy id)|]; reflexivity.
  - constructor; intros st';
      (destruct (placeCall _ _ _ _ _) as [callResult|];
         [|first [reflexivity|constructor]]);
      (destruct (_ || _); [first [reflexivity|constructor]|]).
    + destruct agent_id as [id|]; [destruct (truthy id)|]; try reflexivity.
      apply startAgentPolling_guard.
    + constructor.
Qed.

Lemma keeps_map {A B C} (part : Stores -> B) (f : B -> C) (t : Task A) :
  keeps part t -> keeps (fun st => f (part st)) t.
Proof.
  induction t as [o|k IH] using Task_induction; intros Hk.
  - constructor.
  - inversion Hk as [|k' Hpart Hrest]; subst.
    constructor; intros st; [now rewrite Hpart|]. apply IH, Hrest.
Qed.

(** Whatever happens to the provisioning or to the call, the background
    promise of a dispatch wrapper ends without having run its [catch]
    handler: it leaves the guard as it found it. *)
Lemma backgroundCreation_keeps_guard
    env appId userId channel specialization phoneNumber :
  keeps activeSpecializedAgents
    (backgroundCreation env appId userId channel specialization phoneNumber).
Proof.
  unfold backgroundCreation. apply onRejected_never_runs.
  - apply createSpecializedVoiceAgent_neverRejects.
  - apply createSpecializedVoiceAgent_keeps_guard.
Qed.

Lemma background_never_releases_guard
    env appId userId channel specialization phoneNumber
    (others : nat -> Stores -> Stores) (st : Stores) :
  (forall i s, guardHeld channel (others i s) = guardHeld channel s) ->
  guardHeld channel
    (runTaskAmong others 0
       (backgroundCreation env appId userId channel specialization phoneNumber)
       st).1
  = guardHeld channel st.
Proof.
  intros Hothers.
  apply (keeps_runTaskAmong (guardHeld channel)); [|exact Hothers].
  unfold guardHeld.
  apply (keeps_map activeSpecializedAgents
           (fun m => match m !! channel with Some b => b | None => false end)).
  apply backgroundCreation_keeps_guard.
Qed.

(** ** Failed dispatches *)

(** C2, the code at three failing dispatches (missing configuration,
    provisioning failure, call-placement failure): each leaves the guard
    held, although the [catch] handler of the wrapper is there to release
    it. *)
Theorem failed_dispatch_leaves_guard_held :
  guardLeftHeld missingConfigEnv
    "Error: Specialized voice agents require additional configuration. Missing environment variables: AGORA_CONVO_AI_BASE_URL. Please set these variables and restart the server."
  /\ guardLeftHeld provisioningFailsEnv
       "Error creating phone-ordering agent: 500 Internal Server Error - no capacity"
  /\ (exists failure,
        startsWith failure
          "phone-ordering agent created successfully, but phone call failed."
        = true
        /\ guardLeftHeld callFailsEnv failure).
Proof.
  split; [|split].
  - unfold guardLeftHeld. repeat split; reflexivity.
  - unfold guardLeftHeld. repeat split; reflexivity.
  - eexists. split; [|unfold guardLeftHeld; repeat split; reflexivity].
    reflexivity.
Qed.

(** ** Dispatch under the guard *)

(** The customer name is measured in code units: a name of one character
    is refused, whatever the number of its bytes, and a name of two is
    not. *)
Example implausibleCustomerName_counts_code_units :
  implausibleCustomerName "李" = true
  /\ implausibleCustomerName "李明" = false
  /\ implausibleCustomerName "CUSTOMER 1" = true.
Proof. repeat split. Qed.

Lemma guardHeld_acquire channel st : guardHeld channel (acquireGuard channel st) = true.
Proof. unfold guardHeld, acquireGuard. cbn. now rewrite lookup_insert_eq. Qed.

Lemma inquiry_under_guard env appId userId channel args st :
  guardHeld channel st = true ->
  let d := callAndAskQuestionAgent env appId userId channel args st in
  refused d st
  /\ (inquiryArgsPass args = true -> d_result d = alreadyActiveMessage).
Proof.
  intros Hheld. unfold callAndAskQuestionAgent, inquiryArgsPass, refused.
  destruct (truthy (iq_phone_number args)),
    (truthy (iq_restaurant_name args)), (truthy (iq_question args));
    cbn [negb orb andb]; rewrite ?Hheld; cbn [d_stores d_background d_result];
    repeat split; try reflexivity; discriminate.
Qed.

Lemma inquiry_without_guard env appId userId channel args st :
  guardHeld channel st = false -> inquiryArgsPass args = true ->
  accepted (callAndAskQuestionAgent env appId userId channel args st) channel.
Proof.
  intros Hfree Hpass. unfold callAndAskQuestionAgent, accepted.
  unfold inquiryArgsPass in Hpass.
  apply andb_true_iff in Hpass as [[H1 H2]%andb_true_iff H3].
  rewrite H1, H2, H3, Hfree. cbn [negb orb d_stores d_background d_result].
  split; [apply guardHeld_acquire|]. split; [eauto|reflexivity].
Qed.

Lemma order_under_guard env appId userId channel args st :
  guardHeld channel st = true ->
  let d := placePhoneOrderAgent env appId userId channel args st in
  refused d st
  /\ (orderArgsPass (restaurantIndex st) userId args = true ->
      d_result d = alreadyActiveMessage).
Proof.
  intros Hheld. unfold placePhoneOrderAgent, orderArgsPass, refused.
  destruct (truthy (or_phone_number args)),
    (truthy (or_restaurant_name args)), (truthy (or_customer_name args)),
    (truthy (or_food_items args)), (truthy (or_delivery_type args)),
    (truthy (or_delivery_address args));
    cbn [negb orb andb]; cbn [d_stores d_background d_result];
    try (repeat split; try reflexivity; discriminate).
  destruct (implausibleCustomerName (or_customer_name args));
    cbn [negb andb d_stores d_background d_result];
    try (repeat split; try reflexivity; discriminate).
  destruct (resolveOrderPhone (restaurantIndex st) userId args);
    rewrite ?Hheld; cbn [d_stores d_background d_result];
    repeat split; try reflexivity; discriminate.
Qed.

Lemma order_without_guard env appId userId channel args st :
  guardHeld channel st = false ->
  orderArgsPass (restaurantIndex st) userId args = true ->
  accepted (placePhoneOrderAgent env appId userId channel args st) channel.
Proof.
  intros Hfree Hpass. unfold placePhoneOrderAgent, accepted.
  unfold orderArgsPass in Hpass.
  repeat (apply andb_true_iff in Hpass as [Hpass ?]).
  match goal with H : negb _ = true |- _ => apply negb_true_iff in H end.
  destruct (resolveOrderPhone (restaurantIndex st) userId args) as [phone|];
    [|discriminate].
  repeat match goal with H : _ = _ |- _ => rewrite H end.
  cbn [negb orb d_stores d_background d_result].
  split; [apply guardHeld_acquire|]. split; [eauto|reflexivity].
Qed.

Lemma reservation_under_guard env appId userId channel args st :
  guardHeld channel st = true ->
  let d := makeReservationAgent env appId userId channel args st in
  refused d st
  /\ (reservationArgsPass args = true -> d_result d = alreadyActiveMessage).
Proof.
  intros Hheld. unfold makeReservationAgent, reservationArgsPass, refused.
  destruct (truthy (rs_phone_number args)),
    (truthy (rs_restaurant_name args)), (truthy (rs_customer_name args)),
    (rs_party_size args =? 0), (truthy (rs_time_preferences args));
    cbn [negb orb andb]; cbn [d_stores d_background d_result];
    try (repeat split; try reflexivity; discriminate).
  destruct (implausibleCustomerName (rs_customer_name args));
    cbn [negb andb d_stores d_background d_result];
    try (repeat split; try reflexivity; discriminate).
  destruct (matchesPhonePattern (rs_phone_number args));
    cbn [negb andb]; rewrite ?Hheld; cbn [d_stores d_background d_result];
    repeat split; try reflexivity; discriminate.
Qed.

Lemma reservation_without_guard env appId userId channel args st :
  guardHeld channel st = false -> reservationArgsPass args = true ->
  accepted (makeReservationAgent env appId userId channel args st) channel.
Proof.
  intros Hfree Hpass. unfold makeReservationAgent, accepted.
  unfold reservationArgsPass in Hpass.
  repeat (apply andb_true_iff in Hpass as [Hpass ?]).
  repeat match goal with H : negb _ = true |- _ => apply negb_true_iff in H end.
  repeat match goal with H : _ = _ |- _ => rewrite H end.
  cbn [negb orb d_stores d_background d_result].
  split; [apply guardHeld_acquire|]. split; [eauto|reflexivity].
Qed.

(** C1, as the code has it.  While the dispatch guard of a channel is
    held, every call of the three dispatch wrappers for the channel is
    refused at once: it returns an error string, starts nothing in the
    background (no agent is provisioned) and leaves every store as it was;
    the error is the "already active" one whenever the arguments pass the
    wrapper's own validation, which comes first.  And once
    [stopAgentPolling] has stopped the channel's session, the guard is
    free and a call whose arguments pass validation is accepted. *)
Theorem dispatch_refused_while_guard_held
    (env : Env) (appId userId channel : string) (st : Stores)
    (Hheld : guardHeld channel st = true) :
  (forall args,
     let d := callAndAskQuestionAgent env appId userId channel args st in
     refused d st
     /\ (inquiryArgsPass args = true -> d_result d = alreadyActiveMessage))
  /\ (forall args,
        let d := placePhoneOrderAgent env appId userId channel args st in
        refused d st
        /\ (orderArgsPass (restaurantIndex st) userId args = true ->
            d_result d = alreadyActiveMessage))
  /\ (forall args,
        let d := makeReservationAgent env appId userId channel args st in
        refused d st
        /\ (reservationArgsPass args = true ->
            d_result d = alreadyActiveMessage))
  /\ (forall stopArgs key session agentId,
        uniqueKeys (activePollingSessions st) = true ->
        locatedSession channel stopArgs st key session agentId ->
        let st' := (stopAgentPolling appId userId channel stopArgs st).2 in
        guardHeld channel st' = false
        /\ (forall args, inquiryArgsPass args = true ->
              accepted
                (callAndAskQuestionAgent env appId userId channel args st')
                channel)
        /\ (forall args,
              orderArgsPass (restaurantIndex st) userId args = true ->
              accepted (placePhoneOrderAgent env appId userId channel args st')
                channel)
        /\ (forall args, reservationArgsPass args = true ->
              accepted (makeReservationAgent env appId userId channel args st')
                channel)).
Proof.
  split; [intros args; now apply inquiry_under_guard|].
  split; [intros args; now apply order_under_guard|].
  split; [intros args; now apply reservation_under_guard|].
  intros stopArgs key session agentId Hunique Hlocated st'.
  assert (Hfree : guardHeld channel st' = false
                  /\ restaurantIndex st' = restaurantIndex st).
  { subst st'.
    rewrite (stopAgentPolling_located _ _ _ _ _ _ _ _ Hunique Hlocated).
    cbn [snd]. unfold guardHeld.
    destruct (ps_intervalId session); cbn; now rewrite lookup_delete_eq. }
  destruct Hfree as [Hfree Hindex].
  split; [exact Hfree|].
  split; [intros args Hpass; now apply inquiry_without_guard|].
  split; [|intros args Hpass; now apply reservation_without_guard].
  intros args Hpass. apply order_without_guard; [exact Hfree|].
  now rewrite Hindex.
Qed.

(** The scenario of the specification on channel ["c1"]: an order is
    accepted, its agent is provisioned and registered; a second order is
    refused as "already active"; after [stop], a third one is accepted. *)
Lemma dispatch_refused_while_guard_held_witness :
  let first :=
    placePhoneOrderAgent workingEnv "app" "u1" "c1" sampleOrder emptyStores in
  let st := settle first in
  let second := placePhoneOrderAgent workingEnv "app" "u1" "c1" sampleOrder st in
  let st' :=
    (stopAgentPolling "app" "u1" "c1" (mkStopArgs None None) st).2 in
  let third := placePhoneOrderAgent workingEnv "app" "u1" "c1" sampleOrder st' in
  accepted first "c1"
  /\ refused second st /\ d_result second = alreadyActiveMessage
  /\ guardHeld "c1" st' = false
  /\ accepted third "c1".
Proof.
  intros first st second st' third.
  assert (Hheld : guardHeld "c1" st = true) by reflexivity.
  pose proof (dispatch_refused_while_guard_held workingEnv "app" "u1" "c1" st
                Hheld) as (_ & Horder & _ & Hstop).
  split.
  { split; [reflexivity|]. split; [eexists; reflexivity|reflexivity]. }
  destruct (Horder sampleOrder) as [Hrefused Hactive].
  split; [exact Hrefused|]. split; [apply Hactive; reflexivity|].
  assert (Hloc : locatedSession "c1" (mkStopArgs None None) st "c1-agent-1"
                   (mkSession "agent-1" "u1" "c1" "phone-ordering" 0
                      "STARTING" 0 None) "agent-1").
  { right. split; [reflexivity|]. split.
    - exists [], []. split; [reflexivity|]. intros k s [].
    - repeat split; reflexivity. }
  destruct (Hstop (mkStopArgs None None) "c1-agent-1" _ "agent-1" eq_refl Hloc)
    as (Hfree & _ & Hthird & _).
  split; [exact Hfree|]. apply Hthird. reflexivity.
Defined.

(** C1 as stated fails: with the guard of ["c1"] held, an order that lacks
    the customer name is refused with the validation error, not with the
    "already active" one. *)
Lemma dispatch_under_guard_counterexample :
  let st := acquireGuard "c1" emptyStores in
  let d :=
    placePhoneOrderAgent workingEnv "app" "u1" "c1"
      (mkOrderArgs "+15551234567" "Tony's Pizza" "" "1 margherita" "pickup"
         "none") st in
  guardHeld "c1" st = true
  /\ d_result d
     = "Error: Missing required field(s): customer_name. Please confirm all details with the user before proceeding."
  /\ d_result d <> alreadyActiveMessage.
Proof.
  intros st d. split; [reflexivity|]. split; [reflexivity|].
  vm_compute. discriminate.
Qed.

(** ** The tool-call loop *)

Section DispatcherFacts.

Context {World JsonValue Params Extras : Type}.
Context (JSON_parse : string -> Outcome JsonValue).
Context (versionedFunctions : string -> option (FunctionHandler World JsonValue)).
Context (create : CompletionRequest Params Extras -> World ->
                  Outcome ChatCompletion * World).

Local Abbreviation step := (processToolCall JSON_parse versionedFunctions).
Local Abbreviation loop := (processToolCalls JSON_parse versionedFunctions).
Local Abbreviation LState := (LoopState World JsonValue).
Local Abbreviation settled := (settledName versionedFunctions).

Lemma step_skips_executed context toolCall (s : LState) :
  tc_name toolCall ∈ executedFunctions s ->
  step context toolCall s = Continue s.
Proof.
  intros Hin. unfold processToolCall.
  now rewrite bool_decide_eq_true_2.
Qed.

Lemma step_skips_unknown context toolCall (s : LState) :
  versionedFunctions (tc_name toolCall) = None ->
  step context toolCall s = Continue s.
Proof.
  intros Hnone. unfold processToolCall. rewrite Hnone.
  now destruct (bool_decide _).
Qed.

Lemma step_executed_grows context toolCall (s : LState) :
  executedFunctions s ⊆ executedFunctions (stateOf (step context toolCall s)).
Proof.
  unfold processToolCall.
  repeat case_match; simpl; set_solver.
Qed.

Lemma loop_executed_grows context toolCalls : forall (s : LState),
  executedFunctions s ⊆ executedFunctions (stateOf (loop context toolCalls s)).
Proof.
  induction toolCalls as [|toolCall rest IH]; intros s; simpl; [done|].
  pose proof (step_executed_grows context toolCall s) as Hstep.
  destruct (step context toolCall s) as [s'|s' e]; simpl in *; [|done].
  specialize (IH s'). set_solver.
Qed.

Lemma invokedOnce_snoc (s : LState) name (args : JsonValue) executed :
  invokedOnce s -> name ∉ executedFunctions s ->
  executed = executedFunctions s ∪ {[ name ]} ->
  forall msgs flag (w : World),
    invokedOnce (mkLoop msgs flag executed w (invoked s ++ [(name, args)])).
Proof.
  intros [Hnodup Hsub] Hfresh -> msgs flag w. split; simpl.
  - rewrite map_app. simpl. apply NoDup_app. split; [exact Hnodup|].
    split; [|apply NoDup_singleton].
    intros x Hx Hx'. apply list_elem_of_In in Hx.
    apply list_elem_of_singleton in Hx'. subst x. auto.
  - intros x. rewrite map_app, in_app_iff. simpl.
    intros [Hx|[<-|[]]]; [|set_solver]. apply Hsub in Hx. set_solver.
Qed.

Lemma step_invokedOnce context toolCall (s : LState) :
  invokedOnce s -> invokedOnce (stateOf (step context toolCall s)).
Proof.
  intros Hinv. unfold processToolCall.
  case_bool_decide as Hexecuted; [exact Hinv|].
  destruct (versionedFunctions (tc_name toolCall)) as [handler|]; [|exact Hinv].
  destruct (isPhoneCallFunction _ && _).
  { destruct Hinv as [Hnodup Hsub]. split; assumption. }
  destruct (JSON_parse _) as [functionArgs|e]; simpl.
  2: { destruct Hinv as [Hnodup Hsub]. split; simpl; [exact Hnodup|].
       intros x Hx. apply Hsub in Hx. set_solver. }
  destruct (handler _ _ _ _ _) as [[result|e] w]; simpl.
  - destruct (responseTypeOf _) as [[]|]; simpl;
      now apply invokedOnce_snoc.
  - now apply invokedOnce_snoc.
Qed.

Lemma loop_invokedOnce context toolCalls : forall (s : LState),
  invokedOnce s -> invokedOnce (stateOf (loop context toolCalls s)).
Proof.
  induction toolCalls as [|toolCall rest IH]; intros s Hinv; simpl;
    [exact Hinv|].
  pose proof (step_invokedOnce context toolCall s Hinv) as Hstep.
  destruct (step context toolCall s) as [s'|s' e]; simpl in *; auto.
Qed.

Lemma step_skips_settled context toolCall (s : LState) :
  settled s (tc_name toolCall) -> step context toolCall s = Continue s.
Proof.
  intros [H|H]; [now apply step_skips_executed|now apply step_skips_unknown].
Qed.

Lemma step_settles context toolCall (s s' : LState) :
  isPhoneCallFunction (tc_name toolCall) = false ->
  step context toolCall s = Continue s' ->
  settled s' (tc_name toolCall).
Proof.
  intros Hphone. unfold processToolCall, settled.
  case_bool_decide as Hexecuted; [intros [= <-]; now left|].
  destruct (versionedFunctions (tc_name toolCall)) as [handler|];
    [|intros _; now right].
  rewrite Hphone. cbn [andb].
  destruct (JSON_parse _) as [functionArgs|e]; [|discriminate].
  destruct (handler _ _ _ _ _) as [[result|e] w]; [|discriminate].
  destruct (responseTypeOf _) as [[]|]; intros [= <-]; left; simpl;
    set_solver.
Qed.

Lemma settled_step context toolCall (s : LState) name :
  settled s name -> settled (stateOf (step context toolCall s)) name.
Proof.
  intros [H|H]; [left|now right].
  pose proof (step_executed_grows context toolCall s). set_solver.
Qed.

Lemma loop_settles context toolCalls : forall (s s' : LState) name,
  (settled s name
   \/ (In name (map tc_name toolCalls) /\ isPhoneCallFunction name = false)) ->
  loop context toolCalls s = Continue s' ->
  settled s' name.
Proof.
  induction toolCalls as [|toolCall rest IH]; intros s s' name Hname; simpl.
  - intros [= <-]. destruct Hname as [H|[[] _]]. exact H.
  - destruct (step context toolCall s) as [s1|s1 e] eqn:Hstep; [|discriminate].
    apply IH. destruct Hname as [H|[[<-|Hin] Hphone]].
    + left. pose proof (settled_step context toolCall s name H) as H'.
      now rewrite Hstep in H'.
    + left. eapply step_settles; eauto.
    + right. auto.
Qed.

Lemma step_messages context toolCall (s s' : LState) :
  step context toolCall s = Continue s' ->
  exists results,
    fullMessages s' = fullMessages s ++ results
    /\ Forall (fun msg => role msg = tool) results
    /\ hasDataTools s'
       = match results with [] => hasDataTools s | _ => true end.
Proof.
  unfold processToolCall.
  assert (Hsame : exists results : list ChatMessage,
            fullMessages s = fullMessages s ++ results
            /\ Forall (fun msg => role msg = tool) results
            /\ hasDataTools s
               = match results with [] => hasDataTools s | _ => true end).
  { exists []. rewrite app_nil_r. auto. }
  case_bool_decide as Hexecuted; [intros [= <-]; exact Hsame|].
  destruct (versionedFunctions (tc_name toolCall)) as [handler|];
    [|intros [= <-]; exact Hsame].
  destruct (isPhoneCallFunction _ && _).
  { intros [= <-]. eexists [_]. simpl. repeat split. now constructor. }
  destruct (JSON_parse _) as [functionArgs|e]; [|discriminate].
  destruct (handler _ _ _ _ _) as [[result|e] w]; [|discriminate].
  destruct (responseTypeOf _) as [[]|]; intros [= <-]; simpl.
  - eexists [_]. repeat split. now constructor.
  - eexists [_]. repeat split. now constructor.
  - exact Hsame.
Qed.

Lemma loop_messages context toolCalls : forall (s s' : LState),
  loop context toolCalls s = Continue s' ->
  exists results,
    fullMessages s' = fullMessages s ++ results
    /\ Forall (fun msg => role msg = tool) results
    /\ hasDataTools s'
       = match results with [] => hasDataTools s | _ => true end.
Proof.
  induction toolCalls as [|toolCall rest IH]; intros s s'; simpl.
  - intros [= <-]. exists []. rewrite app_nil_r. auto.
  - destruct (step context toolCall s) as [s1|s1 e] eqn:Hstep; [|discriminate].
    intros Hrest.
    destruct (step_messages _ _ _ _ Hstep) as (r1 & Hm1 & Ht1 & Hf1).
    destruct (IH _ _ Hrest) as (r2 & Hm2 & Ht2 & Hf2).
    exists (r1 ++ r2). rewrite Hm2, Hm1, app_assoc.
    split; [reflexivity|]. split; [now apply Forall_app|].
    rewrite Hf2, Hf1. destruct r1, r2; reflexivity.
Qed.

End DispatcherFacts.

Section DispatcherTheorems.

Context {World JsonValue Params Extras : Type}.
Context (JSON_parse : string -> Outcome JsonValue).
Context (versionedFunctions : string -> option (FunctionHandler World JsonValue)).
Context (create : CompletionRequest Params Extras -> World ->
                  Outcome ChatCompletion * World).

Local Abbreviation step := (processToolCall JSON_parse versionedFunctions).
Local Abbreviation loop := (processToolCalls JSON_parse versionedFunctions).
Local Abbreviation run :=
  (processNonStreamingRequest JSON_parse versionedFunctions create).

Lemma run_invoked_once requestOptions messages context (w : World) :
  NoDup (map fst (run_invoked (run requestOptions messages context w))).
Proof.
  unfold processNonStreamingRequest.
  destruct (create _ w) as [[response|e] w1]; simpl; [|constructor].
  destruct (firstChoiceMessage response) as [choice|]; simpl; [|constructor].
  destruct (rm_tool_calls choice) as [[|toolCall rest]|]; simpl;
    try constructor.
  set (start := mkLoop _ false ∅ w1 []).
  assert (Hstart : invokedOnce start).
  { split; simpl; [constructor|intros name []]. }
  pose proof (loop_invokedOnce JSON_parse versionedFunctions context
                (toolCall :: rest) start Hstart) as [Hnodup _].
  simpl in Hnodup.
  destruct (match step context toolCall start with
            | Continue s' => loop context rest s'
            | Abort s' e => Abort s' e
            end) as [s|s e]; simpl in *; [|exact Hnodup].
  destruct (hasDataTools s); [|exact Hnodup].
  destruct (create _ (world s)) as [[finalResponse|e] w2]; exact Hnodup.
Qed.

(** C4, as the code has it.  In one turn's tool-call loop no function name
    has its handler invoked twice, however many of the turn's requests
    carry the name; a request whose name has already been executed in the
    turn is skipped, leaving the messages, the invocation log and the
    world as they were; and a request that repeats the name of an earlier
    request of the turn is always skipped in that way when the name is
    not one of the three call-placing names.  A request for a call-placing
    name that is answered by the "call already active" notice, because the
    last fifteen messages speak of a call or of someone who joined, adds
    that notice as a tool result and does not mark the name as executed:
    a repeated request for it is processed again. *)
Theorem handler_invoked_at_most_once
    (requestOptions : RequestOptions Params Extras)
    (context : RequestContext) (toolCalls : list ToolCall)
    (messages : list ChatMessage) (w : World) :
  let start := mkLoop messages false ∅ w [] in
  NoDup (map fst (invoked (stateOf (loop context toolCalls start))))
  /\ NoDup (map fst (run_invoked (run requestOptions messages context w)))
  /\ (forall before toolCall after s,
        toolCalls = before ++ toolCall :: after ->
        loop context before start = Continue s ->
        (In (tc_name toolCall) (map fst (invoked s)) ->
         tc_name toolCall ∈ executedFunctions s)
        /\ (tc_name toolCall ∈ executedFunctions s ->
            step context toolCall s = Continue s)
        /\ (In (tc_name toolCall) (map tc_name before) ->
            isPhoneCallFunction (tc_name toolCall) = false ->
            step context toolCall s = Continue s))
  /\ (forall toolCall s handler,
        tc_name toolCall ∉ executedFunctions s ->
        versionedFunctions (tc_name toolCall) = Some handler ->
        isPhoneCallFunction (tc_name toolCall) = true ->
        existsb mentionsRecentCall (lastFifteen (fullMessages s))
        || existsb soundsLikeSomeoneJoined (lastFifteen (fullMessages s))
        = true ->
        step context toolCall s
        = Continue
            (mkLoop
               (fullMessages s
                ++ [toolMessage
                      (if existsb soundsLikeSomeoneJoined
                            (lastFifteen (fullMessages s))
                       then someoneJoinedNotice
                       else recentCallNotice)
                      (tc_id toolCall)])
               true (executedFunctions s) (world s) (invoked s))).
Proof.
  intros start.
  assert (Hstart : invokedOnce start).
  { split; simpl; [constructor|intros name []]. }
  split.
  { apply (loop_invokedOnce JSON_parse versionedFunctions context toolCalls
             start Hstart). }
  split; [apply run_invoked_once|].
  split.
  - intros before toolCall after s _ Hbefore.
    split; [|split].
    + pose proof (loop_invokedOnce JSON_parse versionedFunctions context before
                    start Hstart) as [_ Hsub].
      rewrite Hbefore in Hsub. apply Hsub.
    + apply step_skips_executed.
    + intros Hin Hphone. apply step_skips_settled.
      eapply loop_settles; [|exact Hbefore]. right. auto.
  - intros toolCall s handler Hfresh Hhandler Hphone Hevidence.
    unfold processToolCall.
    rewrite bool_decide_eq_false_2 by exact Hfresh.
    rewrite Hhandler, Hphone, Hevidence. reflexivity.
Qed.

(** C5, as the code has it.  When the tool-call loop of a turn completes,
    the messages it leaves are the history, the assistant message of the
    turn and the tool results produced, in that order.  If no tool result
    was produced, the original response is returned and no other request
    is made.  If at least one was produced, exactly one follow-up request
    is made; it carries every tool result; for every model but
    ['qwen-3-32b'] its messages are the system, user and tool messages of
    that list (every assistant message is dropped), for ['qwen-3-32b']
    they are the whole list; and when the follow-up completes, its answer
    is what the turn returns. *)
Theorem follow_up_after_tool_results
    (requestOptions : RequestOptions Params Extras)
    (messages : list ChatMessage) (context : RequestContext) (w w1 : World)
    (response : ChatCompletion) (choice : ResponseMessage)
    (toolCalls : list ToolCall) (s : LoopState World JsonValue)
    (Hfirst :
       create
         (mkRequest (ro_model requestOptions) (ro_messages requestOptions)
            (ro_params requestOptions) (Some (ro_extras requestOptions))) w
       = (Returns response, w1))
    (Hchoice : firstChoiceMessage response = Some choice)
    (Hcalls : rm_tool_calls choice = Some toolCalls)
    (Hsome : toolCalls <> [])
    (Hloop :
       loop context toolCalls
         (mkLoop
            (messages ++ [mkMessage assistant (rm_content choice) None toolCalls])
            false ∅ w1 [])
       = Continue s) :
  let firstRequest :=
    mkRequest (ro_model requestOptions) (ro_messages requestOptions)
      (ro_params requestOptions) (Some (ro_extras requestOptions)) in
  let result := run requestOptions messages context w in
  exists results,
    fullMessages s
    = (messages ++ [mkMessage assistant (rm_content choice) None toolCalls])
      ++ results
    /\ Forall (fun msg => role msg = tool) results
    /\ (results = [] ->
        run_outcome result = Returns response
        /\ run_requests result = [firstRequest])
    /\ (results <> [] ->
        exists finalRequest,
          run_requests result = [firstRequest; finalRequest]
          /\ rq_model finalRequest = ro_model requestOptions
          /\ rq_messages finalRequest
             = (if String.eqb (ro_model requestOptions) "qwen-3-32b"
                then fullMessages s
                else List.filter keptForFinalRequest (fullMessages s))
          /\ (ro_model requestOptions <> "qwen-3-32b" ->
              Forall
                (fun msg =>
                   role msg = system \/ role msg = user \/ role msg = tool)
                (rq_messages finalRequest))
          /\ Forall (fun msg => In msg (rq_messages finalRequest)) results
          /\ run_outcome result
             = match (create finalRequest (world s)).1 with
               | Returns finalResponse => Returns finalResponse
               | Throws _ => Throws cerebrasFailure
               end).
Proof.
  intros firstRequest result.
  destruct (loop_messages JSON_parse versionedFunctions context toolCalls _ _
              Hloop) as (results & Hmsgs & Htool & Hflag).
  simpl in Hmsgs, Hflag.
  exists results. split; [exact Hmsgs|]. split; [exact Htool|].
  subst result. unfold processNonStreamingRequest. fold firstRequest.
  fold firstRequest in Hfirst. rewrite Hfirst, Hchoice, Hcalls.
  destruct toolCalls as [|toolCall rest]; [contradiction|].
  rewrite Hloop.
  split.
  - intros ->. rewrite Hflag. simpl. auto.
  - intros Hresults.
    assert (Hset : hasDataTools s = true).
    { rewrite Hflag. destruct results; [contradiction|reflexivity]. }
    rewrite Hset.
    set (finalMessages :=
           if negb (String.eqb (ro_model requestOptions) "qwen-3-32b")
           then List.filter keptForFinalRequest (fullMessages s)
           else fullMessages s).
    set (finalRequest :=
           mkRequest (ro_model requestOptions) finalMessages
             (ro_params requestOptions) None).
    exists finalRequest.
    assert (Hfinal : finalMessages
                     = if String.eqb (ro_model requestOptions) "qwen-3-32b"
                       then fullMessages s
                       else List.filter keptForFinalRequest (fullMessages s)).
    { unfold finalMessages. now destruct (String.eqb _ _). }
    split.
    { destruct (create finalRequest (world s)) as [[r|e] w2]; reflexivity. }
    split; [reflexivity|]. split; [exact Hfinal|]. split; [|split].
    + intros Hmodel. simpl. rewrite Hfinal.
      destruct (String.eqb_spec (ro_model requestOptions) "qwen-3-32b");
        [contradiction|].
      apply List.Forall_forall. intros msg [_ Hkept]%filter_In.
      unfold keptForFinalRequest in Hkept.
      destruct (role msg); auto; discriminate.
    + simpl. rewrite Hfinal, Hmsgs.
      apply List.Forall_forall. intros msg Hin.
      assert (Hrole : role msg = tool).
      { rewrite List.Forall_forall in Htool. now apply Htool. }
      destruct (String.eqb _ _).
      * apply in_or_app. now right.
      * apply filter_In. split; [apply in_or_app; now right|].
        unfold keptForFinalRequest. rewrite Hrole. reflexivity.
    + destruct (create finalRequest (world s)) as [[r|e] w2]; reflexivity.
Qed.

End DispatcherTheorems.

(** ** The loop at work *)

(** The theorem at a turn with one data tool call, on the default model:
    one follow-up request, without the assistant message, whose answer is
    returned. *)
Lemma follow_up_after_tool_results_witness :
  let result :=
    processNonStreamingRequest demoParse demoFunctions
      (demoCreate [detailsCall])
      (demoOptions "llama-4-scout-17b-16e-instruct") demoHistory demoContext
      tt in
  exists finalRequest,
    run_requests result
    = [mkRequest "llama-4-scout-17b-16e-instruct" demoHistory tt (Some tt);
       finalRequest]
    /\ rq_messages finalRequest
       = demoHistory
         ++ [toolMessage "Details of Tony's Pizza" "t1"].
Proof.
  intros result.
  destruct (follow_up_after_tool_results demoParse demoFunctions
              (demoCreate [detailsCall])
              (demoOptions "llama-4-scout-17b-16e-instruct") demoHistory
              demoContext tt tt
              (demoToolResponse [detailsCall])
              (mkResponseMessage NoContent (Some [detailsCall]))
              [detailsCall]
              (mkLoop
                 (demoHistory
                  ++ [mkMessage assistant NoContent None [detailsCall]]
                  ++ [toolMessage "Details of Tony's Pizza" "t1"])
                 true {[ "get_restaurant_details" ]} tt
                 [("get_restaurant_details", "Tony's Pizza")])
              eq_refl eq_refl eq_refl ltac:(discriminate) eq_refl)
    as (results & Hmsgs & _ & _ & Hfollow).
  assert (Hresults : results = [toolMessage "Details of Tony's Pizza" "t1"]).
  { simpl in Hmsgs. now injection Hmsgs. }
  destruct Hfollow as (finalRequest & Hreq & _ & Hfinal & _).
  { rewrite Hresults. discriminate. }
  exists finalRequest. split; [exact Hreq|]. rewrite Hfinal. reflexivity.
Defined.

(** C5 as stated fails.  On model ['qwen-3-32b'] the follow-up request
    still carries the assistant message of the turn.  And on any model, a
    turn whose first tool call produced a result and whose second has
    arguments that do not parse makes no follow-up request: it ends in the
    error of the [catch]. *)
Lemma follow_up_keeps_assistant_counterexample :
  let result :=
    processNonStreamingRequest demoParse demoFunctions
      (demoCreate [detailsCall]) (demoOptions "qwen-3-32b") demoHistory
      demoContext tt in
  let aborted :=
    processNonStreamingRequest demoParse demoFunctions
      (demoCreate [detailsCall; mkToolCall "t2" "call_phone" "{"])
      (demoOptions "llama-4-scout-17b-16e-instruct") demoHistory demoContext
      tt in
  (run_requests result
   = [mkRequest "qwen-3-32b" demoHistory tt (Some tt);
      mkRequest "qwen-3-32b"
        (demoHistory
         ++ [mkMessage assistant NoContent None [detailsCall];
             toolMessage "Details of Tony's Pizza" "t1"])
        tt None]
   /\ run_outcome result
      = Returns
          (mkCompletion "final"
             (Some [Some (mkResponseMessage (Text "Tony's Pizza is open.")
                            None)]))
   /\ ~ Forall
          (fun msg => role msg = system \/ role msg = user \/ role msg = tool)
          (demoHistory
           ++ [mkMessage assistant NoContent None [detailsCall];
               toolMessage "Details of Tony's Pizza" "t1"]))
  /\ (run_messages aborted
      = demoHistory
        ++ [mkMessage assistant NoContent None
              [detailsCall; mkToolCall "t2" "call_phone" "{"];
            toolMessage "Details of Tony's Pizza" "t1"]
      /\ run_requests aborted
         = [mkRequest "llama-4-scout-17b-16e-instruct" demoHistory tt
              (Some tt)]
      /\ run_outcome aborted = Throws cerebrasFailure).
Proof.
  intros result aborted. split.
  - split; [reflexivity|]. split; [reflexivity|].
    intros H. simpl in H.
    inversion H as [|? ? _ H1]; subst. inversion H1 as [|? ? _ H2]; subst.
    inversion H2 as [|? ? Hrole _]; subst.
    destruct Hrole as [Hrole|[Hrole|Hrole]]; discriminate Hrole.
  - repeat split; reflexivity.
Qed.

(** C4 as stated fails: the second of two [call_phone] requests is not
    skipped; it is answered, like the first, with a tool-result message,
    the same notice again (no handler is invoked). *)
Lemma repeated_call_answered_twice_counterexample :
  processToolCalls demoParse demoFunctions demoContext repeatedCall
    (mkLoop callHistory false ∅ tt [])
  = Continue
      (mkLoop
         (callHistory
          ++ [toolMessage recentCallNotice "t1";
              toolMessage recentCallNotice "t2"])
         true ∅ tt [])
  /\ processToolCall demoParse demoFunctions demoContext
       (mkToolCall "t2" "call_phone" "{}")
       (mkLoop (callHistory ++ [toolMessage recentCallNotice "t1"]) true ∅ tt
          [])
     <> Continue
          (mkLoop (callHistory ++ [toolMessage recentCallNotice "t1"]) true ∅
             tt []).
Proof.
  split; [reflexivity|]. vm_compute. intros H. discriminate H.
Qed.

(** The same loop on two requests for a data tool: the second is skipped,
    one invocation, one tool result. *)
Lemma repeated_data_request_skipped :
  processToolCalls demoParse demoFunctions demoContext
    [detailsCall; mkToolCall "t2" "get_restaurant_details" "Tony's Pizza"]
    (mkLoop demoHistory false ∅ tt [])
  = Continue
      (mkLoop
         (demoHistory ++ [toolMessage "Details of Tony's Pizza" "t1"])
         true {[ "get_restaurant_details" ]} tt
         [("get_restaurant_details", "Tony's Pizza")]).
Proof. vm_compute. reflexivity. Qed.

(* ===================================================================== *)
(** * Further properties of the code *)
(* ===================================================================== *)

(** ** The phone directory *)

Lemma has_keys {V} (m : JsMap.t V) (k : string) :
  JsMap.has m k = bool_decide (k ∈ JsMap.keys m).
Proof.
  unfold JsMap.has. induction m as [|[k' v] m IH].
  - symmetry. apply bool_decide_eq_false_2, not_elem_of_nil.
  - cbn [JsMap.get JsMap.keys map fst]. destruct (String.eqb k' k) eqn:E.
    + apply String.eqb_eq in E. subst.
      symmetry. apply bool_decide_eq_true_2, elem_of_cons. auto.
    + apply String.eqb_neq in E. rewrite IH.
      apply bool_decide_ext. unfold JsMap.keys. rewrite elem_of_cons.
      split; [auto|]. intros [H|H]; [congruence | exact H].
Qed.

Lemma keys_app {V} (m m' : JsMap.t V) :
  JsMap.keys (m ++ m') = JsMap.keys m ++ JsMap.keys m'.
Proof. apply map_app. Qed.

Lemma storeYelpResult_keys now userIndex result :
  JsMap.keys (storeYelpResult now userIndex result)
  = JsMap.keys userIndex
    ++ (if truthy (yr_phone result)
           && negb (bool_decide (yr_id result ∈ JsMap.keys userIndex))
        then [yr_id result] else []).
Proof.
  unfold storeYelpResult. rewrite <- has_keys.
  destruct (truthy (yr_phone result)); simpl;
    [|symmetry; apply app_nil_r].
  destruct (JsMap.has userIndex (yr_id result)) eqn:Hhas; simpl.
  - rewrite app_nil_r. unfold JsMap.has in Hhas.
    destruct (JsMap.get userIndex (yr_id result)) eqn:Hget; [|discriminate].
    apply keys_set_present. unfold JsMap.has. now rewrite Hget.
  - rewrite set_absent by exact Hhas. apply keys_app.
Qed.

Lemma storeYelpLoop_keys clock results : forall i userIndex,
  JsMap.keys (storeYelpLoop clock i userIndex results)
  = JsMap.keys userIndex ++ newIds (JsMap.keys userIndex) results.
Proof.
  induction results as [|result rest IH]; intros i userIndex; simpl.
  - symmetry. apply app_nil_r.
  - rewrite IH, storeYelpResult_keys.
    destruct (truthy (yr_phone result)
              && negb (bool_decide (yr_id result ∈ JsMap.keys userIndex))).
    + rewrite <- app_assoc. reflexivity.
    + rewrite app_nil_r. reflexivity.
Qed.

Lemma storeYelpResult_uniqueKeys now userIndex result :
  uniqueKeys userIndex = true ->
  uniqueKeys (storeYelpResult now userIndex result) = true.
Proof.
  intros H. unfold storeYelpResult.
  repeat case_match; auto using uniqueKeys_set.
Qed.

Lemma storeYelpLoop_uniqueKeys clock results : forall i userIndex,
  uniqueKeys userIndex = true ->
  uniqueKeys (storeYelpLoop clock i userIndex results) = true.
Proof.
  induction results as [|result rest IH]; intros i userIndex H; simpl;
    auto using storeYelpResult_uniqueKeys.
Qed.

Lemma storeYelpResults_user clock userId results index :
  storeYelpResults clock userId results index !! userId
  = Some (storeYelpLoop clock 0
            (default JsMap.empty (index !! userId)) results).
Proof.
  unfold storeYelpResults. destruct (index !! userId) as [userIndex|] eqn:E.
  - rewrite E. simpl. apply lookup_insert_eq.
  - rewrite !lookup_insert_eq. reflexivity.
Qed.

(** X1.  [storeYelpResults] only ever appends to a user's index: the keys
    the index had stay where they were, and behind them come, in the order
    of the results, the ids that have a phone and are new (once each).  A
    result without a phone adds nothing, the index keeps one entry per key
    and a phone in every entry, and the indexes of other users are not
    touched. *)
Theorem storeYelpResults_appends_new_ids
    (clock : nat -> Z) (userId : string) (results : list YelpResult)
    (index : gmap string (JsMap.t Restaurant)) :
  let userIndex := default JsMap.empty (index !! userId) in
  exists userIndex',
    storeYelpResults clock userId results index !! userId = Some userIndex'
    /\ JsMap.keys userIndex'
       = JsMap.keys userIndex ++ newIds (JsMap.keys userIndex) results
    /\ (Forall (fun result => truthy (yr_phone result) = false) results ->
        JsMap.keys userIndex' = JsMap.keys userIndex)
    /\ (uniqueKeys userIndex = true -> uniqueKeys userIndex' = true)
    /\ (phonesRecorded userIndex = true -> phonesRecorded userIndex' = true)
    /\ (forall other, other <> userId ->
          storeYelpResults clock userId results index !! other
          = index !! other).
Proof.
  intros userIndex.
  exists (storeYelpLoop clock 0 userIndex results).
  split; [apply storeYelpResults_user|].
  split; [apply storeYelpLoop_keys|].
  split.
  { intros Hnone. rewrite storeYelpLoop_keys.
    assert (Hnew : forall known, newIds known results = []).
    { induction Hnone as [|result rest Hphone _ IH]; intros known; simpl;
        [reflexivity|].
      rewrite Hphone. simpl. apply IH. }
    rewrite Hnew. apply app_nil_r. }
  split; [apply storeYelpLoop_uniqueKeys|].
  split; [apply storeYelpLoop_phonesRecorded|].
  intros other Hother. now apply storeYelpResults_other_user.
Qed.

(** X2.  A name without any letter or digit matches every name: when the
    query, or the name of the oldest entry of the user's index, normalises
    to the empty string, [findPhoneNumber] answers with the phone of that
    oldest entry, whatever restaurant was asked for; and an order placed
    with the phone number ["auto"] is then resolved to that phone. *)
Theorem findPhoneNumber_blank_name_matches_oldest
    (index : gmap string (JsMap.t Restaurant)) (userId query id : string)
    (userIndex : JsMap.t Restaurant) (r : Restaurant)
    (rest : list (string * Restaurant))
    (Hindex : index !! userId = Some userIndex)
    (Holdest : JsMap.entries userIndex = (id, r) :: rest)
    (Hblank : normalizeName query = "" \/ normalizeName (r_name r) = "") :
  findPhoneNumber index userId query = Some (r_phone r)
  /\ (forall args,
        or_phone_number args = "auto" -> or_restaurant_name args = query ->
        truthy (r_phone r) = true ->
        resolveOrderPhone index userId args = Some (r_phone r)).
Proof.
  assert (Hfound : findPhoneNumber index userId query = Some (r_phone r)).
  { unfold findPhoneNumber. rewrite Hindex.
    unfold JsMap.entries in Holdest. subst userIndex. simpl.
    destruct Hblank as [-> | ->].
    - rewrite includes_empty. reflexivity.
    - rewrite includes_empty, orb_true_r. reflexivity. }
  split; [exact Hfound|].
  intros args Hauto Hname Hphone. unfold resolveOrderPhone.
  rewrite Hauto, Hname, Hfound, Hphone. reflexivity.
Qed.

Lemma findPhoneNumber_blank_name_matches_oldest_witness :
  let index :=
    storeYelpResults (fun _ => 100) "u1"
      [mkYelpResult "Tony's Pizza" "+15551234567" "tp";
       mkYelpResult "Sushi Go" "+15557654321" "sg"] ∅ in
  findPhoneNumber index "u1" "???" = Some "+15551234567"
  /\ findPhoneNumber index "u1" "" = Some "+15551234567".
Proof.
  split.
  - apply (findPhoneNumber_blank_name_matches_oldest _ "u1" "???" "tp"
             [("tp", mkRestaurant "Tony's Pizza" "+15551234567" "tp" 100);
              ("sg", mkRestaurant "Sushi Go" "+15557654321" "sg" 100)]
             (mkRestaurant "Tony's Pizza" "+15551234567" "tp" 100)
             [("sg", mkRestaurant "Sushi Go" "+15557654321" "sg" 100)]);
      [reflexivity | reflexivity | left; reflexivity].
  - apply (findPhoneNumber_blank_name_matches_oldest _ "u1" "" "tp"
             [("tp", mkRestaurant "Tony's Pizza" "+15551234567" "tp" 100);
              ("sg", mkRestaurant "Sushi Go" "+15557654321" "sg" 100)]
             (mkRestaurant "Tony's Pizza" "+15551234567" "tp" 100)
             [("sg", mkRestaurant "Sushi Go" "+15557654321" "sg" 100)]);
      [reflexivity | reflexivity | left; reflexivity].
Defined.

(** ** The call-action policy *)

(** X3.  What [storeCallAction] records for a channel is what
    [getCallAction] reads back for one hour: up to [60 * 60 * 1000] ms
    later the stored action is returned and the store is left as it is,
    after that the default is returned and the entry is gone.  A second
    [storeCallAction] replaces the first, other channels read what they
    read before, and on the empty channel both functions do nothing. *)
Theorem call_action_round_trip
    (now later : Z) (channel callAction : string)
    (store : gmap string CallActionEntry)
    (Hchannel : truthy channel = true) :
  let stored := storeCallAction now channel callAction store in
  (later - now <= 60 * 60 * 1000 ->
   getCallAction later channel stored = (callAction, stored))
  /\ (later - now > 60 * 60 * 1000 ->
      getCallAction later channel stored
      = (defaultCallAction, delete channel store))
  /\ (forall now' callAction',
        storeCallAction now' channel callAction' stored
        = storeCallAction now' channel callAction' store)
  /\ (forall other, other <> channel ->
        (getCallAction later other stored).1
        = (getCallAction later other store).1)
  /\ storeCallAction now "" callAction store = store
  /\ getCallAction later "" store = (defaultCallAction, store).
Proof.
  intros stored. subst stored. unfold storeCallAction, getCallAction.
  rewrite Hchannel. simpl negb. cbv iota.
  rewrite lookup_insert_eq. simpl ca_timestamp. simpl ca_callAction.
  unfold oneHourMs.
  split; [|split; [|split; [|split; [|split]]]].
  - intros Hfresh.
    destruct (now <? later - 60 * 60 * 1000) eqn:E; [lia | reflexivity].
  - intros Hold.
    destruct (now <? later - 60 * 60 * 1000) eqn:E; [|lia].
    now rewrite delete_insert_eq.
  - intros now' callAction'. apply insert_insert_eq.
  - intros other Hother.
    destruct (negb (truthy other)); [reflexivity|].
    rewrite lookup_insert_ne by congruence.
    destruct (store !! other) as [entry|]; [|reflexivity].
    destruct (ca_timestamp entry <? later - 60 * 60 * 1000); reflexivity.
  - reflexivity.
  - reflexivity.
Qed.

Lemma call_action_round_trip_witness :
  getCallAction 3600000 "c1" (storeCallAction 0 "c1" "live" ∅)
  = ("live", storeCallAction 0 "c1" "live" ∅).
Proof.
  apply (call_action_round_trip 0 3600000 "c1" "live" ∅); [reflexivity | lia].
Defined.

(** ** Routing the call *)

Lemma placeCall_not_live env callAction userId name phone phone' :
  callAction <> "live" ->
  placeCall env callAction userId name phone'
  = placeCall env callAction userId name phone.
Proof.
  intros Hlive. unfold placeCall.
  destruct (String.eqb callAction "call_sid"); [reflexivity|].
  destruct (String.eqb callAction "live") eqn:E; [|reflexivity].
  apply String.eqb_eq in E. contradiction.
Qed.

(** [callPhone] asks the bridge one thing: the request for the number it
    is given. *)
Lemma callPhone_one_request phone post appId userId name to :
  post (pstnRequestOf phone appId userId name to)
  = axiosPost phone (pstnRequestOf phone appId userId name to) ->
  Tools.callPhone (withAxiosPost phone post) appId userId name to
  = Tools.callPhone phone appId userId name to.
Proof.
  intros Hpost. unfold Tools.callPhone.
  change (pstn (withAxiosPost phone post)) with (pstn phone).
  change (pstnRequestOf (withAxiosPost phone post) appId userId name to)
    with (pstnRequestOf phone appId userId name to).
  change (axiosPost (withAxiosPost phone post)) with post.
  now rewrite Hpost.
Qed.

Lemma placeCall_configured_numbers env phone post callAction userId name to :
  callAction <> "live" ->
  (forall request,
     pr_to request = formatPhoneNumber (SID_PHONE_NUMBER phone)
     \/ pr_to request = formatPhoneNumber (HERMES_PHONE_NUMBER phone) ->
     post request = axiosPost phone request) ->
  placeCall (withTelephony env (withAxiosPost phone post)) callAction userId
    name to
  = placeCall (withTelephony env phone) callAction userId name to.
Proof.
  intros Hlive Hpost. unfold placeCall.
  cbn [withTelephony config callSidPhone callPhone callHermesPhone].
  destruct (String.eqb callAction "call_sid").
  - unfold Tools.callSidPhone.
    change (SID_PHONE_NUMBER (withAxiosPost phone post))
      with (SID_PHONE_NUMBER phone).
    rewrite callPhone_one_request; [reflexivity|].
    apply Hpost. now left.
  - destruct (String.eqb callAction "live") eqn:E.
    { apply String.eqb_eq in E. contradiction. }
    unfold Tools.callHermesPhone.
    change (HERMES_PHONE_NUMBER (withAxiosPost phone post))
      with (HERMES_PHONE_NUMBER phone).
    rewrite callPhone_one_request; [reflexivity|].
    apply Hpost. now right.
Qed.

Local Ltac same_run := split; [reflexivity|intros ->; reflexivity].

(** Two environments that differ only in the call functions, and two
    numbers: where [placeCall] gives the same in both, the stores left are
    the same, and so is the whole run when the number is the same. *)
Lemma createSpecializedVoiceAgent_call_only
    (env env' : Env) (appId userId channel specialization phoneNumber
       phoneNumber' : string) (st : Stores)
    :
  config env' = config env -> nowCreate env' = nowCreate env ->
  randomSuffix env' = randomSuffix env ->
  buildTokenWithUid env' = buildTokenWithUid env ->
  fetchJoin env' = fetchJoin env -> nowStoreAgent env' = nowStoreAgent env ->
  nowGetCallAction env' = nowGetCallAction env ->
  (getCallAction (nowGetCallAction env) channel (callActionStore st)).1
  <> "live" ->
  (forall callAction name,
     callAction <> "live" ->
     placeCall env' callAction userId name phoneNumber'
     = placeCall env callAction userId name phoneNumber) ->
  (runTask
     (createSpecializedVoiceAgent env' appId userId channel specialization
        phoneNumber') st).1
  = (runTask
       (createSpecializedVoiceAgent env appId userId channel specialization
          phoneNumber) st).1
  /\ (phoneNumber' = phoneNumber ->
      runTask
        (createSpecializedVoiceAgent env' appId userId channel specialization
           phoneNumber') st
      = runTask
          (createSpecializedVoiceAgent env appId userId channel
             specialization phoneNumber) st).
Proof.
  intros Hconfig Hnow Hsuffix Htoken Hfetch HnowStore HnowGet Hroute Hcall.
  unfold createSpecializedVoiceAgent.
  rewrite Hconfig, Hnow, Hsuffix, Htoken, Hfetch, HnowStore, HnowGet.
  destruct (missingConfig (config env)); [|same_run].
  destruct (getTTSConfig (config env)); [|same_run].
  destruct (buildTokenWithUid env _); [|same_run].
  simpl. destruct (fetchJoin env) as [response|]; [|same_run].
  destruct (negb (resp_ok response)).
  { destruct (resp_text response); same_run. }
  destruct (resp_json response) as [agent_id|]; [|same_run].
  match goal with
  | |- context [getCallAction ?n ?c (callActionStore ?s)] =>
      assert (Hsame : callActionStore s = callActionStore st)
        by (destruct agent_id as [id|]; [destruct (truthy id)|];
            reflexivity);
      rewrite Hsame;
      destruct (getCallAction n c (callActionStore st))
        as [callAction store'] eqn:Hget
  end.
  simpl in Hroute. simpl.
  rewrite (Hcall callAction _ Hroute).
  destruct (placeCall env callAction userId _ phoneNumber)
    as [callResult|]; [|same_run].
  destruct (includes callResult "Failed" || includes callResult "Error"
            || includes callResult "Invalid");
    same_run.
Qed.

(** X4.  The number a specialized agent is created for is dialled only on
    the route ["live"]: unless the channel's stored call action is ["live"]
    (and not older than an hour), the stores [createSpecializedVoiceAgent]
    leaves are the same whatever number was given, and with the call
    functions of [src/libs/tools.ts] behind it the only request it posts
    to the bridge is a call to the configured number of [callSidPhone] or
    of [callHermesPhone]: a bridge that answers those two requests alike
    gives the same run, whatever it answers to a call to another
    number. *)
Theorem call_not_routed_to_given_number
    (env : Env) (phone : PhoneEnv)
    (appId userId channel specialization phoneNumber : string)
    (st : Stores)
    (Hroute :
       (getCallAction (nowGetCallAction env) channel (callActionStore st)).1
       <> "live") :
  (forall otherNumber,
     (runTask
        (createSpecializedVoiceAgent env appId userId channel
           specialization otherNumber) st).1
     = (runTask
          (createSpecializedVoiceAgent env appId userId channel
             specialization phoneNumber) st).1)
  /\ (forall post,
        (forall request,
           pr_to request = formatPhoneNumber (SID_PHONE_NUMBER phone)
           \/ pr_to request = formatPhoneNumber (HERMES_PHONE_NUMBER phone) ->
           post request = axiosPost phone request) ->
        runTask
          (createSpecializedVoiceAgent
             (withTelephony env (withAxiosPost phone post)) appId userId
             channel specialization phoneNumber) st
        = runTask
            (createSpecializedVoiceAgent (withTelephony env phone) appId
               userId channel specialization phoneNumber) st).
Proof.
  split.
  - intros otherNumber.
    apply (createSpecializedVoiceAgent_call_only env env appId userId channel
             specialization phoneNumber otherNumber st);
      try reflexivity; [exact Hroute|].
    intros callAction name Hlive. now apply placeCall_not_live.
  - intros post Hpost.
    apply (createSpecializedVoiceAgent_call_only (withTelephony env phone)
             (withTelephony env (withAxiosPost phone post)) appId userId
             channel specialization phoneNumber phoneNumber st);
      try reflexivity; [exact Hroute|].
    intros callAction name Hlive.
    now apply placeCall_configured_numbers.
Qed.

(** The theorem on the default route, with a bridge that refuses the calls
    to any number but the configured ones: the agent created for another
    number is registered all the same. *)
Lemma call_not_routed_to_given_number_witness :
  let strict := withAxiosPost demoPhone (configuredNumbersOnly demoPhone) in
  let run bridge :=
    runTask
      (createSpecializedVoiceAgent (withTelephony workingEnv bridge) "app"
         "u1" "c1" "phone-ordering" "+15551234567") emptyStores in
  run strict = run demoPhone
  /\ JsMap.keys (activePollingSessions (run strict).1) = ["c1-agent-1"].
Proof.
  intros strict run.
  assert (H : run strict = run demoPhone).
  { apply (call_not_routed_to_given_number workingEnv demoPhone "app" "u1"
             "c1" "phone-ordering" "+15551234567" emptyStores).
    - vm_compute. discriminate.
    - intros request Hto. unfold configuredNumbersOnly.
      destruct Hto as [Hto|Hto]; rewrite Hto, String.eqb_refl;
        [reflexivity|now rewrite orb_true_r]. }
  split; [exact H|]. rewrite H. reflexivity.
Defined.

(** ** Polling sessions *)

Lemma delete_set {V} (m : JsMap.t V) k v :
  JsMap.delete (JsMap.set m k v) k = JsMap.delete m k.
Proof.
  induction m as [|[k' v'] m IH]; simpl.
  - now rewrite String.eqb_refl.
  - destruct (String.eqb k' k) eqn:E; simpl; rewrite E; [reflexivity|].
    now rewrite IH.
Qed.

Lemma delete_absent {V} (m : JsMap.t V) k :
  JsMap.has m k = false -> JsMap.delete m k = m.
Proof.
  unfold JsMap.has. induction m as [|[k' v'] m IH]; simpl; [reflexivity|].
  destruct (String.eqb k' k); [discriminate|].
  intros H. now rewrite IH.
Qed.

Lemma sessionsOfChannel_none channel (sessions : JsMap.t PollingSession) :
  (forall key session, In (key, session) (JsMap.entries sessions) ->
     ps_channel session <> channel) ->
  sessionsOfChannel channel sessions = [].
Proof.
  unfold sessionsOfChannel, JsMap.entries.
  induction sessions as [|[key session] sessions IH]; intros Hnone;
    [reflexivity|].
  simpl. destruct (String.eqb (ps_channel session) channel) eqn:E.
  - apply String.eqb_eq in E. exfalso. eapply Hnone; [left; reflexivity|].
    exact E.
  - apply IH. intros k s Hin. apply (Hnone k s). now right.
Qed.

Lemma sessionsOfChannel_app channel (m m' : JsMap.t PollingSession) :
  sessionsOfChannel channel (m ++ m')
  = sessionsOfChannel channel m ++ sessionsOfChannel channel m'.
Proof. apply List.filter_app. Qed.

Lemma append_same_l (s t : string) : s +:+ t = s -> t = "".
Proof.
  induction s as [|c s IH]; simpl.
  - now rewrite append_nil_l.
  - rewrite append_cons. intros H. injection H as H. auto.
Qed.

(** X5.  Starting the polling of an agent and stopping it by its id is a
    round trip: the stop finds the session, confirms with the agent id and
    the reason, and leaves the session map without the agent's key — equal
    to the map before the start when the key was new —, the channel
    without callback and without guard, and the other stores as they
    were; a second stop finds nothing and changes nothing.  On a channel
    without other sessions [getLatestAgentUpdates] counts one session
    after the start and none after the stop. *)
Theorem start_then_stop_by_agent_id
    (appId userId channel agentId type : string) (reason : option string)
    (st : Stores) (Hid : truthy agentId = true) :
  let key := sessionKeyOf channel agentId in
  let started := startAgentPolling appId userId channel agentId type st in
  let args := mkStopArgs (Some agentId) reason in
  let result := stopAgentPolling appId userId channel args started in
  result.1 = "✅ Stopped monitoring agent " +:+ agentId +:+ ". Reason: "
             +:+ orElse reason "manually stopped"
  /\ activePollingSessions result.2
     = JsMap.delete (activePollingSessions st) key
  /\ (JsMap.has (activePollingSessions st) key = false ->
      activePollingSessions result.2 = activePollingSessions st)
  /\ pollingCallbacks result.2 = delete channel (pollingCallbacks st)
  /\ activeSpecializedAgents result.2
     = delete channel (activeSpecializedAgents st)
  /\ guardHeld channel result.2 = false
  /\ (agentStore result.2 = agentStore st
      /\ restaurantIndex result.2 = restaurantIndex st
      /\ callActionStore result.2 = callActionStore st
      /\ conversationContext result.2 = conversationContext st)
  /\ stopAgentPolling appId userId channel args result.2
     = ("No active polling session found for agent " +:+ agentId +:+ ".",
        result.2)
  /\ (JsMap.has (activePollingSessions st) key = false ->
      (forall k session,
         In (k, session) (JsMap.entries (activePollingSessions st)) ->
         ps_channel session <> channel) ->
      getLatestAgentUpdates appId userId channel started
      = "🔄 Monitoring 1 active agent(s). Updates are automatically processed in the background."
      /\ getLatestAgentUpdates appId userId channel result.2
         = "No active agent monitoring sessions found.").
Proof.
  intros key started args result.
  assert (Hsessions : activePollingSessions started
                      = JsMap.set (activePollingSessions st) key
                          (mkSession agentId userId channel type 0 "STARTING"
                             0 None)).
  { unfold started, startAgentPolling. fold key.
    destruct (JsMap.get (activePollingSessions st) key) as [existing|];
      [destruct (ps_intervalId existing)|]; reflexivity. }
  assert (Hrest : pollingCallbacks started
                  = <[ channel := mkCallback appId userId channel agentId type ]>
                      (pollingCallbacks st)
                  /\ activeSpecializedAgents started
                     = activeSpecializedAgents st
                  /\ agentStore started = agentStore st
                  /\ restaurantIndex started = restaurantIndex st
                  /\ callActionStore started = callActionStore st
                  /\ conversationContext started = conversationContext st).
  { unfold started, startAgentPolling. fold key.
    destruct (JsMap.get (activePollingSessions st) key) as [existing|];
      [destruct (ps_intervalId existing)|]; repeat split; reflexivity. }
  destruct Hrest as (Hcb & Hguard & Hagents & Hindex & Hactions & Hcontext).
  assert (Hget : JsMap.get (activePollingSessions started) key
                 = Some (mkSession agentId userId channel type 0 "STARTING" 0
                           None))
    by (rewrite Hsessions; apply get_set_eq).
  clearbody started.
  assert (Hresult : result
    = ("✅ Stopped monitoring agent " +:+ agentId +:+ ". Reason: "
         +:+ orElse reason "manually stopped",
       set_activeSpecializedAgents (delete channel)
         (set_pollingCallbacks (delete channel)
            (set_activePollingSessions (fun m => JsMap.delete m key)
               started)))).
  { unfold result, stopAgentPolling, locateSession, args. simpl.
    rewrite Hid. simpl. fold key. rewrite Hget. reflexivity. }
  assert (Hafter : activePollingSessions result.2
                   = JsMap.delete (activePollingSessions st) key).
  { rewrite Hresult. simpl. rewrite Hsessions. apply delete_set. }
  split; [now rewrite Hresult|].
  split; [exact Hafter|].
  split; [intros Hnew; rewrite Hafter; now apply delete_absent|].
  split.
  { rewrite Hresult. simpl. rewrite Hcb. apply delete_insert_eq. }
  split; [rewrite Hresult; simpl; now rewrite Hguard|].
  split.
  { rewrite Hresult. unfold guardHeld. simpl. now rewrite lookup_delete_eq. }
  split; [rewrite Hresult; simpl; auto|].
  split.
  { unfold stopAgentPolling, locateSession, args. simpl.
    rewrite Hid. simpl. fold key. rewrite Hafter, get_delete_eq.
    reflexivity. }
  intros Hnew Hnone. unfold getLatestAgentUpdates.
  rewrite Hafter, Hsessions, (delete_absent _ _ Hnew),
    (set_absent _ _ _ Hnew), sessionsOfChannel_app.
  rewrite (sessionsOfChannel_none _ _ Hnone).
  unfold sessionsOfChannel, JsMap.entries. simpl.
  rewrite String.eqb_refl. split; reflexivity.
Qed.

Lemma start_then_stop_by_agent_id_witness :
  let started :=
    startAgentPolling "app" "u1" "c1" "agent-1" "phone-ordering"
      (acquireGuard "c1" emptyStores) in
  let result :=
    stopAgentPolling "app" "u1" "c1"
      (mkStopArgs (Some "agent-1") (Some "order placed")) started in
  result.1 = "✅ Stopped monitoring agent agent-1. Reason: order placed"
  /\ activePollingSessions result.2 = JsMap.delete [] "c1-agent-1".
Proof.
  pose proof (start_then_stop_by_agent_id "app" "u1" "c1" "agent-1"
                "phone-ordering" (Some "order placed")
                (acquireGuard "c1" emptyStores) eq_refl) as H.
  split; [exact (proj1 H) | exact (proj1 (proj2 H))].
Defined.

(** X6.  A stop by agent id does not look at the channel of the session it
    finds.  The session key is the channel, a dash and the agent id, so the
    key of agent [y] on channel [c-x] is the key of agent [x-y] on channel
    [c]: a stop for agent [y] on channel [c-x] stops the session that was
    started for agent [x-y] on channel [c], while the callback of channel
    [c] stays registered and the guard of channel [c] stays as it was. *)
Theorem stop_by_agent_id_crosses_channels
    (appId userId channel x y type : string) (st : Stores)
    (Hy : truthy y = true) :
  let agentId := x +:+ "-" +:+ y in
  let other := channel +:+ "-" +:+ x in
  let started := startAgentPolling appId userId channel agentId type st in
  let result :=
    stopAgentPolling appId userId other (mkStopArgs (Some y) None) started in
  other <> channel
  /\ sessionKeyOf other y = sessionKeyOf channel agentId
  /\ JsMap.get (activePollingSessions started) (sessionKeyOf channel agentId)
     = Some (mkSession agentId userId channel type 0 "STARTING" 0 None)
  /\ result.1
     = "✅ Stopped monitoring agent " +:+ y +:+ ". Reason: manually stopped"
  /\ JsMap.get (activePollingSessions result.2)
       (sessionKeyOf channel agentId) = None
  /\ pollingCallbacks result.2 !! channel
     = Some (mkCallback appId userId channel agentId type)
  /\ guardHeld channel result.2 = guardHeld channel st.
Proof.
  intros agentId other started result.
  assert (Hother : other <> channel).
  { unfold other. intros H. apply append_same_l in H. discriminate. }
  assert (Hkey : sessionKeyOf other y = sessionKeyOf channel agentId).
  { unfold sessionKeyOf, other, agentId. now rewrite !append_assoc. }
  set (key := sessionKeyOf channel agentId) in *.
  assert (Hsessions : activePollingSessions started
                      = JsMap.set (activePollingSessions st) key
                          (mkSession agentId userId channel type 0 "STARTING"
                             0 None)).
  { unfold started, startAgentPolling. fold key.
    destruct (JsMap.get (activePollingSessions st) key) as [existing|];
      [destruct (ps_intervalId existing)|]; reflexivity. }
  assert (Hrest : pollingCallbacks started
                  = <[ channel := mkCallback appId userId channel agentId type ]>
                      (pollingCallbacks st)
                  /\ activeSpecializedAgents started
                     = activeSpecializedAgents st).
  { unfold started, startAgentPolling. fold key.
    destruct (JsMap.get (activePollingSessions st) key) as [existing|];
      [destruct (ps_intervalId existing)|]; split; reflexivity. }
  destruct Hrest as [Hcb Hguard].
  assert (Hget : JsMap.get (activePollingSessions started) key
                 = Some (mkSession agentId userId channel type 0 "STARTING" 0
                           None))
    by (rewrite Hsessions; apply get_set_eq).
  clearbody started.
  assert (Hresult : result
    = ("✅ Stopped monitoring agent " +:+ y +:+ ". Reason: manually stopped",
       set_activeSpecializedAgents (delete other)
         (set_pollingCallbacks (delete other)
            (set_activePollingSessions (fun m => JsMap.delete m key)
               started)))).
  { unfold result, stopAgentPolling, locateSession. simpl.
    rewrite Hy. simpl. rewrite Hkey, Hget. reflexivity. }
  split; [exact Hother|].
  split; [exact Hkey|].
  split; [exact Hget|].
  split; [now rewrite Hresult|].
  split; [rewrite Hresult; simpl; apply get_delete_eq|].
  split.
  { rewrite Hresult. simpl. rewrite lookup_delete_ne by exact Hother.
    rewrite Hcb. apply lookup_insert_eq. }
  rewrite Hresult. unfold guardHeld. simpl.
  rewrite lookup_delete_ne by exact Hother. now rewrite Hguard.
Qed.

Lemma stop_by_agent_id_crosses_channels_witness :
  let started :=
    startAgentPolling "app" "u1" "room" "7-a1" "phone-ordering"
      (acquireGuard "room" emptyStores) in
  let result :=
    stopAgentPolling "app" "u1" "room-7" (mkStopArgs (Some "a1") None)
      started in
  JsMap.get (activePollingSessions result.2) "room-7-a1" = None
  /\ guardHeld "room" result.2 = true.
Proof.
  pose proof (stop_by_agent_id_crosses_channels "app" "u1" "room" "7" "a1"
                "phone-ordering" (acquireGuard "room" emptyStores) eq_refl)
    as H.
  split.
  - exact (proj1 (proj2 (proj2 (proj2 (proj2 H))))).
  - exact (proj2 (proj2 (proj2 (proj2 (proj2 (proj2 H)))))).
Defined.

(** ** The conversation context *)

Lemma lastFive_snoc {A} (l : list A) (x : A) :
  (if (5 <? length (lastFive l ++ [x]))%nat
   then lastFive (lastFive l ++ [x]) else lastFive l ++ [x])
  = lastFive (l ++ [x]).
Proof.
  unfold lastFive. rewrite !length_app, !length_drop. simpl.
  destruct (decide (length l <= 4)%nat) as [Hshort|Hlong].
  - replace (length l - 5)%nat with 0%nat by lia.
    replace (length l + 1 - 5)%nat with 0%nat by lia. simpl.
    destruct (5 <? length l - 0 + 1)%nat eqn:E; [|reflexivity].
    apply Nat.ltb_lt in E. lia.
  - destruct (5 <? length l - (length l - 5) + 1)%nat eqn:E.
    + replace (length l - (length l - 5) + 1 - 5)%nat with 1%nat by lia.
      rewrite !drop_app_le by (rewrite ?length_drop; lia).
      rewrite drop_drop. f_equal. f_equal. lia.
    + apply Nat.ltb_ge in E. lia.
Qed.

Lemma last_cons_default {A} (l : list A) : forall x d,
  List.last (x :: l) d = List.last l x.
Proof.
  induction l as [|y l IH]; intros x d; [reflexivity|].
  change (List.last (x :: y :: l) d) with (List.last (y :: l) d).
  now rewrite !IH.
Qed.

Lemma last_drop_lt {A} (n : nat) : forall l : list A,
  (n < length l)%nat -> last (drop n l) = last l.
Proof.
  induction n as [|n IH]; intros l Hn; [reflexivity|].
  destruct l as [|x l]; [simpl in Hn; lia|].
  simpl in Hn. simpl drop. rewrite IH by lia.
  destruct l as [|y l]; [simpl in Hn; lia|].
  now rewrite last_cons_cons.
Qed.

Lemma lastFive_length {A} (l : list A) : (length (lastFive l) <= 5)%nat.
Proof. unfold lastFive. rewrite length_drop. lia. Qed.

Lemma inject_step now appId userId channel agentId type status updateType st
    agent0 type0 status0 updates :
  conversationContext st !! channel
  = Some (mkContext agent0 type0 status0 (lastFive updates)) ->
  conversationContext
    (injectStatusIntoConversation now appId userId channel agentId type
       status updateType st) !! channel
  = Some (mkContext agent0 type0 status
            (lastFive (updates ++ [mkUpdate now status updateType]))).
Proof.
  intros Hcontext. unfold injectStatusIntoConversation. rewrite Hcontext.
  simpl. rewrite lookup_insert_eq, lastFive_snoc. reflexivity.
Qed.

Lemma inject_other now appId userId channel agentId type status updateType st
    other :
  other <> channel ->
  conversationContext
    (injectStatusIntoConversation now appId userId channel agentId type
       status updateType st) !! other
  = conversationContext st !! other.
Proof.
  intros Hother. unfold injectStatusIntoConversation.
  destruct (conversationContext st !! channel); simpl;
    now rewrite lookup_insert_ne by congruence.
Qed.

Lemma injectAll_from appId userId channel reports :
  forall st agent0 type0 status0 updates,
    conversationContext st !! channel
    = Some (mkContext agent0 type0 status0 (lastFive updates)) ->
    conversationContext (injectAll appId userId channel reports st) !! channel
    = Some (mkContext agent0 type0
              (List.last (map sr_status reports) status0)
              (lastFive (updates ++ map updateOf reports))).
Proof.
  induction reports as [|report reports IH];
    intros st agent0 type0 status0 updates Hcontext.
  - simpl. now rewrite app_nil_r.
  - change (injectAll appId userId channel (report :: reports) st)
      with (injectAll appId userId channel reports
              (injectStatusIntoConversation (sr_now report) appId userId
                 channel (sr_agentId report) (sr_type report)
                 (sr_status report) (sr_updateType report) st)).
    erewrite IH by (eapply inject_step; exact Hcontext).
    rewrite <- app_assoc. cbn [map]. rewrite last_cons_default.
    reflexivity.
Qed.

Lemma injectAll_other appId userId channel reports other :
  other <> channel ->
  forall st,
    conversationContext (injectAll appId userId channel reports st) !! other
    = conversationContext st !! other.
Proof.
  intros Hother. induction reports as [|report reports IH]; intros st;
    [reflexivity|].
  change (injectAll appId userId channel (report :: reports) st)
    with (injectAll appId userId channel reports
            (injectStatusIntoConversation (sr_now report) appId userId
               channel (sr_agentId report) (sr_type report)
               (sr_status report) (sr_updateType report) st)).
  rewrite IH. now apply inject_other.
Qed.

(** X7.  The context entry of a channel is made by the first status report
    and never re-made: after any sequence of reports on a channel without
    entry, the entry carries the agent id and type of the first report —
    also when later reports name another agent —, the status of the last
    one, and the last five updates in the order they came; the entries of
    other channels are not touched. *)
Theorem context_keeps_first_agent_and_last_five
    (appId userId channel : string) (first : StatusReport)
    (rest : list StatusReport) (st : Stores)
    (Hfresh : conversationContext st !! channel = None) :
  let reports := first :: rest in
  let st' := injectAll appId userId channel reports st in
  exists context,
    conversationContext st' !! channel = Some context
    /\ cx_agentId context = sr_agentId first
    /\ cx_type context = sr_type first
    /\ cx_latestStatus context = List.last (map sr_status rest) (sr_status first)
    /\ cx_updates context = lastFive (map updateOf reports)
    /\ (length (cx_updates context) <= 5)%nat
    /\ last (cx_updates context) = Some (updateOf (List.last rest first))
    /\ (forall other, other <> channel ->
          conversationContext st' !! other = conversationContext st !! other).
Proof.
  intros reports st'.
  assert (Hfirst :
    conversationContext
      (injectStatusIntoConversation (sr_now first) appId userId channel
         (sr_agentId first) (sr_type first) (sr_status first)
         (sr_updateType first) st) !! channel
    = Some (mkContext (sr_agentId first) (sr_type first) (sr_status first)
              (lastFive [updateOf first]))).
  { unfold injectStatusIntoConversation. rewrite Hfresh. simpl.
    apply lookup_insert_eq. }
  pose proof (injectAll_from appId userId channel rest _ _ _ _ _ Hfirst)
    as Hall.
  change (injectAll appId userId channel rest
            (injectStatusIntoConversation (sr_now first) appId userId channel
               (sr_agentId first) (sr_type first) (sr_status first)
               (sr_updateType first) st)) with st' in Hall.
  eexists. split; [exact Hall|]. simpl.
  repeat split; try reflexivity.
  - apply lastFive_length.
  - change (updateOf first :: map updateOf rest)
      with (map updateOf (first :: rest)).
    unfold lastFive. rewrite last_drop_lt by (rewrite length_map; simpl; lia).
    clear. revert first.
    induction rest as [|r rest IH]; intros first; [reflexivity|].
    cbn [map]. rewrite last_cons_cons, last_cons_default. apply IH.
  - intros other Hother. unfold st', reports.
    now apply injectAll_other.
Qed.

Lemma context_keeps_first_agent_and_last_five_witness :
  exists context,
    conversationContext
      (injectAll "app" "u1" "c1"
         [mkReport 1 "agent-1" "phone-ordering" "Restaurant: hello" UPDATE;
          mkReport 2 "agent-2" "restaurant-inquiry" "Order confirmed"
            COMPLETED]
         emptyStores) !! "c1" = Some context
    /\ cx_agentId context = "agent-1"
    /\ cx_type context = "phone-ordering"
    /\ cx_latestStatus context = "Order confirmed".
Proof.
  destruct (context_keeps_first_agent_and_last_five "app" "u1" "c1"
              (mkReport 1 "agent-1" "phone-ordering" "Restaurant: hello"
                 UPDATE)
              [mkReport 2 "agent-2" "restaurant-inquiry" "Order confirmed"
                 COMPLETED]
              emptyStores eq_refl)
    as (context & Hcontext & Hagent & Htype & Hstatus & _).
  exists context. repeat split; assumption.
Defined.

(** ** Status checks *)

Lemma truthy_append_l (a b : string) :
  truthy a = true -> truthy (a +:+ b) = true.
Proof. destruct a; [discriminate | reflexivity]. Qed.

Lemma occursIn_at (pre sub post : string) : occursIn sub (pre +:+ sub +:+ post).
Proof. now exists pre, post. Qed.

Lemma getConversationContext_text channel st context update :
  conversationContext st !! channel = Some context ->
  last (cx_updates context) = Some update ->
  exists text,
    getConversationContext channel st = Some text
    /\ truthy text = true
    /\ (exists rest,
          text = contextHeader (cu_type update) +:+ "

Your " +:+ cx_type context +:+ " agent (" +:+ cx_agentId context +:+ rest)
    /\ occursIn (cx_latestStatus context) text.
Proof.
  intros Hcontext Hlast. unfold getConversationContext, lastUpdate.
  rewrite Hcontext, Hlast.
  destruct (cu_type update); eexists; (split; [reflexivity|]);
    (split; [reflexivity|]); split.
  - match goal with
    | |- exists rest, ?a +:+ ?t +:+ ?b +:+ ?i +:+ ?r = _ => exists r
    end.
    reflexivity.
  - match goal with
    | |- occursIn _ (?a +:+ ?t +:+ ?b +:+ ?i +:+ ?c +:+ ?s +:+ ?d) =>
        replace (a +:+ t +:+ b +:+ i +:+ c +:+ s +:+ d)
          with ((a +:+ t +:+ b +:+ i +:+ c) +:+ s +:+ d)
          by (now rewrite !append_assoc)
    end.
    apply occursIn_at.
  - match goal with
    | |- exists rest, ?a +:+ ?t +:+ ?b +:+ ?i +:+ ?r = _ => exists r
    end.
    reflexivity.
  - match goal with
    | |- occursIn _ (?a +:+ ?t +:+ ?b +:+ ?i +:+ ?c +:+ ?s +:+ ?d) =>
        replace (a +:+ t +:+ b +:+ i +:+ c +:+ s +:+ d)
          with ((a +:+ t +:+ b +:+ i +:+ c) +:+ s +:+ d)
          by (now rewrite !append_assoc)
    end.
    apply occursIn_at.
  - match goal with
    | |- exists rest, ?a +:+ ?t +:+ ?b +:+ ?i +:+ ?r = _ => exists r
    end.
    reflexivity.
  - match goal with
    | |- occursIn _ (?a +:+ ?t +:+ ?b +:+ ?i +:+ ?c +:+ ?s +:+ ?d) =>
        replace (a +:+ t +:+ b +:+ i +:+ c +:+ s +:+ d)
          with ((a +:+ t +:+ b +:+ i +:+ c) +:+ s +:+ d)
          by (now rewrite !append_assoc)
    end.
    apply occursIn_at.
Qed.

(** X8.  Once a channel has a context entry with an update,
    [getLatestAgentStatus] answers from that entry and never asks the
    service: whatever the agent's history would be, and for every user of
    the channel, the answer is the stored text, headed by the type of the
    last update and naming the entry's agent and latest status.  Stopping
    the agent does not change the answer. *)
Theorem getLatestAgentStatus_served_from_context
    (channel : string) (st : Stores) (context : ContextEntry)
    (update : ContextUpdate)
    (Hcontext : conversationContext st !! channel = Some context)
    (Hlast : last (cx_updates context) = Some update) :
  exists text,
    (forall env appId userId,
       getLatestAgentStatus env appId userId channel st = text)
    /\ (exists rest,
          text = contextHeader (cu_type update) +:+ "

Your " +:+ cx_type context +:+ " agent (" +:+ cx_agentId context +:+ rest)
    /\ occursIn (cx_latestStatus context) text
    /\ (forall env appId userId args,
          getLatestAgentStatus env appId userId channel
            (stopAgentPolling appId userId channel args st).2 = text).
Proof.
  destruct (getConversationContext_text channel st context update Hcontext
              Hlast) as (text & Htext & Htruthy & Hhead & Hstatus).
  exists text. split; [|split; [exact Hhead | split; [exact Hstatus|]]].
  - intros env appId userId. unfold getLatestAgentStatus.
    now rewrite Htext, Htruthy.
  - intros env appId userId args. unfold getLatestAgentStatus.
    assert (Hsame : getConversationContext channel
                      (stopAgentPolling appId userId channel args st).2
                    = getConversationContext channel st).
    { unfold getConversationContext, stopAgentPolling.
      destruct (locateSession channel args st) as [message|[key agentId]];
        [reflexivity|].
      destruct (JsMap.get (activePollingSessions st) key) as [session|];
        [|reflexivity].
      destruct (ps_intervalId session); reflexivity. }
    now rewrite Hsame, Htext, Htruthy.
Qed.

Lemma getLatestAgentStatus_served_from_context_witness :
  exists text,
    (forall env appId userId,
       getLatestAgentStatus env appId userId "c1" monitoredChannel = text)
    /\ occursIn "Restaurant: hello" text.
Proof.
  destruct (getLatestAgentStatus_served_from_context "c1" monitoredChannel
              (mkContext "agent-1" "phone-ordering" "Restaurant: hello"
                 [mkUpdate 5 "Restaurant: hello" UPDATE])
              (mkUpdate 5 "Restaurant: hello" UPDATE) eq_refl eq_refl)
    as (text & Hall & _ & Hstatus & _).
  exists text. split; assumption.
Defined.

(** ** The history URL *)

Lemma dropChars_append (a b : string) :
  dropChars (String.length a) (a +:+ b) = b.
Proof.
  induction a as [|c a IH]; [now rewrite append_nil_l|].
  rewrite append_cons. simpl. exact IH.
Qed.

Lemma includes_cons_false c s sub :
  includes (String c s) sub = false ->
  startsWith (String c s) sub = false /\ includes s sub = false.
Proof.
  change (includes (String c s) sub)
    with (startsWith (String c s) sub || includes s sub).
  intros H. now apply orb_false_elim in H.
Qed.

Lemma replaceFirst_eq (s pattern replacement : string) :
  replaceFirst s pattern replacement
  = if startsWith s pattern
    then replacement +:+ dropChars (String.length pattern) s
    else match s with
         | EmptyString => EmptyString
         | String c s' => String c (replaceFirst s' pattern replacement)
         end.
Proof. destruct s; reflexivity. Qed.

Lemma includes_nil (sub : string) : includes "" sub = startsWith "" sub.
Proof. simpl. apply orb_false_r. Qed.

Lemma replaceFirst_absent (s pattern replacement : string) :
  includes s pattern = false -> replaceFirst s pattern replacement = s.
Proof.
  induction s as [|c s IH]; intros Habsent.
  - rewrite includes_nil in Habsent. now rewrite replaceFirst_eq, Habsent.
  - apply includes_cons_false in Habsent as [Hstart Hrest].
    rewrite replaceFirst_eq, Hstart. now rewrite IH.
Qed.

Lemma replaceFirst_present (s pattern replacement : string) :
  includes s pattern = true ->
  exists pre post,
    s = pre +:+ pattern +:+ post
    /\ replaceFirst s pattern replacement = pre +:+ replacement +:+ post.
Proof.
  assert (Hhere : forall s,
    startsWith s pattern = true ->
    exists pre post,
      s = pre +:+ pattern +:+ post
      /\ replaceFirst s pattern replacement = pre +:+ replacement +:+ post).
  { intros s0 Hstart. pose proof Hstart as Hstart'.
    apply startsWith_iff in Hstart' as [post Hpost].
    exists "", post. rewrite !append_nil_l. split; [exact Hpost|].
    rewrite replaceFirst_eq, Hstart, Hpost. now rewrite dropChars_append. }
  induction s as [|c s IH]; intros Hpresent.
  - rewrite includes_nil in Hpresent. now apply Hhere.
  - destruct (startsWith (String c s) pattern) eqn:Hstart;
      [now apply Hhere|].
    assert (Hrest : includes s pattern = true).
    { change (includes (String c s) pattern)
        with (startsWith (String c s) pattern || includes s pattern)
        in Hpresent.
      now rewrite Hstart in Hpresent. }
    destruct (IH Hrest) as (pre & post & Hs & Hreplaced).
    exists (String c pre), post. rewrite !append_cons.
    split; [now rewrite Hs|].
    rewrite replaceFirst_eq, Hstart. now rewrite Hreplaced.
Qed.

Lemma includes_inside (pre s post sub : string) :
  includes s sub = true -> includes (pre +:+ s +:+ post) sub = true.
Proof.
  rewrite !includes_iff. intros (a & b & ->).
  exists (pre +:+ a), (b +:+ post). now rewrite !append_assoc.
Qed.

(** X9.  The history URL is never prefixed twice.  A base URL that already
    names the agent API is used as it is; otherwise the first
    [/v2/projects] becomes [/api/conversational-ai-agent/v2/projects], and
    a base URL with neither is used as it is.  Doing this to its own result
    changes nothing, and the URL fetched is that base, the application id
    and the agent id. *)
Theorem historyBaseUrl_prefixed_once (baseUrl : string) :
  let agentApi := "/api/conversational-ai-agent/" in
  historyBaseUrl (historyBaseUrl baseUrl) = historyBaseUrl baseUrl
  /\ (includes baseUrl agentApi = true -> historyBaseUrl baseUrl = baseUrl)
  /\ (includes baseUrl agentApi = false ->
      includes baseUrl "/v2/projects" = true ->
      includes (historyBaseUrl baseUrl) agentApi = true
      /\ exists pre post,
           baseUrl = pre +:+ "/v2/projects" +:+ post
           /\ historyBaseUrl baseUrl
              = pre +:+ "/api/conversational-ai-agent/v2/projects" +:+ post)
  /\ (includes baseUrl agentApi = false ->
      includes baseUrl "/v2/projects" = false ->
      historyBaseUrl baseUrl = baseUrl)
  /\ (forall appId fetch clock agentId,
        historyUrl (mkStatusEnv baseUrl appId fetch clock) agentId
        = historyBaseUrl baseUrl +:+ "/" +:+ appId +:+ "/agents/" +:+ agentId
          +:+ "/history").
Proof.
  intros agentApi.
  assert (Hnamed : includes baseUrl agentApi = true ->
                   historyBaseUrl baseUrl = baseUrl).
  { intros H. unfold historyBaseUrl. fold agentApi. now rewrite H. }
  assert (Hreplaced : includes baseUrl agentApi = false ->
      includes baseUrl "/v2/projects" = true ->
      includes (historyBaseUrl baseUrl) agentApi = true
      /\ exists pre post,
           baseUrl = pre +:+ "/v2/projects" +:+ post
           /\ historyBaseUrl baseUrl
              = pre +:+ "/api/conversational-ai-agent/v2/projects" +:+ post).
  { intros Hapi Hprojects. unfold historyBaseUrl at 1 2. fold agentApi.
    rewrite Hapi. simpl negb. cbv iota.
    destruct (replaceFirst_present baseUrl "/v2/projects"
                "/api/conversational-ai-agent/v2/projects" Hprojects)
      as (pre & post & Hbase & Hresult).
    split; [|now exists pre, post].
    rewrite Hresult. apply includes_inside. reflexivity. }
  assert (Hplain : includes baseUrl agentApi = false ->
      includes baseUrl "/v2/projects" = false ->
      historyBaseUrl baseUrl = baseUrl).
  { intros Hapi Hprojects. unfold historyBaseUrl. fold agentApi.
    rewrite Hapi. simpl. now apply replaceFirst_absent. }
  split; [|split; [exact Hnamed | split; [exact Hreplaced |
                   split; [exact Hplain | reflexivity]]]].
  destruct (includes baseUrl agentApi) eqn:Hapi.
  - now rewrite !Hnamed.
  - destruct (includes baseUrl "/v2/projects") eqn:Hprojects.
    + destruct (Hreplaced eq_refl eq_refl) as [Hnow _].
      unfold historyBaseUrl at 1. fold agentApi. now rewrite Hnow.
    + now rewrite !Hplain.
Qed.

(** ** Significant status updates *)

Lemma absDiff_same (n : nat) : absDiff n n = 0%nat.
Proof. unfold absDiff. lia. Qed.

Lemma no_new_phrase (text : string) (phrases : list string) :
  existsb (fun phrase => includes text phrase && negb (includes text phrase))
    phrases = false.
Proof.
  induction phrases as [|phrase phrases IH]; [reflexivity|].
  simpl. now rewrite andb_negb_r, IH.
Qed.

(** X10.  [isSignificantUpdate] never takes an unchanged status for
    significant, except the first one: a status equal to the previous one
    is significant exactly when that status is ['STARTING'].  After
    ['STARTING'] every status is significant, and so is every status whose
    length, in UTF-16 code units, differs from the previous one by more
    than 100. *)
Theorem isSignificantUpdate_unchanged (status : string) :
  isSignificantUpdate status status = String.eqb status "STARTING"
  /\ (forall newStatus, isSignificantUpdate newStatus "STARTING" = true)
  /\ (forall newStatus oldStatus,
        (100 < absDiff (jsLength newStatus) (jsLength oldStatus))%nat ->
        isSignificantUpdate newStatus oldStatus = true).
Proof.
  split; [|split].
  - unfold isSignificantUpdate.
    destruct (String.eqb status "STARTING"); [reflexivity|].
    rewrite no_new_phrase, absDiff_same. reflexivity.
  - reflexivity.
  - intros newStatus oldStatus Hjump. unfold isSignificantUpdate.
    destruct (String.eqb oldStatus "STARTING"); [reflexivity|].
    apply Nat.ltb_lt in Hjump. rewrite Hjump. apply orb_true_r.
Qed.

(** The length is counted in code units, not in bytes: 51 letters of two
    bytes each against one letter is a difference of 50. *)
Example isSignificantUpdate_counts_code_units :
  let accented := "ééééééééééééééééééééééééééééééééééééééééééééééééééé" in
  jsLength accented = 51%nat
  /\ String.length accented = 102%nat
  /\ isSignificantUpdate accented "x" = false.
Proof. repeat split. Qed.

(** ** Provisioning in the background *)

Lemma onRejected_neverRejects {A} (t : Task A) handler :
  neverRejects (onRejected t handler).
Proof.
  induction t as [o|k IH] using Task_induction.
  - destruct o as [a|e]; simpl.
    + constructor.
    + constructor. intros st. simpl. constructor.
  - simpl. constructor. intros st. specialize (IH st).
    destruct (k st) as [st' t']. exact IH.
Qed.

(** X11.  The background promise of a dispatch always fulfils and never
    touches the guards: for every environment — whatever the configuration,
    the provisioning service and the telephony bridge do — and whatever
    runs between its steps, [createSpecializedVoiceAgent] ends with a
    returned message, its [catch] handler is never entered, and the map of
    dispatch guards is afterwards what the other code made of it. *)
Theorem background_creation_never_touches_guards
    (env : Env) (appId userId channel specialization phoneNumber : string)
    (others : nat -> Stores -> Stores) (st : Stores)
    (Hothers : forall i s,
       activeSpecializedAgents (others i s) = activeSpecializedAgents s) :
  (exists message,
     (runTaskAmong others 0
        (createSpecializedVoiceAgent env appId userId channel specialization
           phoneNumber) st).2 = Returns message)
  /\ (runTaskAmong others 0
        (backgroundCreation env appId userId channel specialization
           phoneNumber) st).2 = Returns tt
  /\ activeSpecializedAgents
       (runTaskAmong others 0
          (backgroundCreation env appId userId channel specialization
             phoneNumber) st).1
     = activeSpecializedAgents st
  /\ guardHeld channel
       (runTaskAmong others 0
          (backgroundCreation env appId userId channel specialization
             phoneNumber) st).1
     = guardHeld channel st.
Proof.
  assert (Hguards :
    activeSpecializedAgents
      (runTaskAmong others 0
         (backgroundCreation env appId userId channel specialization
            phoneNumber) st).1
    = activeSpecializedAgents st).
  { apply keeps_runTaskAmong; [|exact Hothers].
    apply backgroundCreation_keeps_guard. }
  split; [|split; [|split; [exact Hguards|]]].
  - apply neverRejects_runTaskAmong,
      createSpecializedVoiceAgent_neverRejects.
  - destruct (neverRejects_runTaskAmong
                (backgroundCreation env appId userId channel specialization
                   phoneNumber) others
                (onRejected_neverRejects _ _) 0%nat st) as [[] H].
    exact H.
  - unfold guardHeld. now rewrite Hguards.
Qed.

Lemma background_creation_never_touches_guards_witness :
  guardHeld "c1"
    (runTaskAmong (fun _ s => s) 0
       (backgroundCreation provisioningFailsEnv "app" "u1" "c1"
          "phone-ordering" "+15551234567")
       (acquireGuard "c1" emptyStores)).1
  = guardHeld "c1" (acquireGuard "c1" emptyStores).
Proof.
  apply (background_creation_never_touches_guards provisioningFailsEnv "app"
           "u1" "c1" "phone-ordering" "+15551234567" (fun _ s => s)
           (acquireGuard "c1" emptyStores)).
  reflexivity.
Defined.

Lemma creationErrorMessage_error specialization error :
  startsWith (creationErrorMessage specialization error) "Error" = true.
Proof.
  unfold creationErrorMessage. destruct error as [name message|];
    [|reflexivity].
  destruct (String.eqb name "AbortError"); [reflexivity|].
  destruct (includes message "fetch failed"); reflexivity.
Qed.

(** X12.  An error message from [createSpecializedVoiceAgent] means that
    nothing was recorded, and any other message means that the agent was
    provisioned: for the three kinds of agent the wrappers create, when
    the returned message starts with ["Error"] (missing configuration,
    unsupported voice vendor, token or request failure, a refusal of the
    provisioning service) the stores are exactly what they were — no
    agent, session or callback was registered —, and when it does not, the
    provisioning service had accepted the request. *)
Theorem creation_error_leaves_stores
    (env : Env) (appId userId channel specialization phoneNumber : string)
    (st : Stores) (message : string)
    (Hkind : In specialization wrapperSpecializations)
    (Hresult :
       (runTask
          (createSpecializedVoiceAgent env appId userId channel
             specialization phoneNumber) st).2 = Returns message) :
  (startsWith message "Error" = true ->
   (runTask
      (createSpecializedVoiceAgent env appId userId channel specialization
         phoneNumber) st).1 = st)
  /\ (startsWith message "Error" = false ->
      exists response agent_id,
        fetchJoin env = Returns response /\ resp_ok response = true
        /\ resp_json response = Returns agent_id).
Proof.
  revert Hresult. unfold createSpecializedVoiceAgent.
  destruct (missingConfig (config env));
    [|intros [= <-]; split; [reflexivity | discriminate]].
  destruct (getTTSConfig (config env)) as [vendor|e];
    [|intros [= <-]; split; [reflexivity|];
      now rewrite creationErrorMessage_error].
  destruct (buildTokenWithUid env _) as [token|e];
    [|intros [= <-]; split; [reflexivity|];
      now rewrite creationErrorMessage_error].
  simpl. destruct (fetchJoin env) as [response|e];
    [|intros [= <-]; split; [reflexivity|];
      now rewrite creationErrorMessage_error].
  destruct (resp_ok response) eqn:Hok; simpl negb; cbv iota.
  2:{ destruct (resp_text response) as [errorText|e]; intros [= <-];
        (split; [reflexivity|]);
        [discriminate | now rewrite creationErrorMessage_error]. }
  destruct (resp_json response) as [agent_id|e] eqn:Hjson;
    [|intros [= <-]; split; [reflexivity|];
      now rewrite creationErrorMessage_error].
  intros Hresult.
  split; [|intros _; exists response, agent_id; auto].
  intros Herror. revert Hresult.
  destruct (getCallAction _ _ _) as [callAction store']. simpl.
  destruct (placeCall env callAction userId _ phoneNumber) as [callResult|e].
  - destruct (includes callResult "Failed" || includes callResult "Error"
              || includes callResult "Invalid"); simpl;
      intros [= <-]; exfalso;
      destruct Hkind as [<-|[<-|[<-|[]]]]; discriminate Herror.
  - simpl. intros [= <-]. exfalso.
    destruct Hkind as [<-|[<-|[<-|[]]]]; discriminate Herror.
Qed.

Lemma creation_error_leaves_stores_witness :
  (runTask
     (createSpecializedVoiceAgent provisioningFailsEnv "app" "u1" "c1"
        "phone-ordering" "+15551234567") (acquireGuard "c1" emptyStores)).1
  = acquireGuard "c1" emptyStores.
Proof.
  apply (creation_error_leaves_stores provisioningFailsEnv "app" "u1" "c1"
           "phone-ordering" "+15551234567" (acquireGuard "c1" emptyStores)
           "Error creating phone-ordering agent: 500 Internal Server Error - no capacity").
  - simpl. auto.
  - reflexivity.
  - reflexivity.
Defined.

Lemma findSessionByChannel_set channel (m : JsMap.t PollingSession) key
    session :
  (forall k s, In (k, s) (JsMap.entries m) -> ps_channel s <> channel) ->
  ps_channel session = channel ->
  findSessionByChannel channel (JsMap.set m key session)
  = Some (key, session).
Proof.
  intros Hnone Hchannel. unfold JsMap.entries in Hnone.
  induction m as [|[k' s'] m IH]; simpl.
  - rewrite Hchannel, String.eqb_refl. reflexivity.
  - destruct (String.eqb k' key) eqn:E; simpl.
    + apply String.eqb_eq in E. subst k'.
      rewrite Hchannel, String.eqb_refl. reflexivity.
    + assert (Hs' : String.eqb (ps_channel s') channel = false).
      { apply String.eqb_neq. apply (Hnone k' s'). now left. }
      rewrite Hs'. apply IH. intros k s Hin. apply (Hnone k s). now right.
Qed.

(** X13.  When provisioning and the call both succeed, everything a later
    status check or stop needs is registered: with complete
    configuration, an accepted join request that names an agent, and a
    placed call whose text reports no failure,
    [createSpecializedVoiceAgent] returns the success message and leaves
    the agent as the user's latest agent, a fresh polling session under
    the key of the channel and the agent, and the channel's callback; the
    guard is not touched.  A status check without agent id then asks for
    this agent, and a stop without agent id on a channel with no older
    session stops it. *)
Theorem successful_creation_registers_agent
    (env : Env) (appId userId channel specialization phoneNumber : string)
    (st : Stores) (vendor token agentId callResult : string)
    (response : JoinResponse)
    (Hconfig : missingConfig (config env) = [])
    (Hvoice : getTTSConfig (config env) = Returns vendor)
    (Htoken :
       buildTokenWithUid env (specializedChannelNameOf env specialization)
       = Returns token)
    (Hjoin : fetchJoin env = Returns response)
    (Hok : resp_ok response = true)
    (Hagent : resp_json response = Returns (Some agentId))
    (Hid : truthy agentId = true)
    (Hcall :
       placeCall env
         (getCallAction (nowGetCallAction env) channel (callActionStore st)).1
         userId (specializedChannelNameOf env specialization) phoneNumber
       = Returns callResult)
    (Hplaced : reportsFailure callResult = false) :
  let run :=
    runTask
      (createSpecializedVoiceAgent env appId userId channel specialization
         phoneNumber) st in
  run.2 = Returns (successResponse specialization phoneNumber)
  /\ getLatestAgent userId run.1
     = Some (mkAgentInfo agentId specialization
               (specializedChannelNameOf env specialization)
               (nowStoreAgent env))
  /\ JsMap.get (activePollingSessions run.1) (sessionKeyOf channel agentId)
     = Some (mkSession agentId userId channel specialization 0 "STARTING" 0
               None)
  /\ pollingCallbacks run.1 !! channel
     = Some (mkCallback appId userId channel agentId specialization)
  /\ activeSpecializedAgents run.1 = activeSpecializedAgents st
  /\ (forall statusEnv,
        getSpecializedAgentStatus statusEnv appId userId channel None run.1
        = getSpecializedAgentStatus statusEnv appId userId channel
            (Some agentId) run.1)
  /\ ((forall key session,
         In (key, session) (JsMap.entries (activePollingSessions st)) ->
         ps_channel session <> channel) ->
      (stopAgentPolling appId userId channel (mkStopArgs None None) run.1).1
      = "✅ Stopped monitoring agent " +:+ agentId
        +:+ ". Reason: manually stopped").
Proof.
  intros run.
  set (name := specializedChannelNameOf env specialization) in *.
  set (st1 := storeAgentInfo (nowStoreAgent env) userId agentId
                specialization name st).
  set (action := getCallAction (nowGetCallAction env) channel
                   (callActionStore st)) in *.
  set (st2 := set_callActionStore (fun _ => action.2) st1).
  assert (Hrun : run
    = (startAgentPolling appId userId channel agentId specialization st2,
       Returns (successResponse specialization phoneNumber))).
  { unfold run, createSpecializedVoiceAgent. rewrite Hconfig, Hvoice.
    fold (specializedChannelNameOf env specialization). fold name.
    rewrite Htoken. simpl. rewrite Hjoin, Hok, Hagent, Hid. simpl.
    fold name. fold st1.
    change (callActionStore st1) with (callActionStore st). fold action.
    destruct action as [callAction store'] eqn:Haction. simpl in Hcall.
    simpl. rewrite Hcall.
    unfold reportsFailure in Hplaced. rewrite Hplaced. reflexivity. }
  set (key := sessionKeyOf channel agentId).
  assert (Hsessions :
    activePollingSessions run.1
    = JsMap.set (activePollingSessions st) key
        (mkSession agentId userId channel specialization 0 "STARTING" 0
           None)).
  { rewrite Hrun. unfold startAgentPolling. simpl. fold key.
    destruct (JsMap.get (activePollingSessions st) key) as [existing|];
      [destruct (ps_intervalId existing)|]; reflexivity. }
  assert (Hparts :
    agentStore run.1
    = <[ userId := mkAgentInfo agentId specialization name
                     (nowStoreAgent env) ]> (agentStore st)
    /\ pollingCallbacks run.1
       = <[ channel := mkCallback appId userId channel agentId
                         specialization ]> (pollingCallbacks st)
    /\ activeSpecializedAgents run.1 = activeSpecializedAgents st).
  { rewrite Hrun. unfold startAgentPolling. simpl. fold key.
    destruct (JsMap.get (activePollingSessions st) key) as [existing|];
      [destruct (ps_intervalId existing)|]; repeat split; reflexivity. }
  destruct Hparts as (Hagents & Hcallbacks & Hguards).
  clearbody run.
  split; [now rewrite Hrun|].
  split; [unfold getLatestAgent; rewrite Hagents; apply lookup_insert_eq|].
  split; [rewrite Hsessions; apply get_set_eq|].
  split; [rewrite Hcallbacks; apply lookup_insert_eq|].
  split; [exact Hguards|].
  split.
  { intros statusEnv. unfold getSpecializedAgentStatus, getLatestAgent.
    rewrite Hagents, lookup_insert_eq. simpl. now rewrite Hid. }
  intros Hnone. unfold stopAgentPolling, locateSession. simpl.
  unfold JsMap.entries. rewrite Hsessions.
  rewrite findSessionByChannel_set by (exact Hnone || reflexivity).
  simpl. rewrite Hid. simpl. rewrite get_set_eq. reflexivity.
Qed.

Lemma successful_creation_registers_agent_witness :
  let run :=
    runTask
      (createSpecializedVoiceAgent workingEnv "app" "u1" "c1" "phone-ordering"
         "+15551234567") (acquireGuard "c1" emptyStores) in
  run.2 = Returns (successResponse "phone-ordering" "+15551234567")
  /\ getLatestAgent "u1" run.1
     = Some (mkAgentInfo "agent-1" "phone-ordering"
               "specialized-phone-ordering-1000-abc123" 1001).
Proof.
  pose proof (successful_creation_registers_agent workingEnv "app" "u1" "c1"
                "phone-ordering" "+15551234567"
                (acquireGuard "c1" emptyStores) "elevenlabs" "token" "agent-1"
                "Phone call initiated successfully"
                (mkJoinResponse true 200 "OK" (Returns "{}")
                   (Returns (Some "agent-1")))
                eq_refl eq_refl eq_refl eq_refl eq_refl eq_refl eq_refl
                eq_refl eq_refl) as H.
  split; [exact (proj1 H) | exact (proj1 (proj2 H))].
Defined.

(** ** What the process does to the stores *)

Lemma stretchesWithin_stretch {A} (R : Stores -> Stores -> Prop) (t : Task A)
    k :
  stretchesWithin R t -> stretchOf t k -> forall st, R st (k st).1.
Proof.
  intros Hwithin Hstretch. induction Hstretch as [k|k st0 k' _ IH].
  - inversion Hwithin; subst. assumption.
  - inversion Hwithin as [|k0 _ Hrest]; subst. apply IH, Hrest.
Qed.

Lemma onRejected_within {A} (R : Stores -> Stores -> Prop) (t : Task A)
    handler :
  neverRejects t -> stretchesWithin R t ->
  stretchesWithin R (onRejected t handler).
Proof.
  induction t as [o|k IH] using Task_induction; intros Hnever Hwithin.
  - inversion Hnever; subst. simpl. constructor.
  - inversion Hnever as [|k0 Hnever']; subst.
    inversion Hwithin as [|k0 Hhere Hrest]; subst.
    simpl. constructor.
    + intros st. specialize (Hhere st). destruct (k st). exact Hhere.
    + intros st. specialize (IH st (Hnever' st) (Hrest st)).
      destruct (k st). exact IH.
Qed.

Lemma createSpecializedVoiceAgent_effects
    env appId userId channel specialization phoneNumber :
  stretchesWithin backgroundEffect
    (createSpecializedVoiceAgent env appId userId channel specialization
       phoneNumber).
Proof.
  unfold createSpecializedVoiceAgent.
  destruct (missingConfig (config env)); [|constructor].
  destruct (getTTSConfig (config env)); [|constructor].
  destruct (buildTokenWithUid env _); [|constructor].
  constructor.
  - intros st. destruct (fetchJoin env) as [response|]; [|constructor].
    destruct (negb (resp_ok response)).
    { destruct (resp_text response); constructor. }
    destruct (resp_json response) as [agent_id|]; [|constructor].
    destruct agent_id as [id|]; [destruct (truthy id) eqn:Hid|].
    + match goal with
      | |- context [getCallAction ?n ?c ?s] =>
          pose proof (effect_provisioned (nowStoreAgent env) n userId id
                        specialization
                        ("specialized-" +:+ specialization +:+ "-"
                           +:+ ofZ (nowCreate env) +:+ "-"
                           +:+ randomSuffix env) c st Hid) as Heffect;
          change s with (callActionStore st);
          destruct (getCallAction n c (callActionStore st))
      end.
      exact Heffect.
    + match goal with
      | |- context [getCallAction ?n ?c ?s] =>
          pose proof (effect_routed n c st) as Heffect;
          destruct (getCallAction n c s)
      end.
      exact Heffect.
    + match goal with
      | |- context [getCallAction ?n ?c ?s] =>
          pose proof (effect_routed n c st) as Heffect;
          destruct (getCallAction n c s)
      end.
      exact Heffect.
  - intros st. destruct (fetchJoin env) as [response|]; [|constructor].
    destruct (negb (resp_ok response)).
    { destruct (resp_text response); constructor. }
    destruct (resp_json response) as [agent_id|]; [|constructor].
    destruct (getCallAction _ _ _) as [callAction store']. simpl.
    constructor.
    + intros st'.
      destruct (placeCall env callAction userId _ phoneNumber)
        as [callResult|]; [|constructor].
      destruct (includes callResult "Failed" || includes callResult "Error"
                || includes callResult "Invalid"); [constructor|].
      destruct agent_id as [id|]; [destruct (truthy id) eqn:Hid|];
        simpl; try constructor. exact Hid.
    + intros st'.
      destruct (placeCall env callAction userId _ phoneNumber)
        as [callResult|]; [|constructor].
      destruct (includes callResult "Failed" || includes callResult "Error"
                || includes callResult "Invalid"); constructor.
Qed.

Lemma background_stretch_effect
    env appId userId channel specialization phoneNumber k st :
  stretchOf
    (backgroundCreation env appId userId channel specialization phoneNumber)
    k ->
  backgroundEffect st (k st).1.
Proof.
  intros Hstretch. revert st.
  apply (stretchesWithin_stretch backgroundEffect
           (backgroundCreation env appId userId channel specialization
              phoneNumber) k); [|exact Hstretch].
  apply onRejected_within.
  - apply createSpecializedVoiceAgent_neverRejects.
  - apply createSpecializedVoiceAgent_effects.
Qed.

Lemma inquiry_stores env appId userId channel args st :
  let d := callAndAskQuestionAgent env appId userId channel args st in
  d_stores d = st
  \/ (guardHeld channel st = false /\ d_stores d = acquireGuard channel st).
Proof.
  unfold callAndAskQuestionAgent.
  repeat (case_match; simpl; auto).
Qed.

Lemma order_stores env appId userId channel args st :
  let d := placePhoneOrderAgent env appId userId channel args st in
  d_stores d = st
  \/ (guardHeld channel st = false /\ d_stores d = acquireGuard channel st).
Proof.
  unfold placePhoneOrderAgent.
  repeat (case_match; simpl; auto).
Qed.

Lemma reservation_stores env appId userId channel args st :
  let d := makeReservationAgent env appId userId channel args st in
  d_stores d = st
  \/ (guardHeld channel st = false /\ d_stores d = acquireGuard channel st).
Proof.
  unfold makeReservationAgent.
  repeat (case_match; simpl; auto).
Qed.

Lemma stop_stores appId userId channel args st :
  (stopAgentPolling appId userId channel args st).2 = st
  \/ exists key session,
       JsMap.get (activePollingSessions st) key = Some session
       /\ (stopAgentPolling appId userId channel args st).2
          = set_activeSpecializedAgents (delete channel)
              (set_pollingCallbacks (delete channel)
                 (set_activePollingSessions (fun m => JsMap.delete m key)
                    match ps_intervalId session with
                    | Some id => clearInterval id st
                    | None => st
                    end)).
Proof.
  unfold stopAgentPolling.
  destruct (locateSession channel args st) as [message|[key agentId]];
    [now left|].
  destruct (JsMap.get (activePollingSessions st) key) as [session|] eqn:Hget;
    [|now left].
  right. exists key, session. split; [exact Hget | reflexivity].
Qed.

(** How one operation may change each store. *)
Lemma operation_footprint st st' :
  operation st st' ->
  (callActionStore st' = callActionStore st
   \/ (exists now channel callAction,
         callActionStore st'
         = storeCallAction now channel callAction (callActionStore st))
   \/ (exists now channel,
         callActionStore st'
         = (getCallAction now channel (callActionStore st)).2))
  /\ (restaurantIndex st' = restaurantIndex st
      \/ exists clock userId results,
           restaurantIndex st'
           = storeYelpResults clock userId results (restaurantIndex st))
  /\ conversationContext st' = conversationContext st
  /\ (activePollingSessions st' = activePollingSessions st
      \/ (exists key session,
            freshSession key session
            /\ activePollingSessions st'
               = JsMap.set (activePollingSessions st) key session)
      \/ (exists key,
            activePollingSessions st'
            = JsMap.delete (activePollingSessions st) key))
  /\ (armedTimers st' = armedTimers st
      \/ exists id, armedTimers st' = armedTimers st ∖ {[ id ]})
  /\ (activeSpecializedAgents st' = activeSpecializedAgents st
      \/ (exists channel,
            activeSpecializedAgents st'
            = <[ channel := true ]> (activeSpecializedAgents st))
      \/ (exists channel,
            activeSpecializedAgents st'
            = delete channel (activeSpecializedAgents st))).
Proof.
  assert (Hsame : forall s,
    (callActionStore s = callActionStore s
     \/ (exists now channel callAction,
           callActionStore s
           = storeCallAction now channel callAction (callActionStore s))
     \/ (exists now channel,
           callActionStore s
           = (getCallAction now channel (callActionStore s)).2))
    /\ (restaurantIndex s = restaurantIndex s
        \/ exists clock userId results,
             restaurantIndex s
             = storeYelpResults clock userId results (restaurantIndex s))
    /\ conversationContext s = conversationContext s
    /\ (activePollingSessions s = activePollingSessions s
        \/ (exists key session,
              freshSession key session
              /\ activePollingSessions s
                 = JsMap.set (activePollingSessions s) key session)
        \/ (exists key,
              activePollingSessions s
              = JsMap.delete (activePollingSessions s) key))
    /\ (armedTimers s = armedTimers s
        \/ exists id, armedTimers s = armedTimers s ∖ {[ id ]})
    /\ (activeSpecializedAgents s = activeSpecializedAgents s
        \/ (exists channel,
              activeSpecializedAgents s
              = <[ channel := true ]> (activeSpecializedAgents s))
        \/ (exists channel,
              activeSpecializedAgents s
              = delete channel (activeSpecializedAgents s)))).
  { intros s. repeat split; now left. }
  assert (Hguarded : forall channel s,
    (callActionStore (acquireGuard channel s) = callActionStore s
     \/ (exists now channel' callAction,
           callActionStore (acquireGuard channel s)
           = storeCallAction now channel' callAction (callActionStore s))
     \/ (exists now channel',
           callActionStore (acquireGuard channel s)
           = (getCallAction now channel' (callActionStore s)).2))
    /\ (restaurantIndex (acquireGuard channel s) = restaurantIndex s
        \/ exists clock userId results,
             restaurantIndex (acquireGuard channel s)
             = storeYelpResults clock userId results (restaurantIndex s))
    /\ conversationContext (acquireGuard channel s) = conversationContext s
    /\ (activePollingSessions (acquireGuard channel s)
        = activePollingSessions s
        \/ (exists key session,
              freshSession key session
              /\ activePollingSessions (acquireGuard channel s)
                 = JsMap.set (activePollingSessions s) key session)
        \/ (exists key,
              activePollingSessions (acquireGuard channel s)
              = JsMap.delete (activePollingSessions s) key))
    /\ (armedTimers (acquireGuard channel s) = armedTimers s
        \/ exists id,
             armedTimers (acquireGuard channel s) = armedTimers s ∖ {[ id ]})
    /\ (activeSpecializedAgents (acquireGuard channel s)
        = activeSpecializedAgents s
        \/ (exists channel',
              activeSpecializedAgents (acquireGuard channel s)
              = <[ channel' := true ]> (activeSpecializedAgents s))
        \/ (exists channel',
              activeSpecializedAgents (acquireGuard channel s)
              = delete channel' (activeSpecializedAgents s)))).
  { intros channel s. repeat split; try (now left).
    right. left. now exists channel. }
  intros Hop. destruct Hop.
  - repeat split; try (now left). right. left. now exists now, channel, callAction.
  - repeat split; try (now left). right. now exists clock, userId, results.
  - destruct (inquiry_stores env appId userId channel args st)
      as [-> | [_ ->]]; auto.
  - destruct (order_stores env appId userId channel args st)
      as [-> | [_ ->]]; auto.
  - destruct (reservation_stores env appId userId channel args st)
      as [-> | [_ ->]]; auto.
  - destruct (stop_stores appId userId channel args st)
      as [-> | (key & session & Hget & ->)]; auto.
    destruct (ps_intervalId session) as [id|]; simpl.
    + repeat split; try (now left).
      * right. right. now exists key.
      * right. now exists id.
      * right. right. now exists channel.
    + repeat split; try (now left).
      * right. right. now exists key.
      * right. right. now exists channel.
  - pose proof (background_stretch_effect env appId userId channel
                  specialization phoneNumber k st H) as Heffect.
    destruct Heffect.
    + auto.
    + repeat split; try (now left). right. right. now exists now', channel0.
    + repeat split; try (now left). right. right. now exists now', channel0.
    + unfold startAgentPolling.
      set (key := sessionKeyOf channel0 agentId).
      assert (Hfresh : freshSession key
                (mkSession agentId userId0 channel0 type 0 "STARTING" 0 None))
        by (repeat split; assumption).
      destruct (JsMap.get (activePollingSessions st) key) as [existing|];
        [destruct (ps_intervalId existing) as [id|]|]; simpl;
        repeat split; try (now left);
        try (right; left; eexists _, _; split; [exact Hfresh | reflexivity]).
      right. now exists id.
Qed.

Lemma in_set {V} (m : JsMap.t V) key v k x :
  In (k, x) (JsMap.set m key v) -> (k, x) = (key, v) \/ In (k, x) m.
Proof.
  induction m as [|[k' v'] m IH]; simpl.
  - intros [H|[]]. now left.
  - destruct (String.eqb k' key) eqn:E; simpl.
    + apply String.eqb_eq in E. subst k'.
      intros [H|H]; [left; exact (eq_sym H) | right; now right].
    + intros [H|H]; [right; now left|].
      destruct (IH H) as [H'|H']; [now left | right; now right].
Qed.

Lemma in_delete {V} (m : JsMap.t V) key k x :
  In (k, x) (JsMap.delete m key) -> In (k, x) m.
Proof.
  induction m as [|[k' v'] m IH]; simpl; [auto|].
  destruct (String.eqb k' key); simpl.
  - intros H. right. now apply IH.
  - intros [H|H]; [now left | right; now apply IH].
Qed.

Lemma findPhoneLoop_in name restaurants phone :
  findPhoneLoop name restaurants = Some phone ->
  exists r, In r restaurants /\ r_phone r = phone.
Proof.
  induction restaurants as [|r restaurants IH]; simpl; [discriminate|].
  destruct (includes (normalizeName (r_name r)) name
            || includes name (normalizeName (r_name r))).
  - intros [= <-]. exists r. split; [now left | reflexivity].
  - intros H. destruct (IH H) as (r' & Hin & Hphone).
    exists r'. split; [now right | exact Hphone].
Qed.

Lemma recordsWellFormed_step st st' :
  operation st st' -> recordsWellFormed st -> recordsWellFormed st'.
Proof.
  intros Hop [Hactions Hindex].
  destruct (operation_footprint st st' Hop)
    as (Hactions' & Hindex' & _).
  split.
  - destruct Hactions'
      as [-> | [(now & channel & callAction & ->) | (now & channel & ->)]].
    + exact Hactions.
    + now apply storeCallAction_no_empty_channel.
    + now apply getCallAction_no_empty_channel.
  - intros userId userIndex.
    destruct Hindex' as [-> | (clock & user & results & ->)];
      [apply Hindex|].
    destruct (decide (userId = user)) as [->|Hother].
    + rewrite storeYelpResults_user. intros [= <-].
      destruct (restaurantIndex st !! user) as [before|] eqn:Hbefore; simpl.
      * destruct (Hindex user before Hbefore) as [Hphones Hunique].
        split; [now apply storeYelpLoop_phonesRecorded
               | now apply storeYelpLoop_uniqueKeys].
      * split; [now apply storeYelpLoop_phonesRecorded
               | now apply storeYelpLoop_uniqueKeys].
    + rewrite storeYelpResults_other_user by exact Hother. apply Hindex.
Qed.

(** X14.  The directories and the call-action preferences are well formed
    in every state the process reaches: no preference is stored for the
    empty channel, and every user's index has one entry per restaurant id
    and a non-empty phone in every entry.  So a phone number that
    [findPhoneNumber] finds is never empty. *)
Theorem reachable_records_well_formed (st : Stores) (Hreach : reachable st) :
  callActionStore st !! "" = None
  /\ (forall userId userIndex,
        restaurantIndex st !! userId = Some userIndex ->
        phonesRecorded userIndex = true /\ uniqueKeys userIndex = true)
  /\ (forall userId restaurantName phone,
        findPhoneNumber (restaurantIndex st) userId restaurantName
        = Some phone ->
        truthy phone = true).
Proof.
  assert (Hwf : recordsWellFormed st).
  { induction Hreach as [|st st' _ IH Hop].
    - split; [reflexivity|]. intros userId userIndex H. discriminate H.
    - now apply (recordsWellFormed_step st st'). }
  destruct Hwf as [Hactions Hindex].
  split; [exact Hactions | split; [exact Hindex|]].
  intros userId restaurantName phone. unfold findPhoneNumber.
  destruct (restaurantIndex st !! userId) as [userIndex|] eqn:Huser;
    [|discriminate].
  destruct (JsMap.size userIndex =? 0)%nat; [discriminate|].
  intros Hfound. apply findPhoneLoop_in in Hfound as (r & Hin & <-).
  destruct (Hindex userId userIndex Huser) as [Hphones _].
  unfold phonesRecorded in Hphones.
  rewrite forallb_forall in Hphones. now apply Hphones.
Qed.

Lemma sessionsWellFormed_step st st' :
  operation st st' -> sessionsWellFormed st -> sessionsWellFormed st'.
Proof.
  intros Hop (Hunique & Hfresh & Htimers).
  destruct (operation_footprint st st' Hop)
    as (_ & _ & _ & Hsessions & Htimers' & _).
  split; [|split].
  - destruct Hsessions as [-> | [(key & session & _ & ->) | (key & ->)]].
    + exact Hunique.
    + now apply uniqueKeys_set.
    + now apply uniqueKeys_delete.
  - intros k s. unfold JsMap.entries in *.
    destruct Hsessions
      as [-> | [(key & session & Hnew & ->) | (key & ->)]].
    + apply Hfresh.
    + intros Hin. apply in_set in Hin as [Heq | Hin];
        [injection Heq as -> ->; exact Hnew | now apply Hfresh].
    + intros Hin. apply in_delete in Hin. now apply Hfresh.
  - destruct Htimers' as [-> | (id & ->)]; [exact Htimers|].
    rewrite Htimers. apply leibniz_equiv, empty_difference.
Qed.

(** X15.  No polling session is ever polled.  In every state the process
    reaches, the session map holds one session per key, every session is
    as [startAgentPolling] made it — stored under the key of its channel
    and agent, with an agent id, poll count [0], last status
    ['STARTING'] and no interval timer — and no timer is armed: nothing in
    the process updates a session or starts a timer. *)
Theorem reachable_sessions_never_polled (st : Stores) (Hreach : reachable st) :
  uniqueKeys (activePollingSessions st) = true
  /\ (forall key session,
        JsMap.get (activePollingSessions st) key = Some session ->
        key = sessionKeyOf (ps_channel session) (ps_agentId session)
        /\ truthy (ps_agentId session) = true
        /\ ps_pollCount session = 0
        /\ ps_lastStatus session = "STARTING"
        /\ ps_consecutiveUnchangedCount session = 0
        /\ ps_intervalId session = None)
  /\ armedTimers st = ∅.
Proof.
  assert (Hwf : sessionsWellFormed st).
  { induction Hreach as [|st st' _ IH Hop].
    - split; [reflexivity | split; [intros key session []|reflexivity]].
    - now apply (sessionsWellFormed_step st st'). }
  destruct Hwf as (Hunique & Hfresh & Htimers).
  split; [exact Hunique | split; [|exact Htimers]].
  intros key session Hget. apply get_in in Hget. now apply Hfresh.
Qed.

(** X16.  The conversation context is never written: no operation of
    the process calls [injectStatusIntoConversation], so in every state
    the process reaches the context map is empty,
    [getConversationContext] has nothing for any channel, and
    [getLatestAgentStatus] is the status check of the user's latest agent
    ([getSpecializedAgentStatus] without agent id). *)
Theorem reachable_context_never_written (st : Stores) (Hreach : reachable st) :
  conversationContext st = ∅
  /\ (forall channel, getConversationContext channel st = None)
  /\ (forall env appId userId channel,
        getLatestAgentStatus env appId userId channel st
        = getSpecializedAgentStatus env appId userId channel None st).
Proof.
  assert (Hempty : conversationContext st = ∅).
  { induction Hreach as [|st st' _ IH Hop]; [reflexivity|].
    destruct (operation_footprint st st' Hop) as (_ & _ & -> & _).
    exact IH. }
  assert (Hnone : forall channel, getConversationContext channel st = None).
  { intros channel. unfold getConversationContext.
    now rewrite Hempty, lookup_empty. }
  split; [exact Hempty | split; [exact Hnone|]].
  intros env appId userId channel. unfold getLatestAgentStatus.
  now rewrite Hnone.
Qed.

Lemma guardHeld_acquire_ne channel other st :
  other <> channel ->
  guardHeld other (acquireGuard channel st) = guardHeld other st.
Proof.
  intros Hother. unfold guardHeld, acquireGuard. simpl.
  now rewrite lookup_insert_ne by congruence.
Qed.

Lemma backgroundEffect_guards st st' :
  backgroundEffect st st' ->
  activeSpecializedAgents st' = activeSpecializedAgents st.
Proof.
  intros Heffect. destruct Heffect; try reflexivity.
  apply startAgentPolling_guard.
Qed.

(** X17.  The guard of a channel changes hands in two ways only.  An
    operation after which a held guard is no longer held is a
    [stopAgentPolling] on that channel that found a session and removed
    it; an operation after which a free guard is held is a dispatch that
    was accepted on that channel and did nothing but take the guard.  No
    search, no preference, no step of a background promise and no stop
    that finds nothing changes a guard. *)
Theorem guard_changes_only_by_dispatch_and_stop
    (channel : string) (st st' : Stores) (Hop : operation st st') :
  (guardHeld channel st = true -> guardHeld channel st' = false ->
   exists appId userId args key session,
     st' = (stopAgentPolling appId userId channel args st).2
     /\ JsMap.get (activePollingSessions st) key = Some session
     /\ activePollingSessions st'
        = JsMap.delete (activePollingSessions st) key)
  /\ (guardHeld channel st = false -> guardHeld channel st' = true ->
      st' = acquireGuard channel st).
Proof.
  assert (Hwrapper : forall channel0 s,
    s = st
    \/ (guardHeld channel0 st = false /\ s = acquireGuard channel0 st) ->
    (guardHeld channel st = true -> guardHeld channel s = false -> False)
    /\ (guardHeld channel st = false -> guardHeld channel s = true ->
        s = acquireGuard channel st)).
  { intros channel0 s [-> | [Hfree ->]].
    - split; intros H1 H2; congruence.
    - destruct (decide (channel = channel0)) as [->|Hne].
      + split; [|reflexivity]. intros H1 H2. congruence.
      + rewrite guardHeld_acquire_ne by exact Hne.
        split; intros H1 H2; congruence. }
  assert (Hkept : forall s,
    activeSpecializedAgents s = activeSpecializedAgents st ->
    (guardHeld channel st = true -> guardHeld channel s = false -> False)
    /\ (guardHeld channel st = false -> guardHeld channel s = true -> False)).
  { intros s Hguards. unfold guardHeld. rewrite Hguards.
    split; intros H1 H2; congruence. }
  destruct Hop.
  - destruct (Hkept _ (eq_refl : activeSpecializedAgents
        (set_callActionStore (storeCallAction now channel0 callAction) st)
        = activeSpecializedAgents st)) as [H1 H2].
    split; intros; exfalso; eauto.
  - destruct (Hkept _ (eq_refl : activeSpecializedAgents
        (set_restaurantIndex (storeYelpResults clock userId results) st)
        = activeSpecializedAgents st)) as [H1 H2].
    split; intros; exfalso; eauto.
  - destruct (Hwrapper channel0 _
                (inquiry_stores env appId userId channel0 args st))
      as [H1 H2].
    split; [intros; exfalso; eauto | exact H2].
  - destruct (Hwrapper channel0 _
                (order_stores env appId userId channel0 args st))
      as [H1 H2].
    split; [intros; exfalso; eauto | exact H2].
  - destruct (Hwrapper channel0 _
                (reservation_stores env appId userId channel0 args st))
      as [H1 H2].
    split; [intros; exfalso; eauto | exact H2].
  - destruct (stop_stores appId userId channel0 args st)
      as [Hsame | (key & session & Hget & Hstopped)].
    + rewrite Hsame. split; intros H1 H2; congruence.
    + assert (Hguards :
        activeSpecializedAgents (stopAgentPolling appId userId channel0 args st).2
        = delete channel0 (activeSpecializedAgents st)).
      { rewrite Hstopped. destruct (ps_intervalId session); reflexivity. }
      assert (Hsessions :
        activePollingSessions (stopAgentPolling appId userId channel0 args st).2
        = JsMap.delete (activePollingSessions st) key).
      { rewrite Hstopped. destruct (ps_intervalId session); reflexivity. }
      destruct (decide (channel = channel0)) as [->|Hne].
      * split.
        -- intros _ _. exists appId, userId, args, key, session. auto.
        -- intros _. unfold guardHeld. rewrite Hguards, lookup_delete_eq.
           discriminate.
      * unfold guardHeld at 2 4. rewrite Hguards.
        rewrite lookup_delete_ne by congruence.
        fold (guardHeld channel st). split; intros H1 H2; congruence.
  - pose proof (background_stretch_effect env appId userId channel0
                  specialization phoneNumber k st H) as Heffect.
    destruct (Hkept _ (backgroundEffect_guards _ _ Heffect)) as [H1 H2].
    split; intros; exfalso; eauto.
Qed.

Lemma reachable_afterOrder : reachable afterOrder.
Proof.
  unfold afterOrder, settle.
  set (d := placePhoneOrderAgent workingEnv "app" "u1" "c1" sampleOrder
              emptyStores).
  assert (Hdispatched : reachable (d_stores d))
    by (apply (reachable_step emptyStores);
        [apply reachable_start | apply op_order]).
  assert (Htask : d_background d
                  = Some (backgroundCreation workingEnv "app" "u1" "c1"
                            "phone-ordering" "+15551234567"))
    by reflexivity.
  rewrite Htask.
  set (task := backgroundCreation workingEnv "app" "u1" "c1" "phone-ordering"
                 "+15551234567").
  assert (Hfirst : exists k1, task = Awaiting k1) by (eexists; reflexivity).
  destruct Hfirst as [k1 Hk1].
  assert (Hsecond : exists k2, (k1 (d_stores d)).2 = Awaiting k2).
  { injection Hk1 as <-. eexists. reflexivity. }
  destruct Hsecond as [k2 Hk2].
  assert (Hend : exists o, (k2 (k1 (d_stores d)).1).2 = Settled o).
  { injection Hk1 as <-. injection Hk2 as <-. eexists. reflexivity. }
  destruct Hend as [o Ho].
  assert (Hrun : (runTask task (d_stores d)).1 = (k2 (k1 (d_stores d)).1).1).
  { rewrite Hk1. simpl. destruct (k1 (d_stores d)) as [st1 t1] eqn:E1.
    simpl in *. rewrite Hk2. simpl.
    destruct (k2 st1) as [st2 t2] eqn:E2. simpl in *. now rewrite Ho. }
  rewrite Hrun.
  apply (reachable_step (k1 (d_stores d)).1).
  - apply (reachable_step (d_stores d)); [exact Hdispatched|].
    apply (op_background workingEnv "app" "u1" "c1" "phone-ordering"
             "+15551234567"). fold task. rewrite Hk1. apply stretch_here.
  - apply (op_background workingEnv "app" "u1" "c1" "phone-ordering"
             "+15551234567"). fold task. rewrite Hk1.
    apply (stretch_later k1 (d_stores d)). rewrite Hk2. apply stretch_here.
Qed.

(** ** Stopping, in the states the process reaches *)





Lemma reachable_records_well_formed_witness :
  callActionStore
    (set_restaurantIndex
       (storeYelpResults (fun _ => 100) "u1"
          [mkYelpResult "Tony's Pizza" "+15551234567" "tp"]) emptyStores)
  !! "" = None.
Proof.
  apply (reachable_records_well_formed
           (set_restaurantIndex
              (storeYelpResults (fun _ => 100) "u1"
                 [mkYelpResult "Tony's Pizza" "+15551234567" "tp"])
              emptyStores)).
  apply (reachable_step emptyStores);
    [apply reachable_start | apply op_storeYelpResults].
Defined.

Lemma reachable_sessions_never_polled_witness :
  uniqueKeys (activePollingSessions afterOrder) = true
  /\ armedTimers afterOrder = ∅.
Proof.
  pose proof (reachable_sessions_never_polled afterOrder reachable_afterOrder)
    as H.
  split; [exact (proj1 H) | exact (proj2 (proj2 H))].
Defined.

Lemma reachable_context_never_written_witness :
  conversationContext afterOrder = ∅
  /\ getConversationContext "c1" afterOrder = None.
Proof.
  pose proof (reachable_context_never_written afterOrder reachable_afterOrder)
    as H.
  split; [exact (proj1 H) | exact (proj1 (proj2 H) "c1")].
Defined.

Lemma guard_changes_only_by_dispatch_and_stop_witness :
  exists appId userId args key session,
    (stopAgentPolling "app" "u1" "c1" (mkStopArgs None None) afterOrder).2
    = (stopAgentPolling appId userId "c1" args afterOrder).2
    /\ JsMap.get (activePollingSessions afterOrder) key = Some session
    /\ activePollingSessions
         (stopAgentPolling "app" "u1" "c1" (mkStopArgs None None) afterOrder).2
       = JsMap.delete (activePollingSessions afterOrder) key.
Proof.
  apply (proj1 (guard_changes_only_by_dispatch_and_stop "c1" afterOrder _
                  (op_stop "app" "u1" "c1" (mkStopArgs None None)
                     afterOrder)));
    reflexivity.
Defined.

(** ** The tool-call loop, further *)

Section DispatcherFurther.

Context {World JsonValue Params Extras : Type}.
Context (JSON_parse : string -> Outcome JsonValue).
Context (versionedFunctions : string -> option (FunctionHandler World JsonValue)).
Context (create : CompletionRequest Params Extras -> World ->
                  Outcome ChatCompletion * World).

Local Abbreviation step := (processToolCall JSON_parse versionedFunctions).
Local Abbreviation loop := (processToolCalls JSON_parse versionedFunctions).
Local Abbreviation run :=
  (processNonStreamingRequest JSON_parse versionedFunctions create).

Lemma loop_app context before after (s : LoopState World JsonValue) :
  loop context (before ++ after) s
  = match loop context before s with
    | Continue s' => loop context after s'
    | Abort s' e => Abort s' e
    end.
Proof.
  revert s. induction before as [|toolCall before IH]; intros s;
    [reflexivity|].
  simpl. destruct (step context toolCall s); [apply IH | reflexivity].
Qed.

Lemma step_abort context toolCall (s s' : LoopState World JsonValue) e :
  step context toolCall s = Abort s' e ->
  fullMessages s' = fullMessages s
  /\ ((JSON_parse (tc_arguments toolCall) = Throws e
       /\ invoked s' = invoked s /\ world s' = world s)
      \/ exists handler functionArgs,
           versionedFunctions (tc_name toolCall) = Some handler
           /\ JSON_parse (tc_arguments toolCall) = Returns functionArgs
           /\ handler (ctx_appId context) (ctx_userId context)
                (ctx_channel context) functionArgs (world s)
              = (Throws e, world s')
           /\ invoked s' = invoked s ++ [(tc_name toolCall, functionArgs)]).
Proof.
  unfold processToolCall.
  destruct (bool_decide (tc_name toolCall ∈ executedFunctions s));
    [discriminate|].
  destruct (versionedFunctions (tc_name toolCall)) as [handler|];
    [|discriminate].
  destruct (isPhoneCallFunction (tc_name toolCall)
            && (existsb mentionsRecentCall (lastFifteen (fullMessages s))
                || existsb soundsLikeSomeoneJoined
                     (lastFifteen (fullMessages s)))); [discriminate|].
  destruct (JSON_parse (tc_arguments toolCall)) as [functionArgs|e0] eqn:Hparse.
  - destruct (handler _ _ _ functionArgs (world s)) as [[result|e0] w]
      eqn:Hcall.
    + destruct (responseTypeOf (tc_name toolCall)) as [[]|]; discriminate.
    + intros [= <- <-]. simpl. split; [reflexivity|].
      right. exists handler, functionArgs. auto.
  - intros [= <- <-]. simpl. split; [reflexivity|]. left. auto.
Qed.

(** X18.  A tool call that fails ends the turn on the spot.  When the
    arguments of a tool call do not parse, or its handler throws, the
    calls behind it are never looked at, no follow-up request is made, and
    the turn fails with the one message ['Failed to process chat
    completion with Cerebras'] whatever was thrown; the handlers that ran
    before it have run (their effects on the world stay) but their results
    are not reported to the model. *)
Theorem failed_tool_call_ends_turn
    (requestOptions : RequestOptions Params Extras)
    (messages : list ChatMessage) (context : RequestContext) (w w1 : World)
    (response : ChatCompletion) (choice : ResponseMessage)
    (before after : list ToolCall) (toolCall : ToolCall)
    (s s' : LoopState World JsonValue) (e : Thrown)
    (Hfirst :
       create
         (mkRequest (ro_model requestOptions) (ro_messages requestOptions)
            (ro_params requestOptions) (Some (ro_extras requestOptions))) w
       = (Returns response, w1))
    (Hchoice : firstChoiceMessage response = Some choice)
    (Hcalls : rm_tool_calls choice = Some (before ++ toolCall :: after))
    (Hbefore :
       loop context before
         (mkLoop
            (messages
             ++ [mkMessage assistant (rm_content choice) None
                   (before ++ toolCall :: after)])
            false ∅ w1 [])
       = Continue s)
    (Hfails : step context toolCall s = Abort s' e) :
  let result := run requestOptions messages context w in
  run_outcome result = Throws cerebrasFailure
  /\ run_requests result
     = [mkRequest (ro_model requestOptions) (ro_messages requestOptions)
          (ro_params requestOptions) (Some (ro_extras requestOptions))]
  /\ run_messages result = fullMessages s
  /\ run_world result = world s'
  /\ (run_invoked result = invoked s
      \/ exists functionArgs,
           run_invoked result
           = invoked s ++ [(tc_name toolCall, functionArgs)]).
Proof.
  intros result.
  assert (Hloop :
    loop context (before ++ toolCall :: after)
      (mkLoop
         (messages
          ++ [mkMessage assistant (rm_content choice) None
                (before ++ toolCall :: after)])
         false ∅ w1 [])
    = Abort s' e).
  { rewrite loop_app, Hbefore. simpl. now rewrite Hfails. }
  assert (Hresult : result
    = mkRun (Throws cerebrasFailure) (world s')
        [mkRequest (ro_model requestOptions) (ro_messages requestOptions)
           (ro_params requestOptions) (Some (ro_extras requestOptions))]
        (invoked s') (fullMessages s')).
  { unfold result, processNonStreamingRequest.
    rewrite Hfirst, Hchoice, Hcalls.
    remember (before ++ toolCall :: after) as toolCalls eqn:Hlist.
    destruct toolCalls; [destruct before; discriminate|].
    rewrite Hloop. reflexivity. }
  destruct (step_abort context toolCall s s' e Hfails)
    as [Hmessages Hcause].
  rewrite Hresult. simpl.
  repeat split; try assumption.
  destruct Hcause as [(_ & Hinvoked & _) | (handler & args & _ & _ & _ & Hinvoked)].
  - now left.
  - right. now exists args.
Qed.

Lemma loop_unknown context toolCalls (s : LoopState World JsonValue) :
  Forall (fun toolCall => versionedFunctions (tc_name toolCall) = None)
    toolCalls ->
  loop context toolCalls s = Continue s.
Proof.
  induction 1 as [|toolCall toolCalls Hunknown _ IH]; [reflexivity|].
  simpl. now rewrite step_skips_unknown.
Qed.

(** X19.  Tool calls that name no function of the map are passed over in
    silence: when none of the requested names is in the function map, no
    handler runs, no tool message is added, no follow-up request is made,
    and the caller gets the model's first response, tool calls
    included. *)
Theorem unknown_tools_passed_over
    (requestOptions : RequestOptions Params Extras)
    (messages : list ChatMessage) (context : RequestContext) (w w1 : World)
    (response : ChatCompletion) (choice : ResponseMessage)
    (toolCalls : list ToolCall)
    (Hfirst :
       create
         (mkRequest (ro_model requestOptions) (ro_messages requestOptions)
            (ro_params requestOptions) (Some (ro_extras requestOptions))) w
       = (Returns response, w1))
    (Hchoice : firstChoiceMessage response = Some choice)
    (Hcalls : rm_tool_calls choice = Some toolCalls)
    (Hunknown :
       Forall (fun toolCall => versionedFunctions (tc_name toolCall) = None)
         toolCalls) :
  let result := run requestOptions messages context w in
  run_outcome result = Returns response
  /\ run_requests result
     = [mkRequest (ro_model requestOptions) (ro_messages requestOptions)
          (ro_params requestOptions) (Some (ro_extras requestOptions))]
  /\ run_invoked result = []
  /\ run_world result = w1
  /\ (run_messages result = messages
      \/ run_messages result
         = messages ++ [mkMessage assistant (rm_content choice) None toolCalls]).
Proof.
  intros result. unfold result, processNonStreamingRequest.
  rewrite Hfirst, Hchoice, Hcalls.
  destruct toolCalls as [|toolCall toolCalls]; [simpl; auto 10|].
  rewrite loop_unknown by exact Hunknown. simpl. auto 10.
Qed.

Lemma step_answers context toolCall (s : LoopState World JsonValue) :
  fullMessages (stateOf (step context toolCall s)) = fullMessages s
  \/ exists text,
       fullMessages (stateOf (step context toolCall s))
       = fullMessages s ++ [toolMessage text (tc_id toolCall)].
Proof.
  unfold processToolCall.
  destruct (bool_decide (tc_name toolCall ∈ executedFunctions s));
    [now left|].
  destruct (versionedFunctions (tc_name toolCall)) as [handler|];
    [|now left].
  destruct (isPhoneCallFunction (tc_name toolCall)
            && (existsb mentionsRecentCall (lastFifteen (fullMessages s))
                || existsb soundsLikeSomeoneJoined
                     (lastFifteen (fullMessages s)))).
  { right. eexists. reflexivity. }
  destruct (JSON_parse (tc_arguments toolCall)) as [functionArgs|e0];
    [|now left].
  destruct (handler _ _ _ functionArgs (world s)) as [[result|e0] w];
    [|now left].
  destruct (responseTypeOf (tc_name toolCall)) as [[]|]; simpl;
    [right; eexists; reflexivity | right; eexists; reflexivity | now left].
Qed.

(** X20.  Every tool message of a turn answers a requested tool call:
    however the loop ends, the messages it leaves are the messages it
    started with followed by tool messages only, each carrying the id of
    one of the requested calls, at most one per request and in the order
    of the requests.  The history is never rewritten by the loop. *)
Theorem tool_results_follow_requests
    (context : RequestContext) (toolCalls : list ToolCall)
    (s : LoopState World JsonValue) :
  exists answered results,
    sublist answered toolCalls
    /\ fullMessages (stateOf (loop context toolCalls s))
       = fullMessages s ++ results
    /\ Forall2
         (fun message toolCall =>
            role message = tool
            /\ tool_call_id message = Some (tc_id toolCall))
         results answered
    /\ (length results <= length toolCalls)%nat.
Proof.
  revert s. induction toolCalls as [|toolCall toolCalls IH]; intros s.
  - exists [], []. simpl. rewrite app_nil_r.
    repeat split; [constructor | constructor | lia].
  - simpl.
    destruct (step_answers context toolCall s) as [Hsame | [text Hone]].
    + destruct (step context toolCall s) as [s1|s1 e] eqn:Hstep;
        simpl in Hsame.
      * destruct (IH s1) as (answered & results & Hsub & Hmessages & Hall
                             & Hlength).
        exists answered, results. rewrite Hmessages, Hsame.
        repeat split; [now apply sublist_cons | exact Hall | simpl; lia].
      * exists [], []. simpl. rewrite app_nil_r.
        repeat split; [apply sublist_nil_l | exact Hsame | constructor | lia].
    + destruct (step context toolCall s) as [s1|s1 e] eqn:Hstep;
        simpl in Hone.
      * destruct (IH s1) as (answered & results & Hsub & Hmessages & Hall
                             & Hlength).
        exists (toolCall :: answered), (toolMessage text (tc_id toolCall)
                                        :: results).
        rewrite Hmessages, Hone, <- app_assoc.
        repeat split;
          [now apply sublist_skip | constructor; [repeat split | exact Hall]
          | simpl; lia].
      * exists [toolCall], [toolMessage text (tc_id toolCall)].
        repeat split;
          [apply sublist_skip, sublist_nil_l | exact Hone
          | repeat constructor | simpl; lia].
Qed.

(** X21.  A turn makes one or two completion requests and offers the tools
    once: the first request carries the tools, a follow-up request carries
    none (with the model and the sampling parameters of the first), so the
    model's answer to the tool results cannot start another round of tool
    calls; and the only error a turn ends with is ['Failed to process chat
    completion with Cerebras'], whatever went wrong. *)
Theorem turn_requests_and_failures
    (requestOptions : RequestOptions Params Extras)
    (messages : list ChatMessage) (context : RequestContext) (w : World) :
  let result := run requestOptions messages context w in
  let firstRequest :=
    mkRequest (ro_model requestOptions) (ro_messages requestOptions)
      (ro_params requestOptions) (Some (ro_extras requestOptions)) in
  (run_requests result = [firstRequest]
   \/ exists finalMessages,
        run_requests result
        = [firstRequest;
           mkRequest (ro_model requestOptions) finalMessages
             (ro_params requestOptions) None])
  /\ (forall e, run_outcome result = Throws e -> e = cerebrasFailure).
Proof.
  intros result firstRequest. unfold result, processNonStreamingRequest.
  fold firstRequest.
  destruct (create firstRequest w) as [[response|e0] w1];
    [|simpl; split; [now left | now intros e [= <-]]].
  destruct (firstChoiceMessage response) as [choice|];
    [|simpl; split; [now left | discriminate]].
  destruct (rm_tool_calls choice) as [[|toolCall toolCalls]|];
    try (simpl; split; [now left | discriminate]).
  destruct (loop context (toolCall :: toolCalls) _) as [s|s e0];
    [|simpl; split; [now left | now intros e [= <-]]].
  destruct (hasDataTools s); [|simpl; split; [now left | discriminate]].
  match goal with
  | |- context [create ?request (world s)] =>
      destruct (create request (world s)) as [[finalResponse|e0] w2]
  end; simpl.
  - split; [right; eexists; reflexivity | discriminate].
  - split; [right; eexists; reflexivity | now intros e [= <-]].
Qed.

End DispatcherFurther.

Lemma failed_tool_call_ends_turn_witness :
  let result :=
    processNonStreamingRequest demoParse demoFunctions
      (demoCreate [detailsCall; mkToolCall "t2" "call_phone" "{"])
      (demoOptions "llama-4-scout-17b-16e-instruct") demoHistory demoContext
      tt in
  run_outcome result = Throws cerebrasFailure
  /\ run_requests result
     = [mkRequest "llama-4-scout-17b-16e-instruct" demoHistory tt (Some tt)].
Proof.
  pose proof (failed_tool_call_ends_turn demoParse demoFunctions
                (demoCreate [detailsCall; mkToolCall "t2" "call_phone" "{"])
                (demoOptions "llama-4-scout-17b-16e-instruct") demoHistory
                demoContext tt tt
                (demoToolResponse
                   [detailsCall; mkToolCall "t2" "call_phone" "{"])
                (mkResponseMessage NoContent
                   (Some [detailsCall; mkToolCall "t2" "call_phone" "{"]))
                [detailsCall] [] (mkToolCall "t2" "call_phone" "{")
                _ _ _ eq_refl eq_refl eq_refl eq_refl eq_refl) as H.
  split; [exact (proj1 H) | exact (proj1 (proj2 H))].
Defined.

Lemma unknown_tools_passed_over_witness :
  let result :=
    processNonStreamingRequest demoParse demoFunctions
      (demoCreate [mkToolCall "t1" "book_flight" "{}"])
      (demoOptions "llama-4-scout-17b-16e-instruct") demoHistory demoContext
      tt in
  run_outcome result
  = Returns (demoToolResponse [mkToolCall "t1" "book_flight" "{}"])
  /\ run_invoked result = [].
Proof.
  pose proof (unknown_tools_passed_over demoParse demoFunctions
                (demoCreate [mkToolCall "t1" "book_flight" "{}"])
                (demoOptions "llama-4-scout-17b-16e-instruct") demoHistory
                demoContext tt tt
                (demoToolResponse [mkToolCall "t1" "book_flight" "{}"])
                (mkResponseMessage NoContent
                   (Some [mkToolCall "t1" "book_flight" "{}"]))
                [mkToolCall "t1" "book_flight" "{}"]
                eq_refl eq_refl eq_refl
                ltac:(repeat constructor)) as H.
  split; [exact (proj1 H) | exact (proj1 (proj2 (proj2 H)))].
Defined.

(** ** The index as a handler shows it *)

(** X22.  The handler [get_indexed_restaurants] looks the index up under
    the application id, not the user id: it is [getIndexedRestaurants],
    whose one parameter receives the first argument of the handler call.
    Its answer does not depend on the user, a search stored for a user
    other than the application id never changes it, and when nothing is
    indexed under the application id it reports that no restaurant is
    indexed although the user's own index has entries. *)
Theorem get_indexed_restaurants_keyed_by_app
    (appId userId channel : string) (st : Stores) :
  (forall otherUser otherChannel,
     get_indexed_restaurants appId otherUser otherChannel st
     = get_indexed_restaurants appId userId channel st)
  /\ (forall clock results,
        userId <> appId ->
        get_indexed_restaurants appId userId channel
          (set_restaurantIndex (storeYelpResults clock userId results) st)
        = get_indexed_restaurants appId userId channel st)
  /\ (restaurantIndex st !! appId = None ->
      get_indexed_restaurants appId userId channel st = noRestaurantsIndexed)
  /\ (forall clock result results,
        userId <> appId -> restaurantIndex st !! appId = None ->
        truthy (yr_phone result) = true ->
        let st' :=
          set_restaurantIndex
            (storeYelpResults clock userId (result :: results)) st in
        get_indexed_restaurants appId userId channel st'
        = noRestaurantsIndexed
        /\ getIndexedRestaurants userId st' <> noRestaurantsIndexed).
Proof.
  assert (Hother : forall clock results,
    userId <> appId ->
    get_indexed_restaurants appId userId channel
      (set_restaurantIndex (storeYelpResults clock userId results) st)
    = get_indexed_restaurants appId userId channel st).
  { intros clock results Hne.
    unfold get_indexed_restaurants, getIndexedRestaurants. simpl.
    now rewrite storeYelpResults_other_user by congruence. }
  assert (Hnone : restaurantIndex st !! appId = None ->
    get_indexed_restaurants appId userId channel st = noRestaurantsIndexed).
  { intros H. unfold get_indexed_restaurants, getIndexedRestaurants.
    now rewrite H. }
  split; [reflexivity | split; [exact Hother | split; [exact Hnone|]]].
  intros clock result results Hne Happ Hphone st'. split.
  - unfold st'. rewrite Hother by exact Hne. now apply Hnone.
  - unfold st', getIndexedRestaurants. simpl.
    rewrite storeYelpResults_user.
    set (userIndex := storeYelpLoop clock 0 _ (result :: results)).
    assert (Hsize : JsMap.size userIndex <> 0%nat).
    { unfold userIndex. rewrite size_keys, storeYelpLoop_keys, length_app.
      destruct (default JsMap.empty (restaurantIndex st !! userId))
        as [|entry entries]; [|simpl; lia].
      unfold JsMap.keys. cbn [map newIds]. rewrite Hphone.
      rewrite bool_decide_eq_false_2 by apply not_elem_of_nil.
      simpl. lia. }
    apply Nat.eqb_neq in Hsize. rewrite Hsize.
    unfold noRestaurantsIndexed. intros H.
    apply (f_equal (fun s => String.get 0 s)) in H.
    rewrite !append_cons in H. simpl in H. discriminate H.
Qed.

(** ** The tools of a version *)


(** ** Placing the call *)

Lemma includes_startsWith (s sub : string) :
  startsWith s sub = true -> includes s sub = true.
Proof.
  intros H. apply includes_iff. apply startsWith_iff in H as [post ->].
  exists "", post. now rewrite append_nil_l.
Qed.

Lemma formatPhoneNumber_prefix (phone : string) :
  exists rest, formatPhoneNumber phone = "+1" +:+ rest.
Proof.
  unfold formatPhoneNumber.
  destruct (startsWith (keep isDigit phone) "1") eqn:Hone.
  - apply startsWith_iff in Hone as [post ->]. now exists post.
  - now exists (keep isDigit phone).
Qed.

Lemma callPhone_returns phone appId userId channel to text :
  Tools.callPhone phone appId userId channel to = Returns text ->
  isBlank (pstnApiUrl (pstn phone)) = false
  /\ isBlank (pstnAuthHeader (pstn phone)) = false
  /\ isBlank (pstnFromNumber (pstn phone)) = false
  /\ exists success callid reason,
       axiosPost phone (pstnRequestOf phone appId userId channel to)
       = PstnAnswered success callid reason
       /\ (success = false -> reportsFailure text = true).
Proof.
  unfold Tools.callPhone.
  destruct (isBlank (pstnApiUrl (pstn phone))); [discriminate|].
  destruct (isBlank (pstnAuthHeader (pstn phone))); [discriminate|].
  destruct (isBlank (pstnFromNumber (pstn phone))); [discriminate|].
  destruct (negb (truthy appId) || negb (truthy channel)); [discriminate|].
  destruct (axiosPost phone (pstnRequestOf phone appId userId channel to))
    as [success callid reason|status body|error]; [|discriminate..].
  intros Htext. repeat split. exists success, callid, reason.
  split; [reflexivity|]. intros ->. injection Htext as <-.
  unfold reportsFailure. rewrite includes_startsWith; reflexivity.
Qed.

(** X24.  Monitoring starts only after the telephony service accepted the
    call.  With the call functions of [src/libs/tools.ts] behind
    [createSpecializedVoiceAgent], a run that changes the polling sessions
    has posted an outbound-call request that the service answered with
    [success]: the PSTN URL, authorisation and caller number were
    configured, and the request went to a number that starts with [+1] —
    the number given on the route ['live'], the configured Sid or Hermes
    number otherwise.  A call the service declines, an unconfigured bridge
    or a missing Hermes number never leaves a session. *)
Theorem polling_starts_only_after_accepted_call
    (base : Env) (phone : PhoneEnv)
    (appId userId channel specialization phoneNumber : string) (st : Stores)
    (Hstarted :
       activePollingSessions
         (runTask
            (createSpecializedVoiceAgent (withTelephony base phone) appId
               userId channel specialization phoneNumber) st).1
       <> activePollingSessions st) :
  exists number callid reason,
    let request :=
      pstnRequestOf phone (agora_appId (config base)) userId
        (specializedChannelNameOf base specialization) number in
    axiosPost phone request = PstnAnswered true callid reason
    /\ pr_to request = formatPhoneNumber number
    /\ startsWith (pr_to request) "+1" = true
    /\ (number = phoneNumber \/ number = SID_PHONE_NUMBER phone
        \/ number = HERMES_PHONE_NUMBER phone)
    /\ isBlank (pstnApiUrl (pstn phone)) = false
    /\ isBlank (pstnAuthHeader (pstn phone)) = false
    /\ isBlank (pstnFromNumber (pstn phone)) = false.
Proof.
  revert Hstarted. unfold createSpecializedVoiceAgent.
  cbn [withTelephony config nowCreate randomSuffix buildTokenWithUid
       fetchJoin nowStoreAgent nowGetCallAction].
  destruct (missingConfig (config base)); [|intros H; elim H; reflexivity].
  destruct (getTTSConfig (config base)); [|intros H; elim H; reflexivity].
  destruct (buildTokenWithUid base _); [|intros H; elim H; reflexivity].
  simpl runTask.
  destruct (fetchJoin base) as [response|];
    [|intros H; elim H; reflexivity].
  destruct (negb (resp_ok response)).
  { destruct (resp_text response); intros H; elim H; reflexivity. }
  destruct (resp_json response) as [agent_id|]; [|intros H; elim H; reflexivity].
  match goal with
  | |- context [getCallAction ?n ?c ?s] =>
      destruct (getCallAction n c s) as [callAction store']
  end.
  simpl runTask.
  fold (specializedChannelNameOf base specialization).
  set (name := specializedChannelNameOf base specialization).
  destruct (placeCall (withTelephony base phone) callAction userId name
              phoneNumber) as [callResult|e] eqn:Hcall;
    [|destruct agent_id as [id|]; [destruct (truthy id)|];
      intros H; elim H; reflexivity].
  destruct (includes callResult "Failed" || includes callResult "Error"
            || includes callResult "Invalid") eqn:Hfailure;
    [destruct agent_id as [id|]; [destruct (truthy id)|];
     intros H; elim H; reflexivity|].
  intros _.
  assert (Hdialled : exists number,
    Tools.callPhone phone (agora_appId (config base)) userId name number
    = Returns callResult
    /\ (number = phoneNumber \/ number = SID_PHONE_NUMBER phone
        \/ number = HERMES_PHONE_NUMBER phone)).
  { revert Hcall. unfold placeCall. simpl.
    destruct (String.eqb callAction "call_sid").
    - unfold Tools.callSidPhone.
      destruct (negb (truthy (SID_PHONE_NUMBER phone))); [discriminate|].
      destruct (negb (truthy (agora_appId (config base)))
                || negb (truthy name)); [discriminate|].
      intros H. exists (SID_PHONE_NUMBER phone). auto.
    - destruct (String.eqb callAction "live").
      + intros H. exists phoneNumber. auto.
      + unfold Tools.callHermesPhone.
        destruct (negb (truthy (HERMES_PHONE_NUMBER phone)));
          [discriminate|].
        destruct (negb (truthy (agora_appId (config base)))
                  || negb (truthy name)); [discriminate|].
        intros H. exists (HERMES_PHONE_NUMBER phone). auto. }
  destruct Hdialled as (number & Hreturned & Hnumber).
  destruct (callPhone_returns _ _ _ _ _ _ Hreturned)
    as (Hurl & Hauth & Hfrom & success & callid & reason & Hanswer
        & Hdeclined).
  exists number, callid, reason. cbv zeta.
  destruct success.
  - repeat split; try assumption.
    unfold pstnRequestOf. cbn [pr_to].
    destruct (formatPhoneNumber_prefix number) as [rest ->].
    apply startsWith_iff. now exists rest.
  - specialize (Hdeclined eq_refl). unfold reportsFailure in Hdeclined.
    congruence.
Qed.

Lemma polling_starts_only_after_accepted_call_witness :
  exists number callid reason,
    axiosPost demoPhone
      (pstnRequestOf demoPhone "app" "u1"
         "specialized-phone-ordering-1000-abc123" number)
    = PstnAnswered true callid reason.
Proof.
  destruct (polling_starts_only_after_accepted_call workingEnv demoPhone
              "app" "u1" "c1" "phone-ordering" "+15551234567" emptyStores)
    as (number & callid & reason & Hanswer & _).
  - vm_compute. discriminate.
  - exists number, callid, reason. exact Hanswer.
Defined.

(** ** Authorisation *)

Lemma replaceFirst_prefix (pattern rest replacement : string) :
  replaceFirst (pattern +:+ rest) pattern replacement = replacement +:+ rest.
Proof.
  rewrite replaceFirst_eq.
  replace (startsWith (pattern +:+ rest) pattern) with true
    by (symmetry; apply startsWith_iff; now exists rest).
  now rewrite dropChars_append.
Qed.

(** X25.  [validateRequest] lets a request pass exactly when the
    configured key is not empty and the authorisation header, with its
    first ["Bearer "] removed, is that key; every other request is
    answered with status 403.  So a missing header, an empty token and an
    unconfigured (empty) key are all refused; the key is accepted after
    ["Bearer "], and also without it when the key does not contain
    ["Bearer "]: the scheme is not required. *)
Theorem validateRequest_accepts_exactly_the_key
    (c : AuthConfig) (authorization : option string) :
  let key := expectedApiKey c in
  (validateRequest c authorization = Next
   \/ validateRequest c authorization
      = Respond 403 "Invalid or missing token" (llm_provider c))
  /\ (validateRequest c authorization = Next <->
      truthy key = true
      /\ replaceFirst (orElse authorization "") "Bearer " "" = key)
  /\ validateRequest c None <> Next
  /\ validateRequest c (Some "Bearer ") <> Next
  /\ (truthy key = true ->
      validateRequest c (Some ("Bearer " +:+ key)) = Next)
  /\ (truthy key = true -> includes key "Bearer " = false ->
      validateRequest c (Some key) = Next).
Proof.
  intros key.
  assert (Hiff : forall header,
    validateRequest c header = Next <->
    truthy key = true
    /\ replaceFirst (orElse header "") "Bearer " "" = key).
  { intros header. unfold validateRequest. fold (expectedApiKey c). fold key.
    set (token := replaceFirst (orElse header "") "Bearer " "").
    destruct (truthy token) eqn:Htoken; simpl.
    - destruct (String.eqb token key) eqn:Hkey; simpl.
      + apply String.eqb_eq in Hkey. subst key. rewrite <- Hkey.
        split; [intros _; now split | reflexivity].
      + apply String.eqb_neq in Hkey.
        split; [discriminate | intros [_ H]; contradiction].
    - split; [discriminate|]. intros [Hkey H]. rewrite <- H in Hkey.
      congruence. }
  split.
  { unfold validateRequest.
    destruct (negb _ || negb _); [now right | now left]. }
  split; [apply Hiff|].
  split.
  { rewrite Hiff. intros [Hkey H]. rewrite <- H in Hkey. discriminate Hkey. }
  split.
  { rewrite Hiff. intros [Hkey H]. rewrite <- H in Hkey. discriminate Hkey. }
  split.
  - intros Hkey. apply Hiff. split; [exact Hkey|].
    unfold orElse. rewrite truthy_append_l by reflexivity.
    rewrite replaceFirst_prefix. apply append_nil_l.
  - intros Hkey Hplain. apply Hiff. split; [exact Hkey|].
    unfold orElse. rewrite Hkey. now apply replaceFirst_absent.
Qed.

(** ** Search by name *)

Lemma findIndexedLoop_phone name restaurants :
  findPhoneLoop name restaurants
  = option_map r_phone (findIndexedLoop name restaurants).
Proof.
  induction restaurants as [|r restaurants IH]; [reflexivity|].
  simpl. destruct (includes (normalizeName (r_name r)) name
                   || includes name (normalizeName (r_name r)));
    [reflexivity | exact IH].
Qed.

Lemma findIndexedLoop_first name restaurants r :
  findIndexedLoop (normalizeName name) restaurants = Some r ->
  exists before after,
    restaurants = before ++ r :: after
    /\ (forall r', In r' before -> ~ nameMatches name (r_name r'))
    /\ nameMatches name (r_name r).
Proof.
  induction restaurants as [|x restaurants IH]; [discriminate|].
  simpl.
  destruct (includes (normalizeName (r_name x)) (normalizeName name)
            || includes (normalizeName name) (normalizeName (r_name x)))
    eqn:Hmatch.
  - intros [= <-]. exists [], restaurants.
    split; [reflexivity | split; [intros r' []|]].
    now apply nameMatches_iff.
  - intros Hfound. destruct (IH Hfound) as (before & after & -> & Hnone & Hr).
    exists (x :: before), after.
    split; [reflexivity | split; [|exact Hr]].
    intros r' [<- | Hin]; [|now apply Hnone].
    intros Hx. apply nameMatches_iff in Hx. congruence.
Qed.

(** X26.  [searchYelpByName] answers from the index whenever
    [findPhoneNumber] finds a non-empty phone for the name, and then it
    shows the entry that phone belongs to: the oldest entry of the user's
    index whose name matches.  On that path the YELP API is not asked —
    the answer is the same for every behaviour of the rest of the
    function — and the stores are unchanged; when [findPhoneNumber] finds
    nothing, the function is the rest of the body. *)
Theorem searchYelpByName_answers_from_index
    (appId userId channel : string) (args : NameSearchArgs) (st : Stores) :
  (forall phone,
     findPhoneNumber (restaurantIndex st) userId (ns_name args) = Some phone ->
     truthy phone = true ->
     exists userIndex restaurant before after,
       restaurantIndex st !! userId = Some userIndex
       /\ JsMap.values userIndex = before ++ restaurant :: after
       /\ (forall r', In r' before -> ~ nameMatches (ns_name args) (r_name r'))
       /\ nameMatches (ns_name args) (r_name restaurant)
       /\ r_phone restaurant = phone
       /\ forall online,
            searchYelpByName online appId userId channel args st
            = (Returns (cachedBusinessText args restaurant), st))
  /\ (findPhoneNumber (restaurantIndex st) userId (ns_name args) = None ->
      forall online,
        searchYelpByName online appId userId channel args st
        = online userId args st).
Proof.
  split.
  - intros phone Hfound Hphone. unfold searchYelpByName. rewrite Hfound, Hphone.
    revert Hfound. unfold findPhoneNumber.
    destruct (restaurantIndex st !! userId) as [userIndex|]; [|discriminate].
    destruct (JsMap.size userIndex =? 0)%nat; [discriminate|].
    rewrite findIndexedLoop_phone.
    destruct (findIndexedLoop (normalizeName (ns_name args))
                (JsMap.values userIndex)) as [restaurant|] eqn:Hloop;
      [|discriminate].
    intros [= <-].
    destruct (findIndexedLoop_first _ _ _ Hloop)
      as (before & after & Hvalues & Hnone & Hmatch).
    exists userIndex, restaurant, before, after. auto 10.
  - intros Hnone online. unfold searchYelpByName. now rewrite Hnone.
Qed.

(** ** Multi-turn tool use *)

Section MultiTurnFacts.

Context {World JsonValue Params Extras : Type}.
Context (JSON_parse : string -> Outcome JsonValue).
Context (JSON_stringify : string -> string).
Context (availableFunctions : string -> option (FunctionHandler World JsonValue)).
Context (create : CompletionRequest Params Extras -> World ->
                  Outcome ChatCompletion * World).
Context (params : Params).

Local Abbreviation rounds :=
  (multiTurnLoop JSON_parse JSON_stringify availableFunctions create params).
Local Abbreviation answers :=
  (answersAfter JSON_parse JSON_stringify availableFunctions create params).

Lemma rounds_answers (options : MultiTurnOptions Extras) n msgs w final msgs' w' :
  answers options n msgs w final msgs' w' ->
  forall fuel requests calls,
    (n < fuel)%nat ->
    exists run,
      rounds fuel options msgs w requests calls = Some run
      /\ run_outcome run = Returns final
      /\ run_world run = w'
      /\ run_messages run = msgs'
      /\ length (run_requests run) = (length requests + n + 1)%nat
      /\ length (run_invoked run) = (length calls + n)%nat
      /\ length msgs' = (length msgs + 2 * n)%nat
      /\ Forall (fun request => rq_extras request = Some (mt_tools options))
           (drop (length requests) (run_requests run)).
Proof.
  induction 1 as [msgs w final w' Hcreate Hplain
                 |n msgs w response w1 msg call others handler functionArgs
                    output w2 final msgs' w' Hcreate Hchoice Hcalls Hhandler
                    Hparse Hcall _ IH];
    intros fuel requests calls Hfuel.
  - destruct fuel as [|fuel]; [lia|]. simpl. rewrite Hcreate.
    eexists. split.
    + destruct (firstChoiceMessage final) as [msg|]; [|reflexivity].
      destruct Hplain as [-> | ->]; reflexivity.
    + simpl. rewrite length_app. simpl.
      repeat split; try lia.
      rewrite drop_app_length. repeat constructor.
  - destruct fuel as [|fuel]; [lia|]. simpl.
    rewrite Hcreate, Hchoice, Hcalls, Hhandler, Hparse, Hcall.
    rewrite <- app_assoc. simpl.
    destruct (IH fuel
                (requests
                 ++ [mkRequest (mt_model options) msgs params
                       (Some (mt_tools options))])
                (calls ++ [(tc_name call, functionArgs)]) ltac:(lia))
      as (run & Hrun & Houtcome & Hworld & Hmessages & Hrequests & Hcalled
          & Hlength & Htools).
    exists run. split; [exact Hrun|].
    rewrite !length_app in *. simpl in *.
    repeat split; try assumption; try lia.
    assert (Hprefix : exists later,
      run_requests run
      = (requests
         ++ [mkRequest (mt_model options) msgs params
               (Some (mt_tools options))]) ++ later).
    { clear -Hrun. revert Hrun.
      generalize (requests
                  ++ [mkRequest (mt_model options) msgs params
                        (Some (mt_tools options))]).
      generalize (calls ++ [(tc_name call, functionArgs)]).
      generalize (msgs
                  ++ [mkMessage assistant (rm_content msg) None
                        (call :: others);
                      toolMessage (JSON_stringify output) (tc_id call)]).
      generalize w2. clear.
      induction fuel as [|fuel IHfuel]; intros w0 msgs0 calls0 requests0;
        [discriminate|].
      simpl.
      destruct (create _ w0) as [[response|e] w1];
        [|intros [= <-]; simpl; eexists; reflexivity].
      destruct (firstChoiceMessage response) as [msg|];
        [|intros [= <-]; simpl; eexists; reflexivity].
      destruct (rm_tool_calls msg) as [[|call others]|];
        try (intros [= <-]; simpl; eexists; reflexivity).
      destruct (availableFunctions (tc_name call)) as [handler|];
        [|intros [= <-]; simpl; eexists; reflexivity].
      destruct (JSON_parse (tc_arguments call)) as [functionArgs|e];
        [|intros [= <-]; simpl; eexists; reflexivity].
      destruct (handler _ _ _ functionArgs w1) as [[output|e] w2];
        [|intros [= <-]; simpl; eexists; reflexivity].
      intros Hrun. apply IHfuel in Hrun as [later ->].
      rewrite <- app_assoc. eexists. reflexivity. }
    destruct Hprefix as [later Hlater].
    rewrite Hlater in Htools |- *.
    rewrite <- app_assoc. rewrite drop_app_length.
    rewrite drop_app_length' in Htools
      by (rewrite length_app; simpl; lia).
    constructor; [reflexivity | exact Htools].
Qed.

(** X27.  [processMultiTurnToolUse] runs one tool per round and stops when
    the model stops asking.  For a model other than ['qwen-3-32b'] it
    throws at once and makes no request.  For ['qwen-3-32b'], when the
    model asks for tools in [n] rounds and then answers, the function
    returns that answer after [n + 1] requests, each offering the tools,
    and [n] handler calls — in every round the first tool call of the
    response only — having added two messages per round; [n + 1] rounds
    of the loop are enough. *)
Theorem processMultiTurnToolUse_one_tool_per_round
    (options : MultiTurnOptions Extras) (systemMessage : ChatMessage)
    (messages : list ChatMessage) (w : World) :
  (mt_model options <> "qwen-3-32b" ->
   forall fuel,
     processMultiTurnToolUse JSON_parse JSON_stringify availableFunctions
       create params fuel systemMessage messages options w
     = Some (mkRun (Throws unsupportedModel) w [] [] messages))
  /\ (mt_model options = "qwen-3-32b" ->
      forall n final msgs' w',
        answers options n (systemMessage :: messages) w final msgs' w' ->
        forall fuel, (n < fuel)%nat ->
        exists run,
          processMultiTurnToolUse JSON_parse JSON_stringify availableFunctions
            create params fuel systemMessage messages options w
          = Some run
          /\ run_outcome run = Returns final
          /\ run_world run = w'
          /\ run_messages run = msgs'
          /\ length (run_requests run) = (n + 1)%nat
          /\ length (run_invoked run) = n
          /\ length msgs' = (length messages + 1 + 2 * n)%nat
          /\ Forall
               (fun request => rq_extras request = Some (mt_tools options))
               (run_requests run)).
Proof.
  split.
  - intros Hmodel fuel. unfold processMultiTurnToolUse.
    apply String.eqb_neq in Hmodel. now rewrite Hmodel.
  - intros Hmodel n final msgs' w' Hanswers fuel Hfuel.
    unfold processMultiTurnToolUse. rewrite Hmodel. simpl.
    destruct (rounds_answers options n _ w final msgs' w' Hanswers fuel [] []
                Hfuel)
      as (run & Hrun & Houtcome & Hworld & Hmessages & Hrequests & Hcalled
          & Hlength & Htools).
    exists run. simpl in *. repeat split; try assumption; lia.
Qed.

End MultiTurnFacts.

Lemma processMultiTurnToolUse_one_tool_per_round_witness :
  exists run,
    processMultiTurnToolUse demoParse (fun output => output) demoFunctions
      insistentCreate tt 3
      (mkMessage system (Text "You are a helpful assistant.") None [])
      [mkMessage user (Text "Is Tony's Pizza open?") None []] qwenOptions tt
    = Some run
    /\ length (run_requests run) = 3%nat
    /\ map fst (run_invoked run)
       = ["get_restaurant_details"; "get_restaurant_details"].
Proof.
  destruct (proj2 (processMultiTurnToolUse_one_tool_per_round demoParse
                     (fun output => output) demoFunctions insistentCreate tt
                     qwenOptions
                     (mkMessage system (Text "You are a helpful assistant.")
                        None [])
                     [mkMessage user (Text "Is Tony's Pizza open?") None []]
                     tt) eq_refl 2%nat
              (mkCompletion "final"
                 (Some [Some (mkResponseMessage
                                (Text "Tony's Pizza is open.") None)]))
              _ tt
              ltac:(repeat (eapply answers_later;
                              [reflexivity | reflexivity | reflexivity
                              | reflexivity | reflexivity | reflexivity |]);
                    apply answers_now; [reflexivity | simpl; auto])
              3%nat ltac:(lia))
    as (run & Hrun & _ & _ & _ & Hrequests & _).
  exists run. split; [exact Hrun|]. split; [exact Hrequests|].
  vm_compute in Hrun. injection Hrun as <-. reflexivity.
Defined.

(** ** Phone numbers as they are dialled *)

Lemma digits10or11_spec (s : string) :
  digits10or11 s = true ->
  all_chars isDigit s = true
  /\ (10 <= String.length s <= 11)%nat.
Proof.
  unfold digits10or11. intros H.
  apply andb_prop in H as [H Hmax]. apply andb_prop in H as [Hdigits Hmin].
  apply Nat.leb_le in Hmin, Hmax. auto.
Qed.

(** X28.  A phone number the dispatch wrappers accept is dialled with the
    same digits, and the country code is added only when the digits do not
    begin with [1].  A number that matches [^\+?1?[0-9]{10,11}$] is ten to
    twelve digits behind an optional [+]; [formatPhoneNumber] turns it
    into [+] and those digits when they begin with [1], and into [+1] and
    those digits otherwise.  So a ten-digit number that begins with [1] is
    dialled as it is, with nine digits behind the country code. *)
Theorem accepted_number_as_dialled (phone : string)
    (Haccepted : matchesPhonePattern phone = true) :
  let digits := keep isDigit phone in
  all_chars isDigit digits = true
  /\ (phone = digits \/ phone = "+" +:+ digits)
  /\ (10 <= String.length digits <= 12)%nat
  /\ formatPhoneNumber phone
     = (if startsWith digits "1" then "+" +:+ digits else "+1" +:+ digits)
  /\ (String.length digits = 10%nat -> startsWith digits "1" = true ->
      formatPhoneNumber phone = "+" +:+ digits
      /\ String.length (formatPhoneNumber phone) = 11%nat).
Proof.
  intros digits.
  assert (Hshape : exists afterPlus,
    (phone = afterPlus \/ phone = "+" +:+ afterPlus)
    /\ all_chars isDigit afterPlus = true
    /\ (10 <= String.length afterPlus <= 12)%nat).
  { unfold matchesPhonePattern in Haccepted.
    set (afterPlus :=
           match phone with
           | String c r => if Ascii.eqb c "+" then r else phone
           | EmptyString => phone
           end) in *.
    assert (Hphone : phone = afterPlus \/ phone = "+" +:+ afterPlus).
    { unfold afterPlus. destruct phone as [|c r]; [now left|].
      destruct (Ascii.eqb c "+") eqn:E; [|now left].
      apply Ascii.eqb_eq in E. subst c. now right. }
    exists afterPlus. split; [exact Hphone|].
    apply orb_prop in Haccepted as [Hplain | Hone].
    - apply digits10or11_spec in Hplain as [Hdigits Hlength].
      split; [exact Hdigits | lia].
    - destruct afterPlus as [|c r]; [discriminate|].
      apply andb_prop in Hone as [Hc Hrest].
      apply Ascii.eqb_eq in Hc. subst c.
      apply digits10or11_spec in Hrest as [Hdigits Hlength].
      split; [simpl; exact Hdigits | simpl; lia]. }
  destruct Hshape as (afterPlus & Hphone & Hdigits & Hlength).
  assert (Hkeep : digits = afterPlus).
  { unfold digits. destruct Hphone as [-> | ->].
    - now apply keep_id.
    - rewrite keep_app. simpl. rewrite append_nil_l. now apply keep_id. }
  assert (Hformat : formatPhoneNumber phone
                    = (if startsWith digits "1" then "+" +:+ digits
                       else "+1" +:+ digits)).
  { unfold formatPhoneNumber. fold digits.
    destruct (startsWith digits "1"); reflexivity. }
  rewrite Hkeep in *.
  split; [exact Hdigits|].
  split; [exact Hphone|].
  split; [exact Hlength|].
  split; [exact Hformat|].
  intros Hten Hone. rewrite Hformat, Hone.
  split; [reflexivity|].
  change ("+" +:+ afterPlus) with (String "+" afterPlus).
  simpl. now rewrite Hten.
Qed.

Lemma accepted_number_as_dialled_witness :
  formatPhoneNumber "1234567890" = "+1234567890"
  /\ formatPhoneNumber "4155551234" = "+14155551234".
Proof.
  pose proof (accepted_number_as_dialled "1234567890" eq_refl) as H1.
  pose proof (accepted_number_as_dialled "4155551234" eq_refl) as H2.
  split.
  - exact (proj1 (proj2 (proj2 (proj2 (proj2 H1))) eq_refl eq_refl)).
  - exact (proj1 (proj2 (proj2 (proj2 H2)))).
Defined.

(** ** The index listing *)

Lemma insertByRecency_perm r sorted :
  Permutation (insertByRecency r sorted) (r :: sorted).
Proof.
  induction sorted as [|x sorted IH]; simpl; [reflexivity|].
  destruct (r_lastSeen x <=? r_lastSeen r); [reflexivity|].
  rewrite IH. apply perm_swap.
Qed.

Lemma sortByRecency_perm restaurants :
  Permutation (sortByRecency restaurants) restaurants.
Proof.
  induction restaurants as [|r restaurants IH]; simpl; [reflexivity|].
  rewrite insertByRecency_perm. now apply perm_skip.
Qed.

Lemma insertByRecency_sorted r sorted :
  byRecency sorted -> byRecency (insertByRecency r sorted).
Proof.
  induction sorted as [|x sorted IH]; simpl; [auto|].
  intros [Hx Hsorted].
  destruct (r_lastSeen x <=? r_lastSeen r) eqn:E; simpl.
  - apply Z.leb_le in E. split; [|auto].
    constructor; [exact E|].
    eapply Forall_impl; [exact Hx|]. simpl. intros; lia.
  - apply Z.leb_gt in E. split; [|auto].
    rewrite insertByRecency_perm. constructor; [lia | exact Hx].
Qed.

Lemma sortByRecency_sorted restaurants : byRecency (sortByRecency restaurants).
Proof.
  induction restaurants as [|r restaurants IH]; simpl; [exact I|].
  now apply insertByRecency_sorted.
Qed.

Lemma byRecency_split rest : forall shown,
  byRecency (shown ++ rest) ->
  byRecency shown
  /\ forall a b, In a shown -> In b rest -> r_lastSeen b <= r_lastSeen a.
Proof.
  induction shown as [|x shown IH]; simpl.
  - intros _. split; [exact I | intros a b []].
  - intros [Hx Hsorted]. destruct (IH Hsorted) as [Hshown Hrest].
    apply Forall_app in Hx as [Hx1 Hx2].
    split; [split; assumption|].
    intros a b [<- | Ha] Hb; [|now apply Hrest].
    rewrite Forall_forall in Hx2. apply Hx2. now apply list_elem_of_In.
Qed.

(** X29.  [getIndexedRestaurants] lists the most recently seen entries of
    the index: at most twenty of them, each an entry of the index, most
    recently seen first, and every entry it leaves out was seen no later
    than every entry it lists.  Without an index, or with an empty one,
    it reports that no restaurant is indexed; otherwise the text gives the
    size of the whole index and one line per listed entry. *)
Theorem getIndexedRestaurants_lists_most_recent
    (userId : string) (st : Stores) :
  (forall userIndex,
     restaurantIndex st !! userId = Some userIndex ->
     let listed := listedRestaurants userIndex in
     (length listed <= 20)%nat
     /\ length listed = Nat.min 20 (JsMap.size userIndex)
     /\ byRecency listed
     /\ (exists others,
           Permutation (listed ++ others) (JsMap.values userIndex)
           /\ forall shown other,
                In shown listed -> In other others ->
                r_lastSeen other <= r_lastSeen shown)
     /\ (JsMap.size userIndex <> 0%nat ->
         getIndexedRestaurants userId st
         = "Currently indexed restaurants ("
           +:+ ofZ (Z.of_nat (JsMap.size userIndex))
           +:+ " total, showing 20 most recent):

" +:+ join "
" (map indexedRestaurantLine listed) +:+ "

💡 These restaurants can be used for orders without additional searches.")
     /\ (JsMap.size userIndex = 0%nat ->
         getIndexedRestaurants userId st = noRestaurantsIndexed))
  /\ (restaurantIndex st !! userId = None ->
      getIndexedRestaurants userId st = noRestaurantsIndexed).
Proof.
  split.
  - intros userIndex Hindex listed.
    set (sorted := sortByRecency (JsMap.values userIndex)).
    assert (Hsize : length sorted = JsMap.size userIndex).
    { unfold sorted. rewrite (Permutation_length (sortByRecency_perm _)).
      unfold JsMap.values, JsMap.size. apply length_map. }
    assert (Hsplit : sorted = listed ++ drop 20 sorted)
      by (symmetry; apply take_drop).
    pose proof (sortByRecency_sorted (JsMap.values userIndex)) as Hsorted.
    fold sorted in Hsorted. rewrite Hsplit in Hsorted.
    apply byRecency_split in Hsorted as [Hlisted Hrest].
    split; [unfold listed, listedRestaurants; rewrite length_take; lia|].
    split; [unfold listed, listedRestaurants; fold sorted;
            rewrite length_take, Hsize; reflexivity|].
    split; [exact Hlisted|].
    split.
    { exists (drop 20 sorted). split; [|exact Hrest].
      rewrite <- Hsplit. apply sortByRecency_perm. }
    split.
    + intros Hnonempty. unfold getIndexedRestaurants. rewrite Hindex.
      apply Nat.eqb_neq in Hnonempty. now rewrite Hnonempty.
    + intros Hempty. unfold getIndexedRestaurants. rewrite Hindex.
      now rewrite Hempty.
  - intros Hnone. unfold getIndexedRestaurants. now rewrite Hnone.
Qed.

(** ** Dispatches, accepted or refused *)

Lemma refused_not_accepted d st channel : refused d st -> ~ accepted d channel.
Proof.
  intros (_ & Hnone & _) (_ & [task Htask] & _). congruence.
Qed.

Lemma inquiry_failing_args env appId userId channel args st :
  inquiryArgsPass args = false ->
  refused (callAndAskQuestionAgent env appId userId channel args st) st.
Proof.
  intros Hpass. unfold callAndAskQuestionAgent, refused.
  unfold inquiryArgsPass in Hpass.
  destruct (truthy (iq_phone_number args)),
    (truthy (iq_restaurant_name args)), (truthy (iq_question args));
    cbn [negb orb andb] in *; try discriminate Hpass;
    cbn [d_stores d_background d_result]; repeat split; reflexivity.
Qed.

Lemma order_failing_args env appId userId channel args st :
  orderArgsPass (restaurantIndex st) userId args = false ->
  refused (placePhoneOrderAgent env appId userId channel args st) st.
Proof.
  intros Hpass. unfold placePhoneOrderAgent, refused.
  unfold orderArgsPass in Hpass.
  destruct (truthy (or_phone_number args)),
    (truthy (or_restaurant_name args)), (truthy (or_customer_name args)),
    (truthy (or_food_items args)), (truthy (or_delivery_type args)),
    (truthy (or_delivery_address args));
    cbn [negb orb andb] in *; cbn [d_stores d_background d_result];
    try (repeat split; reflexivity).
  destruct (implausibleCustomerName (or_customer_name args));
    cbn [negb andb] in *; cbn [d_stores d_background d_result];
    try (repeat split; reflexivity).
  destruct (resolveOrderPhone (restaurantIndex st) userId args);
    [discriminate Hpass|].
  cbn [d_stores d_background d_result]. repeat split; reflexivity.
Qed.

Lemma reservation_failing_args env appId userId channel args st :
  reservationArgsPass args = false ->
  refused (makeReservationAgent env appId userId channel args st) st.
Proof.
  intros Hpass. unfold makeReservationAgent, refused.
  unfold reservationArgsPass in Hpass.
  destruct (truthy (rs_phone_number args)),
    (truthy (rs_restaurant_name args)), (truthy (rs_customer_name args)),
    (rs_party_size args =? 0), (truthy (rs_time_preferences args));
    cbn [negb orb andb] in *; cbn [d_stores d_background d_result];
    try (repeat split; reflexivity).
  destruct (implausibleCustomerName (rs_customer_name args));
    cbn [negb andb] in *; cbn [d_stores d_background d_result];
    try (repeat split; reflexivity).
  destruct (matchesPhonePattern (rs_phone_number args));
    [discriminate Hpass|].
  cbn [negb d_stores d_background d_result]. repeat split; reflexivity.
Qed.

Lemma dispatch_cases (d : Dispatch) (st : Stores) (channel : string)
    (pass : bool) :
  (guardHeld channel st = true -> refused d st) ->
  (pass = false -> refused d st) ->
  (guardHeld channel st = false -> pass = true -> accepted d channel) ->
  (accepted d channel <-> pass = true /\ guardHeld channel st = false)
  /\ (accepted d channel \/ refused d st).
Proof.
  intros Hheld Hfail Hok.
  destruct pass, (guardHeld channel st) eqn:Hguard.
  - split; [|right; auto].
    split; [intros H; exfalso; eapply refused_not_accepted; eauto
           | intros [_ H]; discriminate H].
  - split; [|left; auto]. split; auto.
  - split; [|right; auto].
    split; [intros H; exfalso; eapply refused_not_accepted; eauto
           | intros [H _]; discriminate H].
  - split; [|right; auto].
    split; [intros H; exfalso; eapply refused_not_accepted; eauto
           | intros [H _]; discriminate H].
Qed.

(** X30.  A dispatch is accepted or refused, and nothing in between.
    Each of the three wrappers accepts a call exactly when its arguments
    pass its validation and the guard of the channel is free; every other
    call is refused with a message that starts with ["Error: "], the
    stores as they were and nothing started.  An accepted call takes the
    guard, changes nothing else, and starts the creation of an agent of
    the wrapper's kind for the validated phone number — for an order, the
    number [resolveOrderPhone] settles on. *)
Theorem dispatch_accepted_or_refused
    (env : Env) (appId userId channel : string) (st : Stores) :
  (forall args,
     let d := callAndAskQuestionAgent env appId userId channel args st in
     (accepted d channel <->
      inquiryArgsPass args = true /\ guardHeld channel st = false)
     /\ (accepted d channel \/ refused d st)
     /\ (accepted d channel ->
         d_stores d = acquireGuard channel st
         /\ d_background d
            = Some (backgroundCreation env appId userId channel
                      "restaurant-inquiry" (iq_phone_number args))))
  /\ (forall args,
        let d := placePhoneOrderAgent env appId userId channel args st in
        (accepted d channel <->
         orderArgsPass (restaurantIndex st) userId args = true
         /\ guardHeld channel st = false)
        /\ (accepted d channel \/ refused d st)
        /\ (accepted d channel ->
            exists phoneNumber,
              resolveOrderPhone (restaurantIndex st) userId args
              = Some phoneNumber
              /\ d_stores d = acquireGuard channel st
              /\ d_background d
                 = Some (backgroundCreation env appId userId channel
                           "phone-ordering" phoneNumber)))
  /\ (forall args,
        let d := makeReservationAgent env appId userId channel args st in
        (accepted d channel <->
         reservationArgsPass args = true /\ guardHeld channel st = false)
        /\ (accepted d channel \/ refused d st)
        /\ (accepted d channel ->
            d_stores d = acquireGuard channel st
            /\ d_background d
               = Some (backgroundCreation env appId userId channel
                         "reservation-booking" (rs_phone_number args)))).
Proof.
  split; [|split]; intros args d.
  - destruct (dispatch_cases d st channel (inquiryArgsPass args))
      as [Hiff Hcases].
    + intros H. now apply inquiry_under_guard.
    + apply inquiry_failing_args.
    + apply inquiry_without_guard.
    + split; [exact Hiff | split; [exact Hcases|]].
      intros Haccepted. apply Hiff in Haccepted as [Hpass Hfree].
      unfold d, callAndAskQuestionAgent. unfold inquiryArgsPass in Hpass.
      apply andb_true_iff in Hpass as [[H1 H2]%andb_true_iff H3].
      rewrite H1, H2, H3, Hfree. split; reflexivity.
  - destruct (dispatch_cases d st channel
                (orderArgsPass (restaurantIndex st) userId args))
      as [Hiff Hcases].
    + intros H. now apply order_under_guard.
    + apply order_failing_args.
    + apply order_without_guard.
    + split; [exact Hiff | split; [exact Hcases|]].
      intros Haccepted. apply Hiff in Haccepted as [Hpass Hfree].
      unfold d, placePhoneOrderAgent. unfold orderArgsPass in Hpass.
      repeat (apply andb_true_iff in Hpass as [Hpass ?]).
      match goal with H : negb _ = true |- _ => apply negb_true_iff in H end.
      destruct (resolveOrderPhone (restaurantIndex st) userId args)
        as [phone|]; [|discriminate].
      exists phone.
      repeat match goal with H : _ = _ |- _ => rewrite H end.
      repeat split; reflexivity.
  - destruct (dispatch_cases d st channel (reservationArgsPass args))
      as [Hiff Hcases].
    + intros H. now apply reservation_under_guard.
    + apply reservation_failing_args.
    + apply reservation_without_guard.
    + split; [exact Hiff | split; [exact Hcases|]].
      intros Haccepted. apply Hiff in Haccepted as [Hpass Hfree].
      unfold d, makeReservationAgent. unfold reservationArgsPass in Hpass.
      repeat (apply andb_true_iff in Hpass as [Hpass ?]).
      repeat match goal with
             | H : negb _ = true |- _ => apply negb_true_iff in H
             end.
      repeat match goal with H : _ = _ |- _ => rewrite H end.
      split; reflexivity.
Qed.
